(** * The WebSocket framing engine of cutelyst's WSGI server

    A shallow embedding of [wsgi/protocolwebsocket.cpp] (class
    [CWSGI::ProtocolWebSocket]) and the properties of its frame decoder and
    encoder.

    Conventions of the embedding:
    - machine integers are [Z]; a conversion to a fixed-width unsigned type is
      written out with [quint8], [quint16], [quint32], [quint64];
    - a [QByteArray] is the list of its bytes, each an unsigned 8-bit pattern;
    - a [QString] is the list of its characters;
    - the host is little-endian (the byte punning of [ws_be16], [ws_be64] and
      of the mask depends on it, and is written out through [load_le]);
    - the calls the engine makes on its collaborators ([io->write],
      [sock->connectionClose], the [Cutelyst::Request] notifications) are
      recorded, in order, in the [trace] of the socket;
    - the device is the queue of the bytes received and not yet read; the
      engine never asks whether the connection is closed, and neither does
      the embedding: [closed] only records that [connectionClose] was called;
    - the sizes of byte arrays are not bounded by [int], and the index into
      the mask is not wrapped at 32 bits (it is only used modulo 4). *)

From Stdlib Require Import ZArith List Bool Lia.
Import ListNotations.
Open Scope Z_scope.

(** ** Fixed-width integers and byte arrays *)

Definition quint8 (x : Z) : Z := x mod 2 ^ 8.
Definition quint16 (x : Z) : Z := x mod 2 ^ 16.
Definition quint32 (x : Z) : Z := x mod 2 ^ 32.
Definition quint64 (x : Z) : Z := x mod 2 ^ 64.

Definition is_byte (b : Z) : Prop := 0 <= b < 256.

Definition QByteArray := list Z.
Definition QString := list Z.

(** [QByteArray::size], [QByteArray::left], [QByteArray::mid]. *)
Definition size (a : QByteArray) : Z := Z.of_nat (length a).
Definition left (a : QByteArray) (len : Z) : QByteArray := firstn (Z.to_nat len) a.
Definition mid (a : QByteArray) (pos : Z) : QByteArray := skipn (Z.to_nat pos) a.

Definition isEmpty {A : Type} (a : list A) : bool :=
  match a with [] => true | _ => false end.

Fixpoint QByteArray_eqb (a b : QByteArray) : bool :=
  match a, b with
  | [], [] => true
  | x :: a', y :: b' => (x =? y) && QByteArray_eqb a' b'
  | _, _ => false
  end.

(** A [char] buffer read at an index; the bytes of the scratch buffer past the
    ones just read are stale, and read here as [0]. *)
Definition at_ (buf : list Z) (i : nat) : Z := nth i buf 0.

(** An unsigned load of [n] bytes from [buf] on the little-endian host
    ([*reinterpret_cast<const quintN *>(buf)]). *)
Fixpoint load_le (n : nat) (buf : list Z) : Z :=
  match n with
  | O => 0
  | S n' => quint8 (at_ buf 0) + 2 ^ 8 * load_le n' (tl buf)
  end.

(** ** Qt's text conversions

    [QTextCodec::toUnicode] with a [ConverterState], and [QString::toUtf8],
    are Qt's; the engine is parametric in them. *)

Record ConverterState := mkConverterState {
  invalidChars : Z;
  remainingChars : Z
}.

Record QTextCodec := mkQTextCodec {
  toUnicode : QByteArray -> QString * ConverterState;
  toUtf8 : QString -> QByteArray
}.

(** ** Opcodes, phases and close codes *)

(** Modelled from the spec: the enum [Socket::OpCode] of [wsgi/socket.h], a
    header that is not at hand; the values are the RFC 6455 opcodes the spec
    names (Continue, Text, Binary, reserved 3-7, Close, Ping, Pong 0xA,
    reserved 0xB-0xF). *)
Definition OpCodeContinue : Z := 0x0.
Definition OpCodeText : Z := 0x1.
Definition OpCodeBinary : Z := 0x2.
Definition OpCodeReserved3 : Z := 0x3.
Definition OpCodeReserved7 : Z := 0x7.
Definition OpCodeClose : Z := 0x8.
Definition OpCodePing : Z := 0x9.
Definition OpCodePong : Z := 0xA.
Definition OpCodeReservedB : Z := 0xB.
Definition OpCodeReservedF : Z := 0xF.

(** Modelled from the spec: the enum [Socket::WebSocketPhase] of
    [wsgi/socket.h] (the spec's AwaitingHeader, AwaitingExtendedLength,
    AwaitingMask, AwaitingPayload). *)
Inductive WebSocketPhase :=
| WebSocketPhaseHeaders
| WebSocketPhaseSize
| WebSocketPhaseMask
| WebSocketPhasePayload.

Definition is_payload_phase (p : WebSocketPhase) : bool :=
  match p with WebSocketPhasePayload => true | _ => false end.

(** Modelled from the spec: the enum [Cutelyst::Response::CloseCode] of
    [Cutelyst/response.h], a header that is not at hand.  The spec gives 1000 for
    normal closure and 1002 for protocol error; the others are the RFC 6455
    values of the names [send_closed] uses. *)
Definition CloseCodeNormal : Z := 1000.
Definition CloseCodeGoingAway : Z := 1001.
Definition CloseCodeProtocolError : Z := 1002.
Definition CloseCodeDatatypeNotSupported : Z := 1003.
Definition CloseCodeMissingStatusCode : Z := 1005.
Definition CloseCodeWrongDatatype : Z := 1007.
Definition CloseCodePolicyViolated : Z := 1008.
Definition CloseCodeTooMuchData : Z := 1009.
Definition CloseCodeMissingExtension : Z := 1010.
Definition CloseCodeBadOperation : Z := 1011.

(** ** The frame encoder *)

(** [ProtocolWebSocket::createWebsocketHeader]. *)
Definition createWebsocketHeader (opcode len : Z) : QByteArray :=
  let ret := [quint8 (0x80 + opcode)] in
  if len <? 126 then
    ret ++ [quint8 len]
  else if len <=? quint16 0xffff then
    let buf1 := quint8 (Z.land len 0xff) in
    let buf0 := quint8 (Z.land (Z.shiftr len 8) 0xff) in
    ret ++ [126] ++ [buf0; buf1]
  else
    let buf7 := quint8 (Z.land len 0xff) in
    let buf6 := quint8 (Z.land (Z.shiftr len 8) 0xff) in
    let buf5 := quint8 (Z.land (Z.shiftr len 16) 0xff) in
    let buf4 := quint8 (Z.land (Z.shiftr len 24) 0xff) in
    let buf3 := quint8 (Z.land (Z.shiftr len 32) 0xff) in
    let buf2 := quint8 (Z.land (Z.shiftr len 40) 0xff) in
    let buf1 := quint8 (Z.land (Z.shiftr len 48) 0xff) in
    let buf0 := quint8 (Z.land (Z.shiftr len 56) 0xff) in
    ret ++ [127] ++ [buf0; buf1; buf2; buf3; buf4; buf5; buf6; buf7].

(** [ProtocolWebSocket::createWebsocketCloseReply]. *)
Definition createWebsocketCloseReply (codec : QTextCodec) (msg : QString)
    (closeCode : Z) : QByteArray :=
  let data := left (toUtf8 codec msg) 123 in
  let payload := createWebsocketHeader OpCodeClose (size data + 2) in
  let buf1 := quint8 (Z.land closeCode 0xff) in
  let buf0 := quint8 (Z.land (Z.shiftr closeCode 8) 0xff) in
  let payload := payload ++ [buf0; buf1] in
  payload ++ data.

(** ** Big-endian length fields *)

(** [ws_be16]: the buffer is read as a 32-bit word, and the two result bytes
    are stored through a byte pointer into the 16-bit result. *)
Definition ws_be16 (buf : list Z) : Z :=
  let src := load_le 4 buf in
  let ptr0 := quint8 (Z.land (Z.shiftr src 8) 0xff) in
  let ptr1 := quint8 (Z.land src 0xff) in
  load_le 2 [ptr0; ptr1].

(** [ws_be64]. *)
Definition ws_be64 (buf : list Z) : Z :=
  let src := load_le 8 buf in
  let ptr0 := quint8 (Z.land (Z.shiftr src 56) 0xff) in
  let ptr1 := quint8 (Z.land (Z.shiftr src 48) 0xff) in
  let ptr2 := quint8 (Z.land (Z.shiftr src 40) 0xff) in
  let ptr3 := quint8 (Z.land (Z.shiftr src 32) 0xff) in
  let ptr4 := quint8 (Z.land (Z.shiftr src 24) 0xff) in
  let ptr5 := quint8 (Z.land (Z.shiftr src 16) 0xff) in
  let ptr6 := quint8 (Z.land (Z.shiftr src 8) 0xff) in
  let ptr7 := quint8 (Z.land src 0xff) in
  load_le 8 [ptr0; ptr1; ptr2; ptr3; ptr4; ptr5; ptr6; ptr7].

(** ** The socket and its collaborators *)

(** What the engine does to the outside, in the order it does it. *)
Inductive Event :=
| IoWrite (data : QByteArray)                             (* io->write(data) *)
| ConnectionClose                                         (* sock->connectionClose() *)
| WebSocketTextFrame (frame : QString) (isLastFrame : bool)
| WebSocketTextMessage (msg : QString)
| WebSocketBinaryFrame (frame : QByteArray) (isLastFrame : bool)
| WebSocketBinaryMessage (msg : QByteArray)
| WebSocketPong (payload : QByteArray)
| WebSocketClosed (closeCode : Z) (reason : QString).

(** The [websocket_*] members of [CWSGI::Socket] (the ones
    [protocolwebsocket.cpp] uses, with the widths of their uses), together
    with the socket's device: the bytes received and not yet read
    ([io_pending]), whether [io->read] fails ([io_failing]), whether
    [connectionClose] was called ([closed]), and the [trace]. *)
Record Socket := mkSocket {
  websocket_message : QByteArray;
  websocket_payload : QByteArray;
  websocket_payload_size : Z;        (* quint64 *)
  websocket_need : Z;                (* quint32 *)
  websocket_mask : Z;                (* quint32 *)
  websocket_start_of_frame : Z;      (* int *)
  websocket_phase : WebSocketPhase;
  websocket_continue_opcode : Z;     (* quint8 *)
  websocket_finn_opcode : Z;         (* quint8 *)
  io_pending : QByteArray;
  io_failing : bool;
  closed : bool;
  trace : list Event
}.

Definition set_message (v : QByteArray) (s : Socket) : Socket :=
  mkSocket v (websocket_payload s) (websocket_payload_size s) (websocket_need s)
    (websocket_mask s) (websocket_start_of_frame s) (websocket_phase s)
    (websocket_continue_opcode s) (websocket_finn_opcode s)
    (io_pending s) (io_failing s) (closed s) (trace s).

Definition set_payload (v : QByteArray) (s : Socket) : Socket :=
  mkSocket (websocket_message s) v (websocket_payload_size s) (websocket_need s)
    (websocket_mask s) (websocket_start_of_frame s) (websocket_phase s)
    (websocket_continue_opcode s) (websocket_finn_opcode s)
    (io_pending s) (io_failing s) (closed s) (trace s).

Definition set_payload_size (v : Z) (s : Socket) : Socket :=
  mkSocket (websocket_message s) (websocket_payload s) v (websocket_need s)
    (websocket_mask s) (websocket_start_of_frame s) (websocket_phase s)
    (websocket_continue_opcode s) (websocket_finn_opcode s)
    (io_pending s) (io_failing s) (closed s) (trace s).

Definition set_need (v : Z) (s : Socket) : Socket :=
  mkSocket (websocket_message s) (websocket_payload s) (websocket_payload_size s) v
    (websocket_mask s) (websocket_start_of_frame s) (websocket_phase s)
    (websocket_continue_opcode s) (websocket_finn_opcode s)
    (io_pending s) (io_failing s) (closed s) (trace s).

Definition set_mask (v : Z) (s : Socket) : Socket :=
  mkSocket (websocket_message s) (websocket_payload s) (websocket_payload_size s)
    (websocket_need s) v (websocket_start_of_frame s) (websocket_phase s)
    (websocket_continue_opcode s) (websocket_finn_opcode s)
    (io_pending s) (io_failing s) (closed s) (trace s).

Definition set_start_of_frame (v : Z) (s : Socket) : Socket :=
  mkSocket (websocket_message s) (websocket_payload s) (websocket_payload_size s)
    (websocket_need s) (websocket_mask s) v (websocket_phase s)
    (websocket_continue_opcode s) (websocket_finn_opcode s)
    (io_pending s) (io_failing s) (closed s) (trace s).

Definition set_phase (v : WebSocketPhase) (s : Socket) : Socket :=
  mkSocket (websocket_message s) (websocket_payload s) (websocket_payload_size s)
    (websocket_need s) (websocket_mask s) (websocket_start_of_frame s) v
    (websocket_continue_opcode s) (websocket_finn_opcode s)
    (io_pending s) (io_failing s) (closed s) (trace s).

Definition set_continue_opcode (v : Z) (s : Socket) : Socket :=
  mkSocket (websocket_message s) (websocket_payload s) (websocket_payload_size s)
    (websocket_need s) (websocket_mask s) (websocket_start_of_frame s)
    (websocket_phase s) v (websocket_finn_opcode s)
    (io_pending s) (io_failing s) (closed s) (trace s).

Definition set_finn_opcode (v : Z) (s : Socket) : Socket :=
  mkSocket (websocket_message s) (websocket_payload s) (websocket_payload_size s)
    (websocket_need s) (websocket_mask s) (websocket_start_of_frame s)
    (websocket_phase s) (websocket_continue_opcode s) v
    (io_pending s) (io_failing s) (closed s) (trace s).

Definition set_io_pending (v : QByteArray) (s : Socket) : Socket :=
  mkSocket (websocket_message s) (websocket_payload s) (websocket_payload_size s)
    (websocket_need s) (websocket_mask s) (websocket_start_of_frame s)
    (websocket_phase s) (websocket_continue_opcode s) (websocket_finn_opcode s)
    v (io_failing s) (closed s) (trace s).

Definition set_closed (v : bool) (s : Socket) : Socket :=
  mkSocket (websocket_message s) (websocket_payload s) (websocket_payload_size s)
    (websocket_need s) (websocket_mask s) (websocket_start_of_frame s)
    (websocket_phase s) (websocket_continue_opcode s) (websocket_finn_opcode s)
    (io_pending s) (io_failing s) v (trace s).

Definition set_trace (v : list Event) (s : Socket) : Socket :=
  mkSocket (websocket_message s) (websocket_payload s) (websocket_payload_size s)
    (websocket_need s) (websocket_mask s) (websocket_start_of_frame s)
    (websocket_phase s) (websocket_continue_opcode s) (websocket_finn_opcode s)
    (io_pending s) (io_failing s) (closed s) v.

Definition emit (e : Event) (s : Socket) : Socket := set_trace (trace s ++ [e]) s.

(** [io->write(data)]. *)
Definition io_write (data : QByteArray) (s : Socket) : Socket := emit (IoWrite data) s.

(** [sock->connectionClose()]. *)
Definition connectionClose (s : Socket) : Socket := emit ConnectionClose (set_closed true s).

(** [io->bytesAvailable()]. *)
Definition bytesAvailable (s : Socket) : Z := size (io_pending s).

(** [io->read(m_postBuffer, maxlen)]: [None] is the result [-1]; otherwise the
    bytes now at the start of the scratch buffer, at most [maxlen] of them. *)
Definition io_read (maxlen : Z) (s : Socket) : option (list Z * Socket) :=
  if io_failing s then None
  else Some (left (io_pending s) maxlen, set_io_pending (mid (io_pending s) maxlen) s).

(** The transport appends the bytes it received to the device. *)
Definition receive (data : QByteArray) (s : Socket) : Socket :=
  set_io_pending (io_pending s ++ data) s.

(** The members of [ProtocolWebSocket] and of its base [Protocol] the engine
    reads: the UTF-8 codec, the maximum message size in bytes (an [int] where
    [websocket_parse_size] receives it) and the size of the scratch buffer
    [m_postBuffer]. *)
Record ProtocolWebSocket := mkProtocolWebSocket {
  m_codec : QTextCodec;
  m_websockets_max_size : Z;
  m_postBufferSize : Z
}.

(** The constructor: [wsgi->websocketMaxSize()] is in KiB. *)
Definition ProtocolWebSocket_new (codec : QTextCodec) (websocketMaxSize postBufferSize : Z)
    : ProtocolWebSocket :=
  mkProtocolWebSocket codec (websocketMaxSize * 1024) postBufferSize.

(** The bit tests [x & m] used as conditions. *)
Definition nonzero (x : Z) : bool := negb (x =? 0).
Definition finn (s : Socket) : bool := nonzero (Z.land (websocket_finn_opcode s) 0x80).

(** The byte [mask[i]] of [reinterpret_cast<quint8 *>(&sock->websocket_mask)]. *)
Definition mask_byte (mask : Z) (i : Z) : Z := Z.land (Z.shiftr mask (8 * i)) 0xff.

(** The unmasking loop of [websocket_parse_payload]:
    [for (i = 0, maskIx = payload.size(); i < len; ++i, ++maskIx)
       buf[i] = buf[i] ^ mask[maskIx % 4]]. *)
Fixpoint unmask (mask : Z) (maskIx : Z) (len : nat) (buf : list Z) : list Z :=
  match len, buf with
  | S len', b :: buf' =>
      Z.lxor b (mask_byte mask (maskIx mod 4)) :: unmask mask (maskIx + 1) len' buf'
  | _, _ => buf
  end.

(** ** The decoder *)

Section Engine.

Variable self : ProtocolWebSocket.

Definition failed_state (state : ConverterState) : bool :=
  nonzero (invalidChars state) || nonzero (remainingChars state).

(** The end of a message in [send_text] and [send_binary]:
    [sock->websocket_message = QByteArray(); sock->websocket_payload = QByteArray()]. *)
Definition clear_buffers (sock : Socket) : Socket :=
  set_payload [] (set_message [] sock).

(** [ProtocolWebSocket::send_text]. *)
Definition send_text (sock : Socket) (singleFrame : bool) : bool * Socket :=
  let msg_size := size (websocket_message sock) in
  let sock := set_message (websocket_message sock ++ websocket_payload sock) sock in
  let payload :=
    if negb (websocket_start_of_frame sock =? msg_size)
    then mid (websocket_message sock) (websocket_start_of_frame sock)
    else websocket_payload sock in
  let (frame, state) := toUnicode (m_codec self) payload in
  let failed := failed_state state in
  if singleFrame && (failed || (isEmpty frame && nonzero (size payload))) then
    (false, connectionClose sock)
  else
    let sock :=
      if negb failed then
        let sock := set_start_of_frame (size (websocket_message sock)) sock in
        emit (WebSocketTextFrame frame (finn sock)) sock
      else sock in
    if finn sock then
      let sock := set_continue_opcode 0 sock in
      if singleFrame || QByteArray_eqb (websocket_payload sock) (websocket_message sock) then
        let sock := emit (WebSocketTextMessage frame) sock in
        (true, clear_buffers sock)
      else
        let (msg, stateMsg) := toUnicode (m_codec self) (websocket_message sock) in
        (* the source tests [state], the state of the frame's decoding, here *)
        let failed := failed_state state in
        if failed then
          (false, connectionClose sock)
        else
          let sock := emit (WebSocketTextMessage msg) sock in
          (true, clear_buffers sock)
    else
      (true, sock).

(** [ProtocolWebSocket::send_binary]. *)
Definition send_binary (sock : Socket) (singleFrame : bool) : Socket :=
  let sock := set_message (websocket_message sock ++ websocket_payload sock) sock in
  let frame := websocket_payload sock in
  let sock := emit (WebSocketBinaryFrame frame (finn sock)) sock in
  if finn sock then
    let sock := set_continue_opcode 0 sock in
    let sock :=
      if singleFrame || QByteArray_eqb (websocket_payload sock) (websocket_message sock) then
        emit (WebSocketBinaryMessage frame) sock
      else
        emit (WebSocketBinaryMessage (websocket_message sock)) sock in
    clear_buffers sock
  else
    sock.

(** [ProtocolWebSocket::send_pong]. *)
Definition send_pong (sock : Socket) (data : QByteArray) : Socket :=
  let sock := io_write (createWebsocketHeader OpCodePong (size data)) sock in
  io_write data sock.

(** [ProtocolWebSocket::send_closed]. *)
Definition send_closed (sock : Socket) : Socket :=
  let closeCode := CloseCodeMissingStatusCode in
  let reason : QString := [] in
  let state := mkConverterState 0 0 in
  let '(closeCode, reason, state) :=
    if 2 <=? size (websocket_payload sock) then
      let closeCode := ws_be16 (websocket_payload sock) in
      let (reason, state) := toUnicode (m_codec self) (mid (websocket_payload sock) 2) in
      (closeCode, reason, state)
    else (closeCode, reason, state) in
  let sock := emit (WebSocketClosed closeCode reason) sock in
  let (closeCode, reason) :=
    if failed_state state then
      (CloseCodeProtocolError, [])
    else if (closeCode <? 3000) || (4999 <? closeCode) then
      if (closeCode =? CloseCodeNormal) || (closeCode =? CloseCodeGoingAway)
         || (closeCode =? CloseCodeProtocolError)
         || (closeCode =? CloseCodeDatatypeNotSupported) then
        (closeCode, reason)
      else if closeCode =? CloseCodeMissingStatusCode then
        if isEmpty (websocket_payload sock) then (CloseCodeNormal, reason)
        else (CloseCodeProtocolError, reason)
      else if (closeCode =? CloseCodeWrongDatatype) || (closeCode =? CloseCodePolicyViolated)
         || (closeCode =? CloseCodeTooMuchData) || (closeCode =? CloseCodeMissingExtension)
         || (closeCode =? CloseCodeBadOperation) then
        (closeCode, reason)
      else
        (CloseCodeProtocolError, [])
    else
      (closeCode, reason) in
  let reply := createWebsocketCloseReply (m_codec self) reason closeCode in
  let sock := io_write reply sock in
  connectionClose sock.

(** [ProtocolWebSocket::websocket_parse_header]; [buf] is the scratch buffer. *)
Definition websocket_parse_header (sock : Socket) (buf : list Z) : bool * Socket :=
  let byte1 := quint8 (at_ buf 0) in
  let byte2 := quint8 (at_ buf 1) in
  let sock := set_finn_opcode byte1 sock in
  let sock := set_payload_size (Z.land byte2 0x7f) sock in
  let opcode := quint8 (Z.land byte1 0xf) in
  let websocket_has_mask := nonzero (Z.shiftr byte2 7) in
  if negb websocket_has_mask
     || (((opcode =? OpCodePing) || (opcode =? OpCodeClose))
         && (125 <? websocket_payload_size sock))
     || nonzero (Z.land byte1 0x70)
     || (((OpCodeReserved3 <=? opcode) && (opcode <=? OpCodeReserved7))
         || ((OpCodeReservedB <=? opcode) && (opcode <=? OpCodeReservedF)))
     || (negb (nonzero (Z.land byte1 0x80)) && negb (opcode =? OpCodeText)
         && negb (opcode =? OpCodeBinary) && negb (opcode =? OpCodeContinue))
     || (nonzero (websocket_continue_opcode sock)
         && ((opcode =? OpCodeText) || (opcode =? OpCodeBinary)))
  then
    let sock := io_write (createWebsocketCloseReply (m_codec self) [] 1002) sock in
    (false, connectionClose sock)
  else
    let sock :=
      if (opcode =? OpCodeText) || (opcode =? OpCodeBinary) then
        let sock := set_message [] sock in
        let sock := set_start_of_frame 0 sock in
        if negb (nonzero (Z.land byte1 0x80)) then set_continue_opcode opcode sock
        else sock
      else sock in
    let sock :=
      if websocket_payload_size sock =? 126 then
        set_phase WebSocketPhaseSize (set_need 2 sock)
      else if websocket_payload_size sock =? 127 then
        set_phase WebSocketPhaseSize (set_need 8 sock)
      else
        set_phase WebSocketPhaseMask (set_need 4 sock) in
    (true, sock).

(** [ProtocolWebSocket::websocket_parse_size]. *)
Definition websocket_parse_size (sock : Socket) (buf : list Z)
    (websockets_max_message_size : Z) : bool * Socket :=
  if websocket_payload_size sock =? 126 then
    let size := ws_be16 buf in
    if quint64 websockets_max_message_size <? size then
      (false, connectionClose sock)
    else
      let sock := set_payload_size size sock in
      (true, set_phase WebSocketPhaseMask (set_need 4 sock))
  else if websocket_payload_size sock =? 127 then
    let size := ws_be64 buf in
    if quint64 websockets_max_message_size <? size then
      (false, connectionClose sock)
    else
      let sock := set_payload_size size sock in
      (true, set_phase WebSocketPhaseMask (set_need 4 sock))
  else
    (false, connectionClose sock).

(** [ProtocolWebSocket::websocket_parse_payload]: [buf] is the scratch buffer,
    [len] the number of bytes read into it. *)
Definition websocket_parse_payload (sock : Socket) (buf : list Z) (len : Z) : bool * Socket :=
  let buf := unmask (websocket_mask sock) (size (websocket_payload sock)) (Z.to_nat len) buf in
  let sock := set_payload (websocket_payload sock ++ left buf len) sock in
  if size (websocket_payload sock) <? websocket_payload_size sock then
    (true, set_need (quint32 (websocket_need sock - len)) sock)
  else
    let sock := set_need 2 sock in
    let sock := set_phase WebSocketPhaseHeaders sock in
    let opcode := Z.land (websocket_finn_opcode sock) 0xf in
    if opcode =? OpCodeContinue then
      if websocket_continue_opcode sock =? OpCodeText then
        send_text sock false
      else if websocket_continue_opcode sock =? OpCodeBinary then
        (true, send_binary sock false)
      else
        (false, connectionClose sock)
    else if opcode =? OpCodeText then
      send_text sock (finn sock)
    else if opcode =? OpCodeBinary then
      (true, send_binary sock (finn sock))
    else if opcode =? OpCodeClose then
      (false, send_closed sock)
    else if opcode =? OpCodePing then
      (true, send_pong sock (left (websocket_payload sock) 125))
    else if opcode =? OpCodePong then
      (true, emit (WebSocketPong (websocket_payload sock)) sock)
    else
      (true, sock).

(** [ProtocolWebSocket::websocket_parse_mask]; the result of the call of
    [websocket_parse_payload] for an empty payload is dropped, as in the
    source. *)
Definition websocket_parse_mask (sock : Socket) (buf : list Z) : Socket :=
  let sock := set_mask (load_le 4 buf) sock in
  let sock := set_phase WebSocketPhasePayload sock in
  let sock := set_need (quint32 (websocket_payload_size sock)) sock in
  let sock := set_payload [] sock in
  if websocket_payload_size sock =? 0 then
    snd (websocket_parse_payload sock buf 0)
  else
    sock.

(** One turn of the [Q_FOREVER] loop of [readyRead]: either the function
    returns, or the loop goes on with the local [bytesAvailable] updated. *)
Inductive Turn :=
| Return (sock : Socket)
| Again (bytesAvailable : Z) (sock : Socket).

Definition readyRead_turn (bytesAvailable : Z) (sock : Socket) : Turn :=
  if (bytesAvailable =? 0) || (websocket_need sock =? 0)
     || ((bytesAvailable <? websocket_need sock)
         && negb (is_payload_phase (websocket_phase sock)))
  then Return sock
  else
    let maxlen := Z.min (websocket_need sock) (quint32 (m_postBufferSize self)) in
    match io_read maxlen sock with
    | None => Return (connectionClose sock)
    | Some (m_postBuffer, sock) =>
        let len := size m_postBuffer in
        let bytesAvailable := bytesAvailable - len in
        match websocket_phase sock with
        | WebSocketPhaseHeaders =>
            let (ok, sock) := websocket_parse_header sock m_postBuffer in
            if ok then Again bytesAvailable sock else Return sock
        | WebSocketPhaseSize =>
            let (ok, sock) :=
              websocket_parse_size sock m_postBuffer (m_websockets_max_size self) in
            if ok then Again bytesAvailable sock else Return sock
        | WebSocketPhaseMask =>
            Again bytesAvailable (websocket_parse_mask sock m_postBuffer)
        | WebSocketPhasePayload =>
            let (ok, sock) := websocket_parse_payload sock m_postBuffer len in
            if ok then Again bytesAvailable sock else Return sock
        end
    end.

(** The loop; [None] when [fuel] turns were not enough. *)
Fixpoint readyRead_loop (fuel : nat) (bytesAvailable : Z) (sock : Socket) : option Socket :=
  match fuel with
  | O => None
  | S fuel' =>
      match readyRead_turn bytesAvailable sock with
      | Return sock' => Some sock'
      | Again bytesAvailable' sock' => readyRead_loop fuel' bytesAvailable' sock'
      end
  end.

(** [ProtocolWebSocket::readyRead].  Every turn that goes on has read at least
    one byte when the scratch buffer is not empty, so one turn more than the
    bytes available is enough; [None] is a loop that does not end. *)
Definition readyRead (sock : Socket) : option Socket :=
  readyRead_loop (S (length (io_pending sock))) (bytesAvailable sock) sock.

(** The transport delivers [data] and signals the engine. *)
Definition on_data (sock : Socket) (data : QByteArray) : option Socket :=
  readyRead (receive data sock).

(** The same for successive reads. *)
Fixpoint on_reads (sock : Socket) (reads : list QByteArray) : option Socket :=
  match reads with
  | [] => Some sock
  | data :: reads' =>
      match on_data sock data with
      | Some sock' => on_reads sock' reads'
      | None => None
      end
  end.

End Engine.

(** ** A concrete setting, for running the engine *)

(** A UTF-8 codec in the manner of Qt's: an ill-formed sequence yields U+FFFD
    and counts in [invalidChars]; a sequence cut short by the end of the input
    yields nothing and its bytes are counted in [remainingChars]. *)
Module Utf8.

(** The decoder's position inside a multi-byte sequence. *)
Record Pending := mkPending {
  acc : Z;          (* the bits collected so far *)
  more : nat;       (* continuation bytes still expected *)
  seen : Z;         (* bytes of the sequence already consumed *)
  least : Z         (* the smallest code point this length may encode *)
}.

Definition start (b : Z) : option Pending :=
  if (0xC2 <=? b) && (b <=? 0xDF) then Some (mkPending (Z.land b 0x1F) 1 1 0x80)
  else if (0xE0 <=? b) && (b <=? 0xEF) then Some (mkPending (Z.land b 0x0F) 2 1 0x800)
  else if (0xF0 <=? b) && (b <=? 0xF4) then Some (mkPending (Z.land b 0x07) 3 1 0x10000)
  else None.

Definition scalar_ok (least c : Z) : bool :=
  (least <=? c) && (c <=? 0x10FFFF) && negb ((0xD800 <=? c) && (c <=? 0xDFFF)).

Definition replacement : Z := 0xFFFD.

(** [decode p bytes]: the characters, the invalid count and the bytes left
    pending at the end. *)
Fixpoint decode (p : option Pending) (bytes : list Z) : QString * Z * Z :=
  match bytes with
  | [] => ([], 0, match p with Some q => seen q | None => 0 end)
  | b :: rest =>
      let fresh :=
        if b <? 0x80 then
          let '(out, bad, left_) := decode None rest in (b :: out, bad, left_)
        else
          match start b with
          | Some q => decode (Some q) rest
          | None => let '(out, bad, left_) := decode None rest in
                    (replacement :: out, bad + 1, left_)
          end in
      match p with
      | None => fresh
      | Some q =>
          if (0x80 <=? b) && (b <=? 0xBF) then
            let c := Z.lor (Z.shiftl (acc q) 6) (Z.land b 0x3F) in
            match more q with
            | S (S n) => decode (Some (mkPending c (S n) (seen q + 1) (least q))) rest
            | _ =>
                let '(out, bad, left_) := decode None rest in
                if scalar_ok (least q) c then (c :: out, bad, left_)
                else (replacement :: out, bad + 1, left_)
            end
          else
            let '(out, bad, left_) := fresh in (replacement :: out, bad + 1, left_)
      end
  end.

Definition toUnicode (bytes : QByteArray) : QString * ConverterState :=
  let '(out, bad, left_) := decode None bytes in (out, mkConverterState bad left_).

Definition encode1 (c : Z) : list Z :=
  if c <? 0x80 then [c]
  else if c <? 0x800 then
    [Z.lor 0xC0 (Z.shiftr c 6); Z.lor 0x80 (Z.land c 0x3F)]
  else if c <? 0x10000 then
    [Z.lor 0xE0 (Z.shiftr c 12); Z.lor 0x80 (Z.land (Z.shiftr c 6) 0x3F);
     Z.lor 0x80 (Z.land c 0x3F)]
  else
    [Z.lor 0xF0 (Z.shiftr c 18); Z.lor 0x80 (Z.land (Z.shiftr c 12) 0x3F);
     Z.lor 0x80 (Z.land (Z.shiftr c 6) 0x3F); Z.lor 0x80 (Z.land c 0x3F)].

Definition toUtf8 (s : QString) : QByteArray := flat_map encode1 s.

Definition codec : QTextCodec := mkQTextCodec toUnicode toUtf8.

End Utf8.

(** A protocol object with the server's defaults: messages of at most 1024 KiB
    and a scratch buffer of 4096 bytes. *)
Definition default_protocol : ProtocolWebSocket :=
  ProtocolWebSocket_new Utf8.codec 1024 4096.

(** Modelled from the spec: the frame state when the handshake completes,
    which the HTTP protocol class sets: awaiting a header of 2 bytes, with
    empty buffers and no continuation open. *)
Definition upgraded_socket : Socket :=
  mkSocket [] [] 0 2 0 0 WebSocketPhaseHeaders 0 0 [] false false [].

(** A frame as a client sends it: the encoder's header with the FIN bit as
    given and the mask bit set, the 4 bytes of the key, and the payload XORed
    with the key. *)
Definition client_header (fin : bool) (opcode len : Z) : QByteArray :=
  match createWebsocketHeader opcode len with
  | byte1 :: byte2 :: ext => (if fin then byte1 else byte1 - 0x80) :: (byte2 + 0x80) :: ext
  | short => short
  end.

Definition client_mask (key payload : list Z) : list Z :=
  unmask (load_le 4 key) 0 (length payload) payload.

Definition client_frame (fin : bool) (opcode : Z) (key payload : list Z) : QByteArray :=
  client_header fin opcode (size payload) ++ key ++ client_mask key payload.

(** The characters of an ASCII text. *)
Definition H_ : Z := 104.
Definition E_ : Z := 101.
Definition L_ : Z := 108.
Definition O_ : Z := 111.


(** ** Vocabulary of the statements *)

(** The 256 bytes. *)
Definition all_bytes : list Z := map Z.of_nat (seq 0 256).

(** The big-endian value of a list of bytes. *)
Definition be_value (bytes : list Z) : Z := fold_left (fun v b => 256 * v + b) bytes 0.

(** The ways a 2-byte frame header can break the protocol, in the words of the
    specification: mask bit clear; a Ping or Close longer than 125; a reserved
    bit set; a reserved opcode; a fragment that is not Text, Binary or
    Continue; a new Text or Binary while a continuation is open. *)
Definition header_violation (byte1 byte2 continue_opcode : Z) : Prop :=
  let opcode := byte1 mod 16 in
  let length7 := byte2 mod 128 in
  Z.testbit byte2 7 = false
  \/ ((opcode = OpCodePing \/ opcode = OpCodeClose) /\ 125 < length7)
  \/ (Z.testbit byte1 4 = true \/ Z.testbit byte1 5 = true \/ Z.testbit byte1 6 = true)
  \/ (3 <= opcode <= 7 \/ 0xB <= opcode <= 0xF)
  \/ (Z.testbit byte1 7 = false
      /\ opcode <> OpCodeText /\ opcode <> OpCodeBinary /\ opcode <> OpCodeContinue)
  \/ (continue_opcode <> 0 /\ (opcode = OpCodeText \/ opcode = OpCodeBinary)).

(** The test of [websocket_parse_header], as a function of the two bytes and
    of the continuation opcode. *)
Definition header_refused (byte1 byte2 continue_opcode : Z) : bool :=
  let opcode := quint8 (Z.land byte1 0xf) in
  negb (nonzero (Z.shiftr byte2 7))
  || (((opcode =? OpCodePing) || (opcode =? OpCodeClose)) && (125 <? Z.land byte2 0x7f))
  || nonzero (Z.land byte1 0x70)
  || (((OpCodeReserved3 <=? opcode) && (opcode <=? OpCodeReserved7))
      || ((OpCodeReservedB <=? opcode) && (opcode <=? OpCodeReservedF)))
  || (negb (nonzero (Z.land byte1 0x80)) && negb (opcode =? OpCodeText)
      && negb (opcode =? OpCodeBinary) && negb (opcode =? OpCodeContinue))
  || (nonzero continue_opcode && ((opcode =? OpCodeText) || (opcode =? OpCodeBinary))).

(** What [send_closed] reads from the payload of a Close frame: the close
    code, the reason and the state of the reason's decoding. *)
Definition close_payload (codec : QTextCodec) (payload : QByteArray)
    : Z * QString * ConverterState :=
  if 2 <=? size payload then
    let (reason, state) := toUnicode codec (mid payload 2) in
    (ws_be16 payload, reason, state)
  else (CloseCodeMissingStatusCode, [], mkConverterState 0 0).

(** The close codes a peer may send, outside 3000-4999, that are answered in
    kind. *)
Definition legal_close_codes : list Z :=
  [CloseCodeNormal; CloseCodeGoingAway; CloseCodeProtocolError;
   CloseCodeDatatypeNotSupported; CloseCodeWrongDatatype; CloseCodePolicyViolated;
   CloseCodeTooMuchData; CloseCodeMissingExtension; CloseCodeBadOperation].

(** The three things [send_closed] does, in order: the session is notified of
    [notified], the close frame for [replied] is written, the connection is
    closed. *)
Definition close_handshake (self : ProtocolWebSocket) (sock sock' : Socket)
    (notified replied : Z * QString) : Prop :=
  sock' = connectionClose
            (io_write (createWebsocketCloseReply (m_codec self) (snd replied) (fst replied))
               (emit (WebSocketClosed (fst notified) (snd notified)) sock)).

(** The end of a frame in [websocket_parse_payload]: what the function does
    once the payload is complete. *)
Definition frame_complete (self : ProtocolWebSocket) (sock : Socket) : bool * Socket :=
  let sock := set_need 2 sock in
  let sock := set_phase WebSocketPhaseHeaders sock in
  let opcode := Z.land (websocket_finn_opcode sock) 0xf in
  if opcode =? OpCodeContinue then
    if websocket_continue_opcode sock =? OpCodeText then
      send_text self sock false
    else if websocket_continue_opcode sock =? OpCodeBinary then
      (true, send_binary sock false)
    else
      (false, connectionClose sock)
  else if opcode =? OpCodeText then
    send_text self sock (finn sock)
  else if opcode =? OpCodeBinary then
    (true, send_binary sock (finn sock))
  else if opcode =? OpCodeClose then
    (false, send_closed self sock)
  else if opcode =? OpCodePing then
    (true, send_pong sock (left (websocket_payload sock) 125))
  else if opcode =? OpCodePong then
    (true, emit (WebSocketPong (websocket_payload sock)) sock)
  else
    (true, sock).

(** The unmasking loop over a whole buffer. *)
Definition unmask_all (mask maskIx : Z) (buf : list Z) : list Z :=
  unmask mask maskIx (length buf) buf.

(** The payload phase having taken the first [k] bytes pending, short of the
    end of the payload. *)
Definition absorb (k : Z) (sock : Socket) : Socket :=
  set_need (quint32 (websocket_need sock - k))
    (set_payload
       (websocket_payload sock
        ++ unmask_all (websocket_mask sock) (size (websocket_payload sock))
             (left (io_pending sock) k))
       (set_io_pending (mid (io_pending sock) k) sock)).

(** The frame states the decoder can be in: the bytes needed are those of the
    phase (2 for a header, 2 or 8 for an extended length, 4 for a mask); in
    the payload phase they are what the payload still lacks, and at least one;
    in the mask phase the declared length fits the 32 bits of
    [websocket_need].  The device is one whose reads succeed. *)
Definition sock_inv (sock : Socket) : Prop :=
  io_failing sock = false
  /\ match websocket_phase sock with
     | WebSocketPhaseHeaders => websocket_need sock = 2
     | WebSocketPhaseSize => websocket_need sock = 2 \/ websocket_need sock = 8
     | WebSocketPhaseMask =>
         websocket_need sock = 4 /\ 0 <= websocket_payload_size sock < 2 ^ 32
     | WebSocketPhasePayload =>
         1 <= websocket_need sock
         /\ size (websocket_payload sock) + websocket_need sock = websocket_payload_size sock
         /\ websocket_payload_size sock < 2 ^ 32
     end.

(** The test at the head of the loop of [readyRead]. *)
Definition need_more_data (bytesAvailable : Z) (sock : Socket) : bool :=
  (bytesAvailable =? 0) || (websocket_need sock =? 0)
  || ((bytesAvailable <? websocket_need sock)
      && negb (is_payload_phase (websocket_phase sock))).

(** The transport's delivery, seen from inside the loop. *)
Definition receive_turn (data : QByteArray) (t : Turn) : Turn :=
  match t with
  | Return sock => Return (receive data sock)
  | Again bytesAvailable sock => Again (bytesAvailable + size data) (receive data sock)
  end.

(** The protocol objects considered: the scratch buffer holds the longest
    field of a frame, and the maximum message size is a non-negative [int]. *)
Definition protocol_ok (self : ProtocolWebSocket) : Prop :=
  8 <= quint32 (m_postBufferSize self) /\ 0 <= m_websockets_max_size self < 2 ^ 31.

(** The loop of [readyRead] ends in [result]. *)
Definition runs (self : ProtocolWebSocket) (bytesAvailable : Z) (sock result : Socket) : Prop :=
  exists fuel, readyRead_loop self fuel bytesAvailable sock = Some result.

(** The 7-bit length field and the extended length the encoder writes for a
    payload length. *)
Definition length_field (len : Z) : Z :=
  if len <? 126 then len else if len <=? 65535 then 126 else 127.

Definition extended_length (len : Z) : list Z :=
  if len <? 126 then []
  else if len <=? 65535 then [(len / 2 ^ 8) mod 256; len mod 256]
  else [(len / 2 ^ 56) mod 256; (len / 2 ^ 48) mod 256; (len / 2 ^ 40) mod 256;
        (len / 2 ^ 32) mod 256; (len / 2 ^ 24) mod 256; (len / 2 ^ 16) mod 256;
        (len / 2 ^ 8) mod 256; len mod 256].

(** What an accepted header with first byte [byte1] does to the socket, apart
    from the length, the phase and the bytes needed. *)
Definition begin_frame (byte1 : Z) (sock : Socket) : Socket :=
  let sock := set_finn_opcode byte1 sock in
  let opcode := quint8 (Z.land byte1 0xf) in
  if (opcode =? OpCodeText) || (opcode =? OpCodeBinary) then
    let sock := set_start_of_frame 0 (set_message [] sock) in
    if negb (nonzero (Z.land byte1 0x80)) then set_continue_opcode opcode sock else sock
  else sock.

(** The payload lengths at the thresholds of the length encoding. *)
Definition boundary_lengths : list Z :=
  [0; 1; 125; 126; 127; 65535; 65536; 2 ^ 32; 2 ^ 33].

(** The declared payload length after the decoder has run over [bytes] on a
    fresh connection. *)
Definition decoded_length (self : ProtocolWebSocket) (bytes : QByteArray) : option Z :=
  match readyRead self (receive bytes upgraded_socket) with
  | Some sock => Some (websocket_payload_size sock)
  | None => None
  end.

(** The bytes of a Text message "hello" sent in two fragments, "hel" and "lo",
    and the same bytes cut inside the first header, inside the first mask,
    inside the first payload and inside the second mask. *)
Definition hello_bytes : QByteArray :=
  client_frame false OpCodeText [1; 2; 3; 4] [H_; E_; L_]
  ++ client_frame true OpCodeContinue [9; 8; 7; 6] [L_; O_].

Definition hello_reads : list QByteArray :=
  [left hello_bytes 1; left (mid hello_bytes 1) 3; left (mid hello_bytes 4) 3;
   left (mid hello_bytes 7) 6; mid hello_bytes 13].

(** The socket when the payload of a client frame is complete: the effects of
    the header, the declared length, the mask and the unmasked payload, with
    [rest] still pending on the device. *)
Definition frame_received (byte1 : Z) (key payload rest : list Z) (sock : Socket) : Socket :=
  set_payload payload
    (set_mask (load_le 4 key)
       (set_payload_size (size payload) (set_io_pending rest (begin_frame byte1 sock)))).

(** ** The engine on concrete inputs *)

Example ws_be16_ex : ws_be16 [0x03; 0xE8] = 1000.
Proof. reflexivity. Qed.

Example ws_be64_ex : ws_be64 [0; 0; 0; 1; 0; 0; 0; 0] = 2 ^ 32.
Proof. reflexivity. Qed.

Example header_ex : createWebsocketHeader OpCodeText 65536 = [0x81; 127; 0; 0; 0; 0; 0; 1; 0; 0].
Proof. reflexivity. Qed.

Example utf8_ex1 : Utf8.toUnicode [0xE2; 0x82; 0xAC; 0x41] = ([0x20AC; 0x41], mkConverterState 0 0).
Proof. reflexivity. Qed.

Example utf8_ex2 : Utf8.toUnicode [0xFF] = ([0xFFFD], mkConverterState 1 0).
Proof. reflexivity. Qed.

Example utf8_ex3 : Utf8.toUnicode [0x41; 0xE2; 0x82] = ([0x41], mkConverterState 0 2).
Proof. reflexivity. Qed.

Example utf8_ex4 : Utf8.toUtf8 [0x20AC; 0x41] = [0xE2; 0x82; 0xAC; 0x41].
Proof. reflexivity. Qed.

Example hello_ex :
  on_reads default_protocol upgraded_socket
    [client_frame false OpCodeText [1;2;3;4] [H_; E_; L_];
     client_frame true OpCodeContinue [9;8;7;6] [L_; O_]]
  = Some (mkSocket [] [] 2 2 (load_le 4 [9;8;7;6]) 5 WebSocketPhaseHeaders 0 0x80 [] false false
      [WebSocketTextFrame [H_; E_; L_] false; WebSocketTextFrame [L_; O_] true;
       WebSocketTextMessage [H_; E_; L_; L_; O_]]).
Proof. vm_compute. reflexivity. Qed.

(** * Properties *)

(** ** Bytes and words *)

Lemma land_0xff (x : Z) : Z.land x 0xff = x mod 256.
Proof. change 0xff with (Z.ones 8). now rewrite Z.land_ones. Qed.

Lemma land_0x7f (x : Z) : Z.land x 0x7f = x mod 128.
Proof. change 0x7f with (Z.ones 7). now rewrite Z.land_ones. Qed.

Lemma land_0xf (x : Z) : Z.land x 0xf = x mod 16.
Proof. change 0xf with (Z.ones 4). now rewrite Z.land_ones. Qed.

Lemma shiftr_div (x k : Z) : 0 <= k -> Z.shiftr x k = x / 2 ^ k.
Proof. apply Z.shiftr_div_pow2. Qed.

Lemma quint8_byte (b : Z) : is_byte b -> quint8 b = b.
Proof. unfold is_byte, quint8. intros H. apply Z.mod_small. lia. Qed.

Lemma quint8_is_byte (x : Z) : is_byte (quint8 x).
Proof. unfold is_byte, quint8. apply Z.mod_pos_bound. lia. Qed.

(** Every byte is one of the 256 values of [all_bytes]: a property checked on
    the list holds of every byte. *)
Lemma all_bytes_complete (b : Z) : is_byte b -> In b all_bytes.
Proof.
  intros H. unfold all_bytes. apply in_map_iff. exists (Z.to_nat b). split.
  - apply Z2Nat.id. unfold is_byte in H. lia.
  - apply in_seq. unfold is_byte in H. lia.
Qed.

Lemma forall_bytes (P : Z -> bool) :
  forallb P all_bytes = true -> forall b, is_byte b -> P b = true.
Proof.
  intros H b Hb. rewrite forallb_forall in H. apply H. now apply all_bytes_complete.
Qed.

(** The little-endian load of a word from its bytes. *)
Lemma load_le_cons (n : nat) (b : Z) (buf : list Z) :
  load_le (S n) (b :: buf) = quint8 b + 256 * load_le n buf.
Proof. reflexivity. Qed.

Lemma load_le_bounds (n : nat) (buf : list Z) : 0 <= load_le n buf < 2 ^ (8 * Z.of_nat n).
Proof.
  revert buf. induction n as [|n IH]; intros buf.
  - simpl. lia.
  - cbn [load_le]. specialize (IH (tl buf)).
    pose proof (quint8_is_byte (at_ buf 0)) as Hb. unfold is_byte in Hb.
    replace (8 * Z.of_nat (S n)) with (8 + 8 * Z.of_nat n) by lia.
    rewrite Z.pow_add_r by lia. change (2 ^ 8) with 256. nia.
Qed.

Lemma nth_tl (k : nat) (buf : list Z) : nth k (tl buf) 0 = nth (S k) buf 0.
Proof. destruct buf; [now destruct k|reflexivity]. Qed.

(** The byte [k] of a loaded word is the byte [k] of the buffer. *)
Lemma load_le_byte (k n : nat) (buf : list Z) :
  (k < n)%nat -> (load_le n buf / 2 ^ (8 * Z.of_nat k)) mod 256 = quint8 (at_ buf k).
Proof.
  revert n buf. induction k as [|k IH]; intros n buf Hk.
  - destruct n as [|n]; [lia|]. cbn [load_le]. change (2 ^ (8 * Z.of_nat 0)) with 1.
    rewrite Z.div_1_r. pose proof (quint8_is_byte (at_ buf 0)) as Hb.
    unfold is_byte in Hb.
    replace (quint8 (at_ buf 0) + 2 ^ 8 * load_le n (tl buf))
      with (quint8 (at_ buf 0) + load_le n (tl buf) * 256) by (change (2 ^ 8) with 256; ring).
    rewrite Z.mod_add by lia. apply Z.mod_small. lia.
  - destruct n as [|n]; [lia|]. cbn [load_le].
    replace (8 * Z.of_nat (S k)) with (8 + 8 * Z.of_nat k) by lia.
    rewrite Z.pow_add_r by lia. rewrite <- Z.div_div by lia.
    pose proof (quint8_is_byte (at_ buf 0)) as Hb. unfold is_byte in Hb.
    replace (quint8 (at_ buf 0) + 2 ^ 8 * load_le n (tl buf))
      with (load_le n (tl buf) * 256 + quint8 (at_ buf 0)) by (change (2 ^ 8) with 256; ring).
    change (2 ^ 8) with 256. rewrite Z.div_add_l by lia.
    rewrite (Z.div_small (quint8 _)) by lia. rewrite Z.add_0_r.
    rewrite IH by lia. unfold at_. now rewrite nth_tl.
Qed.

Lemma quint8_idem (x : Z) : quint8 (quint8 x) = quint8 x.
Proof. apply quint8_byte, quint8_is_byte. Qed.

(** The code's [(src >> 8k) & 0xff], stored in a byte. *)
Lemma load_le_shift (k n : nat) (buf : list Z) (s : Z) :
  (k < n)%nat -> s = 8 * Z.of_nat k ->
  quint8 (Z.land (Z.shiftr (load_le n buf) s) 0xff) = quint8 (at_ buf k).
Proof.
  intros Hk ->. rewrite land_0xff, shiftr_div by lia.
  rewrite (load_le_byte k n) by assumption. apply quint8_idem.
Qed.

Lemma load_le_low (n : nat) (buf : list Z) :
  (0 < n)%nat -> quint8 (Z.land (load_le n buf) 0xff) = quint8 (at_ buf 0).
Proof.
  intros Hn. rewrite land_0xff. pose proof (load_le_byte 0 n buf Hn) as H.
  change (2 ^ (8 * Z.of_nat 0)) with 1 in H. rewrite Z.div_1_r in H.
  rewrite H. apply quint8_idem.
Qed.

(** [ws_be16] is the big-endian value of the first two bytes, whatever lies
    behind them in the buffer. *)
Lemma ws_be16_value (b0 b1 : Z) (stale : list Z) :
  is_byte b0 -> is_byte b1 -> ws_be16 (b0 :: b1 :: stale) = be_value [b0; b1].
Proof.
  intros H0 H1. unfold ws_be16.
  rewrite (load_le_shift 1 4) by (lia || reflexivity).
  rewrite (load_le_low 4) by lia.
  cbn [load_le at_ nth tl be_value fold_left].
  rewrite !quint8_idem, (quint8_byte b0), (quint8_byte b1) by assumption.
  change (2 ^ 8) with 256. ring.
Qed.

Lemma ws_be16_range (buf : list Z) : 0 <= ws_be16 buf < 65536.
Proof. unfold ws_be16. apply (load_le_bounds 2). Qed.

Lemma ws_be64_value (b0 b1 b2 b3 b4 b5 b6 b7 : Z) (stale : list Z) :
  is_byte b0 -> is_byte b1 -> is_byte b2 -> is_byte b3 ->
  is_byte b4 -> is_byte b5 -> is_byte b6 -> is_byte b7 ->
  ws_be64 (b0 :: b1 :: b2 :: b3 :: b4 :: b5 :: b6 :: b7 :: stale)
  = be_value [b0; b1; b2; b3; b4; b5; b6; b7].
Proof.
  intros H0 H1 H2 H3 H4 H5 H6 H7. unfold ws_be64.
  rewrite (load_le_shift 7 8), (load_le_shift 6 8), (load_le_shift 5 8),
    (load_le_shift 4 8), (load_le_shift 3 8), (load_le_shift 2 8),
    (load_le_shift 1 8) by (lia || reflexivity).
  rewrite (load_le_low 8) by lia.
  cbn [load_le at_ nth tl be_value fold_left].
  rewrite !quint8_idem, (quint8_byte b0), (quint8_byte b1), (quint8_byte b2),
    (quint8_byte b3), (quint8_byte b4), (quint8_byte b5), (quint8_byte b6),
    (quint8_byte b7) by assumption.
  change (2 ^ 8) with 256. ring.
Qed.

(** ** The frame encoder *)

Lemma be_value_snoc (l : list Z) (b : Z) : be_value (l ++ [b]) = 256 * be_value l + b.
Proof. unfold be_value. now rewrite fold_left_app. Qed.

(** The code's [(quint8) ((len >> s) & 0xff)]. *)
Lemma encoded_byte (len s : Z) :
  0 <= s -> quint8 (Z.land (Z.shiftr len s) 0xff) = (len / 2 ^ s) mod 256.
Proof.
  intros Hs. rewrite land_0xff, shiftr_div by assumption.
  unfold quint8. change (2 ^ 8) with 256. apply Z.mod_mod. lia.
Qed.

Lemma encoded_byte0 (len : Z) : quint8 (Z.land len 0xff) = len mod 256.
Proof.
  rewrite land_0xff. unfold quint8. change (2 ^ 8) with 256. apply Z.mod_mod. lia.
Qed.

Lemma mod256_is_byte (x : Z) : is_byte (x mod 256).
Proof. unfold is_byte. apply Z.mod_pos_bound. lia. Qed.

(** The three forms of the header. *)
Lemma createWebsocketHeader_7bit (opcode len : Z) :
  0 <= len < 126 -> createWebsocketHeader opcode len = [quint8 (0x80 + opcode); len].
Proof.
  intros H. unfold createWebsocketHeader.
  destruct (Z.ltb_spec len 126) as [_|]; [|exfalso; lia]. cbn [app].
  rewrite (quint8_byte len) by (unfold is_byte; lia). reflexivity.
Qed.

Lemma createWebsocketHeader_16bit (opcode len : Z) :
  126 <= len <= 65535 ->
  createWebsocketHeader opcode len
  = [quint8 (0x80 + opcode); 126; (len / 2 ^ 8) mod 256; len mod 256].
Proof.
  intros H. unfold createWebsocketHeader.
  destruct (Z.ltb_spec len 126); [exfalso; lia|].
  change (quint16 0xffff) with 65535.
  destruct (Z.leb_spec len 65535); [|exfalso; lia].
  rewrite encoded_byte by lia. rewrite encoded_byte0. reflexivity.
Qed.

Lemma createWebsocketHeader_64bit (opcode len : Z) :
  65535 < len ->
  createWebsocketHeader opcode len
  = [quint8 (0x80 + opcode); 127;
     (len / 2 ^ 56) mod 256; (len / 2 ^ 48) mod 256; (len / 2 ^ 40) mod 256;
     (len / 2 ^ 32) mod 256; (len / 2 ^ 24) mod 256; (len / 2 ^ 16) mod 256;
     (len / 2 ^ 8) mod 256; len mod 256].
Proof.
  intros H. unfold createWebsocketHeader.
  destruct (Z.ltb_spec len 126); [exfalso; lia|].
  change (quint16 0xffff) with 65535.
  destruct (Z.leb_spec len 65535); [exfalso; lia|].
  rewrite !encoded_byte by lia. rewrite encoded_byte0. reflexivity.
Qed.

(** The bytes of the extended lengths are the big-endian digits of the length. *)
Lemma be_value_2 (len : Z) :
  0 <= len < 2 ^ 16 -> be_value [(len / 2 ^ 8) mod 256; len mod 256] = len.
Proof.
  intros H. unfold be_value. cbn [fold_left]. change (2 ^ 8) with 256.
  change (2 ^ 16) with 65536 in H.
  rewrite (Z.mod_small (len / 256)) by (split; [apply Z.div_pos; lia | apply Z.div_lt_upper_bound; lia]).
  pose proof (Z.div_mod len 256). lia.
Qed.

Lemma be_value_8 (len : Z) :
  0 <= len < 2 ^ 64 ->
  be_value [(len / 2 ^ 56) mod 256; (len / 2 ^ 48) mod 256; (len / 2 ^ 40) mod 256;
            (len / 2 ^ 32) mod 256; (len / 2 ^ 24) mod 256; (len / 2 ^ 16) mod 256;
            (len / 2 ^ 8) mod 256; len mod 256] = len.
Proof.
  intros H. unfold be_value. cbn [fold_left].
  set (x1 := len / 256). set (x2 := x1 / 256). set (x3 := x2 / 256). set (x4 := x3 / 256).
  set (x5 := x4 / 256). set (x6 := x5 / 256). set (x7 := x6 / 256).
  replace (len / 2 ^ 8) with x1 by reflexivity.
  replace (len / 2 ^ 16) with x2
    by (unfold x2, x1; rewrite !Z.div_div by lia; reflexivity).
  replace (len / 2 ^ 24) with x3
    by (unfold x3, x2, x1; rewrite !Z.div_div by lia; reflexivity).
  replace (len / 2 ^ 32) with x4
    by (unfold x4, x3, x2, x1; rewrite !Z.div_div by lia; reflexivity).
  replace (len / 2 ^ 40) with x5
    by (unfold x5, x4, x3, x2, x1; rewrite !Z.div_div by lia; reflexivity).
  replace (len / 2 ^ 48) with x6
    by (unfold x6, x5, x4, x3, x2, x1; rewrite !Z.div_div by lia; reflexivity).
  replace (len / 2 ^ 56) with x7
    by (unfold x7, x6, x5, x4, x3, x2, x1; rewrite !Z.div_div by lia; reflexivity).
  pose proof (Z.div_mod len 256) as E0. fold x1 in E0.
  pose proof (Z.div_mod x1 256) as E1. fold x2 in E1.
  pose proof (Z.div_mod x2 256) as E2. fold x3 in E2.
  pose proof (Z.div_mod x3 256) as E3. fold x4 in E3.
  pose proof (Z.div_mod x4 256) as E4. fold x5 in E4.
  pose proof (Z.div_mod x5 256) as E5. fold x6 in E5.
  pose proof (Z.div_mod x6 256) as E6. fold x7 in E6.
  assert (Hx7 : 0 <= x7 < 256).
  { replace x7 with (len / 2 ^ 56)
      by (unfold x7, x6, x5, x4, x3, x2, x1; rewrite !Z.div_div by lia; reflexivity).
    split; [apply Z.div_pos; lia | apply Z.div_lt_upper_bound; lia]. }
  rewrite (Z.mod_small x7) by assumption.
  lia.
Qed.

(** ** C6: unmasking is an involution *)

Lemma lxor_twice (b m : Z) : Z.lxor (Z.lxor b m) m = b.
Proof. now rewrite Z.lxor_assoc, Z.lxor_nilpotent, Z.lxor_0_r. Qed.

Lemma unmask_twice (mask : Z) (len : nat) :
  forall (maskIx : Z) (buf : list Z),
    unmask mask maskIx len (unmask mask maskIx len buf) = buf.
Proof.
  induction len as [|len IH]; intros maskIx buf.
  - reflexivity.
  - destruct buf as [|b buf]; [reflexivity|].
    cbn [unmask]. now rewrite lxor_twice, IH.
Qed.

(** C6. For every payload [P] and every mask key [K], stored in
    [websocket_mask] as [websocket_parse_mask] does, the unmasking loop of
    [websocket_parse_payload] applied twice to [P], from any index into the
    key, gives back [P]. *)
Theorem unmask_involutive (K P : list Z) (maskIx : Z) :
  let mask := load_le 4 K in
  unmask mask maskIx (length P) (unmask mask maskIx (length P) P) = P.
Proof. intros mask. apply unmask_twice. Qed.

(** ** C8: the close reply *)

Lemma size_left_le (a : QByteArray) (n : Z) : 0 <= n -> 0 <= size (left a n) <= n.
Proof.
  intros Hn. unfold size, left. rewrite length_firstn. lia.
Qed.

(** The close frame: a 2-byte header, the close code, the reason. *)
Lemma createWebsocketCloseReply_frame (codec : QTextCodec) (msg : QString) (closeCode : Z) :
  let data := left (toUtf8 codec msg) 123 in
  createWebsocketCloseReply codec msg closeCode
  = [0x88; size data + 2] ++ [(closeCode / 2 ^ 8) mod 256; closeCode mod 256] ++ data.
Proof.
  intros data. unfold createWebsocketCloseReply. fold data.
  pose proof (size_left_le (toUtf8 codec msg) 123 ltac:(lia)) as Hd. fold data in Hd.
  rewrite createWebsocketHeader_7bit by lia.
  rewrite encoded_byte by lia. rewrite encoded_byte0.
  reflexivity.
Qed.

(** C8. For every close code (a [quint16]) and every reason, the reply is the
    close header followed by a body made of the 2 big-endian bytes of the
    code and the first 123 bytes, at most, of the reason's UTF-8 encoding (all
    of it when it is not longer): the body is never longer than 125 bytes, and
    its length is the payload length the header declares. *)
Theorem createWebsocketCloseReply_body (codec : QTextCodec) (msg : QString) (closeCode : Z) :
  0 <= closeCode < 65536 ->
  let utf8 := toUtf8 codec msg in
  let hi := closeCode / 256 in
  let lo := closeCode mod 256 in
  let body := [hi; lo] ++ firstn 123 utf8 in
  createWebsocketCloseReply codec msg closeCode = [0x88; Z.of_nat (length body)] ++ body
  /\ is_byte hi /\ is_byte lo /\ be_value [hi; lo] = closeCode
  /\ (length body <= 125)%nat
  /\ ((length utf8 <= 123)%nat -> body = [hi; lo] ++ utf8)
  /\ ((123 < length utf8)%nat -> length body = 125%nat).
Proof.
  intros Hc utf8 hi lo body.
  assert (Hhi : is_byte hi).
  { unfold is_byte, hi. split; [apply Z.div_pos; lia | apply Z.div_lt_upper_bound; lia]. }
  assert (Hlo : is_byte lo) by apply mod256_is_byte.
  repeat split; try (apply Hhi || apply Hlo).
  - rewrite createWebsocketCloseReply_frame. change (2 ^ 8) with 256.
    rewrite (Z.mod_small (closeCode / 256)) by apply Hhi.
    unfold body, left, size. fold utf8. fold hi lo.
    change (Z.to_nat 123) with 123%nat. cbn [app length]. do 2 f_equal. lia.
  - unfold be_value. cbn [fold_left]. unfold hi, lo. pose proof (Z.div_mod closeCode 256). lia.
  - unfold body. cbn [app length]. rewrite length_firstn. lia.
  - intros Hl. unfold body. now rewrite firstn_all2.
  - intros Hl. unfold body. cbn [app length]. rewrite length_firstn. lia.
Qed.

Lemma createWebsocketCloseReply_body_witness :
  createWebsocketCloseReply Utf8.codec [H_; E_; L_; L_; O_] 1000
  = [0x88; 7; 0x03; 0xE8; H_; E_; L_; L_; O_].
Proof.
  destruct (createWebsocketCloseReply_body Utf8.codec [H_; E_; L_; L_; O_] 1000 ltac:(lia))
    as [H _].
  exact H.
Defined.

(** ** C1: the frame header *)

(** The bit tests of the source, on bytes. *)
Lemma mask_bit_test (b : Z) :
  is_byte b -> nonzero (Z.shiftr b 7) = Z.testbit b 7.
Proof.
  intros Hb. apply Bool.eqb_prop.
  apply (forall_bytes (fun b => Bool.eqb (nonzero (Z.shiftr b 7)) (Z.testbit b 7))); [|assumption].
  vm_compute. reflexivity.
Qed.

Lemma fin_bit_test (b : Z) :
  is_byte b -> nonzero (Z.land b 0x80) = Z.testbit b 7.
Proof.
  intros Hb. apply Bool.eqb_prop.
  apply (forall_bytes (fun b => Bool.eqb (nonzero (Z.land b 0x80)) (Z.testbit b 7))); [|assumption].
  vm_compute. reflexivity.
Qed.

Lemma rsv_bits_test (b : Z) :
  is_byte b ->
  nonzero (Z.land b 0x70) = Z.testbit b 4 || Z.testbit b 5 || Z.testbit b 6.
Proof.
  intros Hb. apply Bool.eqb_prop.
  apply (forall_bytes (fun b => Bool.eqb (nonzero (Z.land b 0x70))
                                  (Z.testbit b 4 || Z.testbit b 5 || Z.testbit b 6)));
    [|assumption].
  vm_compute. reflexivity.
Qed.

Lemma opcode_of_byte (b : Z) : is_byte b -> quint8 (Z.land b 0xf) = b mod 16.
Proof.
  intros Hb. rewrite land_0xf. apply quint8_byte. unfold is_byte in *.
  pose proof (Z.mod_pos_bound b 16). lia.
Qed.


Lemma length7_of_byte (b : Z) : Z.land b 0x7f = b mod 128.
Proof. apply land_0x7f. Qed.

(** The test of the source holds exactly of the headers that break the
    protocol. *)
Lemma header_refused_iff (byte1 byte2 continue_opcode : Z) :
  is_byte byte1 -> is_byte byte2 ->
  header_refused byte1 byte2 continue_opcode = true
  <-> header_violation byte1 byte2 continue_opcode.
Proof.
  intros H1 H2. unfold header_refused, header_violation.
  rewrite (opcode_of_byte byte1 H1), (mask_bit_test byte2 H2), (fin_bit_test byte1 H1),
    (rsv_bits_test byte1 H1), length7_of_byte.
  unfold nonzero, OpCodePing, OpCodeClose, OpCodeText, OpCodeBinary, OpCodeContinue,
    OpCodeReserved3, OpCodeReserved7, OpCodeReservedB, OpCodeReservedF.
  set (opcode := byte1 mod 16). set (length7 := byte2 mod 128).
  repeat (progress rewrite ?orb_true_iff, ?andb_true_iff, ?negb_true_iff,
            ?Z.eqb_eq, ?Z.eqb_neq, ?Z.ltb_lt, ?Z.leb_le).
  tauto.
Qed.

(** The header decoder on two bytes, with its test named. *)
Lemma websocket_parse_header_eq (self : ProtocolWebSocket) (sock : Socket)
    (byte1 byte2 : Z) (stale : list Z) :
  is_byte byte1 -> is_byte byte2 ->
  websocket_parse_header self sock (byte1 :: byte2 :: stale)
  = let sock1 := set_payload_size (Z.land byte2 0x7f) (set_finn_opcode byte1 sock) in
    let opcode := quint8 (Z.land byte1 0xf) in
    if header_refused byte1 byte2 (websocket_continue_opcode sock) then
      (false, connectionClose
                (io_write (createWebsocketCloseReply (m_codec self) [] 1002) sock1))
    else
      let sock2 :=
        if (opcode =? OpCodeText) || (opcode =? OpCodeBinary) then
          let sock := set_start_of_frame 0 (set_message [] sock1) in
          if negb (nonzero (Z.land byte1 0x80)) then set_continue_opcode opcode sock
          else sock
        else sock1 in
      (true,
       if Z.land byte2 0x7f =? 126 then set_phase WebSocketPhaseSize (set_need 2 sock2)
       else if Z.land byte2 0x7f =? 127 then set_phase WebSocketPhaseSize (set_need 8 sock2)
       else set_phase WebSocketPhaseMask (set_need 4 sock2)).
Proof.
  intros H1 H2. unfold websocket_parse_header, header_refused.
  cbn [at_ nth]. rewrite (quint8_byte byte1 H1), (quint8_byte byte2 H2).
  cbn [websocket_payload_size websocket_continue_opcode set_payload_size set_finn_opcode].
  destruct ((quint8 (Z.land byte1 0xf) =? OpCodeText)
            || (quint8 (Z.land byte1 0xf) =? OpCodeBinary));
    destruct (nonzero (Z.land byte1 0x80)); reflexivity.
Qed.

(** The header decoder refuses exactly the headers that break the protocol. *)
Lemma websocket_parse_header_refuses_iff (self : ProtocolWebSocket) (sock : Socket)
    (byte1 byte2 : Z) (stale : list Z) :
  is_byte byte1 -> is_byte byte2 ->
  (fst (websocket_parse_header self sock (byte1 :: byte2 :: stale)) = false
   <-> header_violation byte1 byte2 (websocket_continue_opcode sock)).
Proof.
  intros H1 H2.
  pose proof (header_refused_iff byte1 byte2 (websocket_continue_opcode sock) H1 H2) as Hiff.
  rewrite websocket_parse_header_eq by assumption. cbv zeta.
  destruct (header_refused byte1 byte2 (websocket_continue_opcode sock)); cbn [fst].
  - split; [intros _; now apply Hiff | reflexivity].
  - split; [discriminate|]. intros V. apply Hiff in V. discriminate.
Qed.

(** C1. For every 2-byte header, [websocket_parse_header] refuses the frame
    exactly when the header breaks the protocol in one of the six ways of
    [header_violation].  A refused frame gets the close reply with code 1002
    written and the connection closed, with the phase and the number of bytes
    needed left as they were; an accepted one leaves the connection alone and
    moves on to the extended length (2 or 8 bytes) or to the mask (4 bytes). *)
Theorem websocket_parse_header_rejects_exactly (self : ProtocolWebSocket) (sock : Socket)
    (byte1 byte2 : Z) (stale : list Z) :
  is_byte byte1 -> is_byte byte2 ->
  let reply := createWebsocketCloseReply (m_codec self) [] 1002 in
  let length7 := byte2 mod 128 in
  let result := websocket_parse_header self sock (byte1 :: byte2 :: stale) in
  let sock' := snd result in
  (fst result = false <-> header_violation byte1 byte2 (websocket_continue_opcode sock))
  /\ (fst result = false ->
      trace sock' = trace sock ++ [IoWrite reply; ConnectionClose]
      /\ be_value (firstn 2 (skipn 2 reply)) = 1002
      /\ closed sock' = true
      /\ websocket_phase sock' = websocket_phase sock
      /\ websocket_need sock' = websocket_need sock)
  /\ (fst result = true ->
      trace sock' = trace sock
      /\ closed sock' = closed sock
      /\ websocket_finn_opcode sock' = byte1
      /\ websocket_payload_size sock' = length7
      /\ (websocket_phase sock', websocket_need sock')
         = if length7 =? 126 then (WebSocketPhaseSize, 2)
           else if length7 =? 127 then (WebSocketPhaseSize, 8)
           else (WebSocketPhaseMask, 4)).
Proof.
  intros H1 H2 reply length7 result sock'.
  pose proof (header_refused_iff byte1 byte2 (websocket_continue_opcode sock) H1 H2) as Hiff.
  unfold sock', result. rewrite websocket_parse_header_eq by assumption. cbv zeta.
  rewrite length7_of_byte. fold length7.
  destruct (header_refused byte1 byte2 (websocket_continue_opcode sock)) eqn:E.
  - cbn [fst snd]. split; [|split].
    + split; [intros _; now apply Hiff | reflexivity].
    + intros _. split; [|split; [|repeat split]].
      * cbn [connectionClose io_write emit trace set_trace set_closed].
        now rewrite <- app_assoc.
      * unfold reply. rewrite createWebsocketCloseReply_frame. reflexivity.
    + discriminate.
  - cbn [fst snd]. split; [|split].
    + split; [discriminate|]. intros V. apply Hiff in V. discriminate.
    + discriminate.
    + intros _.
      destruct ((quint8 (Z.land byte1 15) =? OpCodeText) || _); [destruct (negb _)|];
        destruct (length7 =? 126); try destruct (length7 =? 127); repeat split.
Qed.

Lemma websocket_parse_header_rejects_exactly_witness :
  fst (websocket_parse_header default_protocol upgraded_socket [0x89; 0xFE]) = false
  <-> header_violation 0x89 0xFE 0.
Proof.
  pose proof (websocket_parse_header_rejects_exactly default_protocol upgraded_socket
                0x89 0xFE [] ltac:(unfold is_byte; lia) ltac:(unfold is_byte; lia)) as H.
  exact (proj1 H).
Defined.

(** ** C4 and C10: the Close frame *)

Lemma trace_emit (e : Event) (s : Socket) : trace (emit e s) = trace s ++ [e].
Proof. reflexivity. Qed.

Lemma close_handshake_trace (self : ProtocolWebSocket) (sock sock' : Socket)
    (notified replied : Z * QString) :
  close_handshake self sock sock' notified replied ->
  trace sock' = trace sock ++
    [WebSocketClosed (fst notified) (snd notified);
     IoWrite (createWebsocketCloseReply (m_codec self) (snd replied) (fst replied));
     ConnectionClose]
  /\ closed sock' = true.
Proof.
  intros ->. split; [|reflexivity].
  cbn [connectionClose io_write emit trace set_trace set_closed].
  now rewrite <- !app_assoc.
Qed.

Lemma size_nil_iff (a : QByteArray) : isEmpty a = true <-> a = [].
Proof. destruct a; split; (reflexivity || discriminate). Qed.

Lemma In_legal_close_codes (c : Z) :
  In c legal_close_codes <->
  c = 1000 \/ c = 1001 \/ c = 1002 \/ c = 1003 \/ c = 1007 \/ c = 1008 \/ c = 1009
  \/ c = 1010 \/ c = 1011.
Proof.
  unfold legal_close_codes, CloseCodeNormal, CloseCodeGoingAway, CloseCodeProtocolError,
    CloseCodeDatatypeNotSupported, CloseCodeWrongDatatype, CloseCodePolicyViolated,
    CloseCodeTooMuchData, CloseCodeMissingExtension, CloseCodeBadOperation.
  cbn [In]. intuition lia.
Qed.

(** [send_closed] in terms of what it read from the payload. *)
Lemma send_closed_cases (self : ProtocolWebSocket) (sock : Socket)
    (closeCode : Z) (reason : QString) (state : ConverterState) :
  close_payload (m_codec self) (websocket_payload sock) = (closeCode, reason, state) ->
  (failed_state state = true ->
     close_handshake self sock (send_closed self sock)
       (closeCode, reason) (CloseCodeProtocolError, []))
  /\ (failed_state state = false -> 3000 <= closeCode <= 4999 ->
     close_handshake self sock (send_closed self sock) (closeCode, reason) (closeCode, reason))
  /\ (failed_state state = false -> In closeCode legal_close_codes ->
     close_handshake self sock (send_closed self sock) (closeCode, reason) (closeCode, reason))
  /\ (failed_state state = false -> closeCode = CloseCodeMissingStatusCode ->
     close_handshake self sock (send_closed self sock) (closeCode, reason)
       (if isEmpty (websocket_payload sock) then CloseCodeNormal else CloseCodeProtocolError,
        reason))
  /\ (failed_state state = false -> ~ 3000 <= closeCode <= 4999 ->
      ~ In closeCode legal_close_codes -> closeCode <> CloseCodeMissingStatusCode ->
     close_handshake self sock (send_closed self sock)
       (closeCode, reason) (CloseCodeProtocolError, [])).
Proof.
  intros Hp. unfold close_handshake, send_closed. unfold close_payload in Hp.
  cbn [emit set_trace websocket_payload].
  destruct (2 <=? size (websocket_payload sock)).
  - destruct (toUnicode (m_codec self) (mid (websocket_payload sock) 2)) as [r st].
    injection Hp as <- <- <-. cbn [fst snd].
    repeat split.
    + intros ->. reflexivity.
    + intros -> Hc.
      destruct (Z.ltb_spec (ws_be16 (websocket_payload sock)) 3000); [exfalso; lia|].
      destruct (Z.ltb_spec 4999 (ws_be16 (websocket_payload sock))); [exfalso; lia|].
      reflexivity.
    + intros -> Hc. apply In_legal_close_codes in Hc.
      destruct Hc as [-> | [-> | [-> | [-> | [-> | [-> | [-> | [-> | ->]]]]]]]]; reflexivity.
    + intros -> ->. destruct (isEmpty (websocket_payload sock)); reflexivity.
    + intros -> Hr Hl Hm. rewrite In_legal_close_codes in Hl.
      unfold CloseCodeMissingStatusCode in Hm.
      set (c := ws_be16 (websocket_payload sock)) in *.
      unfold CloseCodeNormal, CloseCodeGoingAway, CloseCodeProtocolError,
        CloseCodeDatatypeNotSupported, CloseCodeWrongDatatype, CloseCodePolicyViolated,
        CloseCodeTooMuchData, CloseCodeMissingExtension, CloseCodeBadOperation,
        CloseCodeMissingStatusCode.
      destruct (Z.ltb_spec c 3000), (Z.ltb_spec 4999 c); cbn [orb]; try (exfalso; lia);
        repeat match goal with
               | |- context [?x =? ?y] => destruct (Z.eqb_spec x y); [exfalso; lia|]
               end; reflexivity.
  - injection Hp as <- <- <-. cbn [fst snd].
    repeat split; try reflexivity; try discriminate.
    + intros _ Hc. unfold CloseCodeMissingStatusCode in Hc. exfalso; lia.
    + intros _ Hc. apply In_legal_close_codes in Hc.
      unfold CloseCodeMissingStatusCode in Hc. exfalso; lia.
    + intros _ _. destruct (isEmpty (websocket_payload sock)); reflexivity.
    + intros _ _ _ Hm. now elim Hm.
Qed.

Lemma failed_state_false_iff (state : ConverterState) :
  failed_state state = false <-> invalidChars state = 0 /\ remainingChars state = 0.
Proof.
  unfold failed_state, nonzero.
  rewrite orb_false_iff, !negb_false_iff, !Z.eqb_eq. tauto.
Qed.

Lemma failed_state_true_iff (state : ConverterState) :
  failed_state state = true <-> ~ (invalidChars state = 0 /\ remainingChars state = 0).
Proof.
  rewrite <- failed_state_false_iff. destruct (failed_state state); split; congruence.
Qed.

(** Whatever the payload, [send_closed] notifies of what it read and replies
    with some code and reason. *)
Lemma send_closed_handshake (self : ProtocolWebSocket) (sock : Socket)
    (closeCode : Z) (reason : QString) (state : ConverterState) :
  close_payload (m_codec self) (websocket_payload sock) = (closeCode, reason, state) ->
  exists replied,
    close_handshake self sock (send_closed self sock) (closeCode, reason) replied.
Proof.
  intros Hp.
  destruct (send_closed_cases self sock closeCode reason state Hp)
    as (Hfail & Hrange & Hlegal & Hmissing & Hother).
  destruct (failed_state state) eqn:Ef; [eexists; now apply Hfail|].
  destruct (Z_le_dec 3000 closeCode) as [Hlo|Hlo];
    [destruct (Z_le_dec closeCode 4999) as [Hhi|Hhi]|];
    try (eexists; apply Hrange; [reflexivity | lia]).
  - destruct (In_dec Z.eq_dec closeCode legal_close_codes) as [Hl|Hl];
      [eexists; now apply Hlegal|].
    destruct (Z.eq_dec closeCode CloseCodeMissingStatusCode) as [Hm|Hm];
      [eexists; now apply Hmissing|].
    eexists. apply Hother; [reflexivity | lia | assumption | assumption].
  - destruct (In_dec Z.eq_dec closeCode legal_close_codes) as [Hl|Hl];
      [eexists; now apply Hlegal|].
    destruct (Z.eq_dec closeCode CloseCodeMissingStatusCode) as [Hm|Hm];
      [eexists; now apply Hmissing|].
    eexists. apply Hother; [reflexivity | lia | assumption | assumption].
Qed.

Lemma close_payload_bytes (codec : QTextCodec) (b0 b1 : Z) (rest : list Z)
    (reason : QString) (state : ConverterState) :
  is_byte b0 -> is_byte b1 -> toUnicode codec rest = (reason, state) ->
  close_payload codec (b0 :: b1 :: rest) = (be_value [b0; b1], reason, state).
Proof.
  intros H0 H1 Hd. unfold close_payload.
  destruct (Z.leb_spec 2 (size (b0 :: b1 :: rest))) as [_|Hs].
  - change (mid (b0 :: b1 :: rest) 2) with rest. rewrite Hd.
    now rewrite ws_be16_value.
  - exfalso. unfold size in Hs. cbn [length] in Hs. lia.
Qed.

(** An empty Close payload: the placeholder is notified, normal closure is
    replied. *)
Lemma send_closed_empty (self : ProtocolWebSocket) (sock : Socket) :
  websocket_payload sock = [] ->
  close_handshake self sock (send_closed self sock)
    (CloseCodeMissingStatusCode, []) (CloseCodeNormal, []).
Proof.
  intros Hp.
  assert (Hc : close_payload (m_codec self) (websocket_payload sock)
               = (CloseCodeMissingStatusCode, [], mkConverterState 0 0))
    by now rewrite Hp.
  destruct (send_closed_cases self sock _ _ _ Hc) as (_ & _ & _ & Hmissing & _).
  rewrite Hp in Hmissing. now apply Hmissing.
Qed.

(** C4. The code and reason of the close reply, by the payload of the Close
    frame: an empty payload is answered with normal closure and no reason; a
    payload of one byte with a protocol error; a payload that starts with a
    close code (2 bytes, big-endian) followed by a reason is answered, in this
    order of precedence, with a protocol error and no reason when the reason
    is not valid UTF-8, with a protocol error when the code is the "missing
    status code" placeholder, with the same code and reason when the code is
    in 3000-4999 or is one of the legal codes, and with a protocol error and
    no reason for any other code. *)
Theorem send_closed_reply_code (self : ProtocolWebSocket) (sock : Socket) :
  let codec := m_codec self in
  let payload := websocket_payload sock in
  let done := close_handshake self sock (send_closed self sock) in
  (payload = [] -> done (CloseCodeMissingStatusCode, []) (CloseCodeNormal, []))
  /\ (forall b, payload = [b] ->
        done (CloseCodeMissingStatusCode, []) (CloseCodeProtocolError, []))
  /\ (forall b0 b1 rest reason state,
        payload = b0 :: b1 :: rest -> is_byte b0 -> is_byte b1 ->
        toUnicode codec rest = (reason, state) ->
        let closeCode := be_value [b0; b1] in
        let valid := invalidChars state = 0 /\ remainingChars state = 0 in
        (~ valid -> done (closeCode, reason) (CloseCodeProtocolError, []))
        /\ (closeCode = CloseCodeMissingStatusCode ->
            exists reason', done (closeCode, reason) (CloseCodeProtocolError, reason'))
        /\ (valid -> 3000 <= closeCode <= 4999 -> done (closeCode, reason) (closeCode, reason))
        /\ (valid -> In closeCode legal_close_codes ->
            done (closeCode, reason) (closeCode, reason))
        /\ (valid -> ~ 3000 <= closeCode <= 4999 -> ~ In closeCode legal_close_codes ->
            closeCode <> CloseCodeMissingStatusCode ->
            done (closeCode, reason) (CloseCodeProtocolError, []))).
Proof.
  intros codec payload done. unfold done, payload. split; [|split].
  - intros Hp.
    assert (Hc : close_payload (m_codec self) (websocket_payload sock)
                 = (CloseCodeMissingStatusCode, [], mkConverterState 0 0))
      by now rewrite Hp.
    destruct (send_closed_cases self sock _ _ _ Hc) as (_ & _ & _ & Hmissing & _).
    rewrite Hp in Hmissing. now apply Hmissing.
  - intros b Hp.
    assert (Hc : close_payload (m_codec self) (websocket_payload sock)
                 = (CloseCodeMissingStatusCode, [], mkConverterState 0 0))
      by now rewrite Hp.
    destruct (send_closed_cases self sock _ _ _ Hc) as (_ & _ & _ & Hmissing & _).
    rewrite Hp in Hmissing. now apply Hmissing.
  - intros b0 b1 rest reason state Hp H0 H1 Hd.
    set (closeCode := be_value [b0; b1]).
    assert (Hc : close_payload (m_codec self) (websocket_payload sock)
                 = (closeCode, reason, state))
      by (rewrite Hp; now apply close_payload_bytes).
    destruct (send_closed_cases self sock _ _ _ Hc)
      as (Hfail & Hrange & Hlegal & Hmissing & Hother).
    rewrite Hp in Hmissing. cbn [isEmpty] in Hmissing.
    rewrite <- failed_state_false_iff.
    repeat split.
    + intros Hv. apply Hfail. destruct (failed_state state); congruence.
    + intros Hm. destruct (failed_state state) eqn:Ef.
      * exists []. now apply Hfail.
      * exists reason. now apply Hmissing.
    + assumption.
    + assumption.
    + assumption.
Qed.

Lemma send_closed_reply_code_witness :
  let sock := set_payload [0x03; 0xE8; H_; E_; L_; L_; O_] upgraded_socket in
  trace (send_closed default_protocol sock)
  = [WebSocketClosed 1000 [H_; E_; L_; L_; O_];
     IoWrite [0x88; 7; 0x03; 0xE8; H_; E_; L_; L_; O_]; ConnectionClose].
Proof.
  intros sock.
  destruct (send_closed_reply_code default_protocol sock) as (_ & _ & H).
  destruct (H 0x03 0xE8 [H_; E_; L_; L_; O_] [H_; E_; L_; L_; O_] (mkConverterState 0 0)
              eq_refl ltac:(unfold is_byte; lia) ltac:(unfold is_byte; lia) eq_refl)
    as (_ & _ & _ & Hlegal & _).
  rewrite (Hlegal (conj eq_refl eq_refl) (or_introl eq_refl)).
  reflexivity.
Defined.

(** C10. When the payload of a Close frame is complete, the session is told
    once that the connection is closed, then the close reply is written, then
    the connection is closed, and nothing else happens; the notification
    carries the code and the reason as read from the payload (the "missing
    status code" placeholder and no reason when the payload is shorter than 2
    bytes).  For an empty payload the notification carries the placeholder
    and the reply the normal-closure code. *)
Theorem close_frame_notifies_once (self : ProtocolWebSocket) (sock : Socket)
    (buf : list Z) (len : Z) :
  let codec := m_codec self in
  let unmasked :=
    unmask (websocket_mask sock) (size (websocket_payload sock)) (Z.to_nat len) buf in
  let payload := websocket_payload sock ++ left unmasked len in
  let result := websocket_parse_payload self sock buf len in
  Z.land (websocket_finn_opcode sock) 0xf = OpCodeClose ->
  websocket_payload_size sock <= size payload ->
  exists closeCode reason reply,
    fst result = false
    /\ trace (snd result)
       = trace sock ++ [WebSocketClosed closeCode reason; IoWrite reply; ConnectionClose]
    /\ closed (snd result) = true
    /\ (2 <= size payload ->
        closeCode = ws_be16 payload /\ reason = fst (toUnicode codec (mid payload 2)))
    /\ (size payload < 2 -> closeCode = CloseCodeMissingStatusCode /\ reason = [])
    /\ (payload = [] ->
        closeCode = CloseCodeMissingStatusCode
        /\ reply = createWebsocketCloseReply codec [] CloseCodeNormal).
Proof.
  intros codec unmasked payload result Hop Hsz.
  set (sock1 := set_phase WebSocketPhaseHeaders (set_need 2 (set_payload payload sock))).
  assert (Hres : result = (false, send_closed self sock1)).
  { unfold result, websocket_parse_payload. fold unmasked. fold payload.
    cbn [websocket_payload websocket_payload_size set_payload].
    destruct (Z.ltb_spec (size payload) (websocket_payload_size sock)); [exfalso; lia|].
    cbn [websocket_finn_opcode set_phase set_need set_payload]. rewrite Hop.
    reflexivity. }
  destruct (close_payload codec payload) as [[closeCode reason] state] eqn:Hp.
  destruct (send_closed_handshake self sock1 closeCode reason state Hp) as [replied Hh].
  exists closeCode, reason, (createWebsocketCloseReply codec (snd replied) (fst replied)).
  rewrite Hres. cbn [fst snd].
  destruct (close_handshake_trace _ _ _ _ _ Hh) as [Ht Hc].
  split; [reflexivity|]. split; [exact Ht|]. split; [exact Hc|].
  unfold close_payload in Hp. split; [|split].
  - intros H2. destruct (Z.leb_spec 2 (size payload)); [|exfalso; lia].
    destruct (toUnicode codec (mid payload 2)) as [r st]. now injection Hp as <- <- _.
  - intros H2. destruct (Z.leb_spec 2 (size payload)); [exfalso; lia|].
    now injection Hp as <- <- _.
  - intros Hnil. rewrite Hnil in Hp. cbn in Hp. injection Hp as <- <- _.
    split; [reflexivity|].
    pose proof (send_closed_empty self sock1 Hnil) as Hempty.
    unfold close_handshake in Hempty, Hh.
    rewrite Hempty in Hh.
    assert (Ht' := f_equal trace Hh).
    cbn [connectionClose io_write emit trace set_trace set_closed fst snd] in Ht'.
    apply app_inj_tail in Ht'. destruct Ht' as [Ht' _].
    apply app_inj_tail in Ht'. destruct Ht' as [_ Ht'].
    injection Ht' as Ht'. symmetry. exact Ht'.
Qed.

Lemma close_frame_notifies_once_witness :
  let sock := set_finn_opcode 0x88 (set_phase WebSocketPhasePayload upgraded_socket) in
  exists closeCode reason reply,
    fst (websocket_parse_payload default_protocol sock [] 0) = false
    /\ trace (snd (websocket_parse_payload default_protocol sock [] 0))
       = [WebSocketClosed closeCode reason; IoWrite reply; ConnectionClose]
    /\ closeCode = 1005 /\ reply = [0x88; 2; 0x03; 0xE8].
Proof.
  intros sock.
  destruct (close_frame_notifies_once default_protocol sock [] 0 eq_refl ltac:(cbn; lia))
    as (closeCode & reason & reply & Hr & Ht & _ & _ & _ & Hempty).
  exists closeCode, reason, reply.
  destruct (Hempty eq_refl) as [Hc Hreply].
  repeat split; assumption.
Defined.

(** ** C7: the maximum message size *)

Lemma ws_be64_range (buf : list Z) : 0 <= ws_be64 buf < 2 ^ 64.
Proof. unfold ws_be64. apply (load_le_bounds 8). Qed.

(** C7. For a frame whose length field announced an extended length (126 or
    127), and a maximum message size that is a non-negative [int]:
    [websocket_parse_size] decodes the length as the big-endian value of the 2
    or 8 bytes; when it exceeds the maximum, the connection is closed, nothing
    is written, the buffers, the phase and the bytes needed stay as they
    were and the caller is told to stop; otherwise the length is recorded and
    the mask phase starts, needing 4 bytes. *)
Theorem websocket_parse_size_limit (self : ProtocolWebSocket) (sock : Socket) (buf : list Z) :
  let max := m_websockets_max_size self in
  let declared := if websocket_payload_size sock =? 126 then ws_be16 buf else ws_be64 buf in
  let result := websocket_parse_size sock buf max in
  0 <= max < 2 ^ 31 ->
  websocket_payload_size sock = 126 \/ websocket_payload_size sock = 127 ->
  (forall b0 b1 stale, websocket_payload_size sock = 126 -> buf = b0 :: b1 :: stale ->
     is_byte b0 -> is_byte b1 -> declared = be_value [b0; b1])
  /\ (forall b0 b1 b2 b3 b4 b5 b6 b7 stale, websocket_payload_size sock = 127 ->
     buf = b0 :: b1 :: b2 :: b3 :: b4 :: b5 :: b6 :: b7 :: stale ->
     Forall is_byte [b0; b1; b2; b3; b4; b5; b6; b7] ->
     declared = be_value [b0; b1; b2; b3; b4; b5; b6; b7])
  /\ (max < declared ->
      result = (false, connectionClose sock)
      /\ trace (snd result) = trace sock ++ [ConnectionClose]
      /\ closed (snd result) = true
      /\ websocket_payload (snd result) = websocket_payload sock
      /\ websocket_message (snd result) = websocket_message sock
      /\ websocket_phase (snd result) = websocket_phase sock
      /\ websocket_need (snd result) = websocket_need sock)
  /\ (declared <= max ->
      result = (true, set_phase WebSocketPhaseMask (set_need 4 (set_payload_size declared sock)))
      /\ websocket_payload_size (snd result) = declared
      /\ websocket_phase (snd result) = WebSocketPhaseMask
      /\ websocket_need (snd result) = 4
      /\ trace (snd result) = trace sock
      /\ closed (snd result) = closed sock).
Proof.
  intros max declared result Hmax Hext.
  assert (Hq : quint64 max = max).
  { unfold quint64. apply Z.mod_small. lia. }
  split; [|split; [|split]].
  - intros b0 b1 stale H126 -> H0 H1. unfold declared. rewrite H126.
    now apply ws_be16_value.
  - intros b0 b1 b2 b3 b4 b5 b6 b7 stale H127 -> Hb. unfold declared. rewrite H127.
    repeat match goal with H : Forall _ (_ :: _) |- _ => inversion_clear H end.
    now apply ws_be64_value.
  - intros Hbig. unfold result, websocket_parse_size. rewrite Hq.
    assert (Hres : (if websocket_payload_size sock =? 126
                    then if max <? ws_be16 buf then (false, connectionClose sock)
                         else (true, set_phase WebSocketPhaseMask
                                       (set_need 4 (set_payload_size (ws_be16 buf) sock)))
                    else if websocket_payload_size sock =? 127
                         then if max <? ws_be64 buf then (false, connectionClose sock)
                              else (true, set_phase WebSocketPhaseMask
                                            (set_need 4 (set_payload_size (ws_be64 buf) sock)))
                         else (false, connectionClose sock))
                   = (false, connectionClose sock)).
    { unfold declared in Hbig. destruct (websocket_payload_size sock =? 126).
      - destruct (Z.ltb_spec max (ws_be16 buf)); [reflexivity | exfalso; lia].
      - destruct (websocket_payload_size sock =? 127); [|reflexivity].
        destruct (Z.ltb_spec max (ws_be64 buf)); [reflexivity | exfalso; lia]. }
    rewrite Hres. repeat split.
  - intros Hfit. unfold result, websocket_parse_size. rewrite Hq. unfold declared in *.
    destruct Hext as [E | E]; rewrite E in *; cbn [Z.eqb Pos.eqb] in *.
    + destruct (Z.ltb_spec max (ws_be16 buf)); [exfalso; lia|]. repeat split.
    + destruct (Z.ltb_spec max (ws_be64 buf)); [exfalso; lia|]. repeat split.
Qed.

Lemma websocket_parse_size_limit_witness :
  let sock := set_payload_size 126 (set_phase WebSocketPhaseSize upgraded_socket) in
  websocket_parse_size sock [0x01; 0x00] (m_websockets_max_size default_protocol)
  = (true, set_phase WebSocketPhaseMask (set_need 4 (set_payload_size 256 sock))).
Proof.
  intros sock.
  destruct (websocket_parse_size_limit default_protocol sock [0x01; 0x00]
              ltac:(cbv; split; [discriminate | reflexivity]) (or_introl eq_refl))
    as (_ & _ & _ & Hfit).
  destruct (Hfit ltac:(cbv; discriminate)) as [H _].
  exact H.
Defined.

(** ** The read loop *)

(** *** What the decoder leaves alone *)

Ltac sock_simpl :=
  cbn [fst snd websocket_message websocket_payload websocket_payload_size websocket_need
       websocket_mask websocket_start_of_frame websocket_phase websocket_continue_opcode
       websocket_finn_opcode io_pending io_failing closed trace
       set_message set_payload set_payload_size set_need set_mask set_start_of_frame
       set_phase set_continue_opcode set_finn_opcode set_io_pending set_closed set_trace
       emit io_write connectionClose clear_buffers receive].

Ltac sock_simpl_in H :=
  cbn [fst snd websocket_message websocket_payload websocket_payload_size websocket_need
       websocket_mask websocket_start_of_frame websocket_phase websocket_continue_opcode
       websocket_finn_opcode io_pending io_failing closed trace
       set_message set_payload set_payload_size set_need set_mask set_start_of_frame
       set_phase set_continue_opcode set_finn_opcode set_io_pending set_closed set_trace
       emit io_write connectionClose clear_buffers receive] in H.

Ltac crunch :=
  cbv zeta; sock_simpl;
  repeat (match goal with
          | |- context [let (_, _) := ?p in _] =>
              lazymatch p with
              | context [if _ then _ else _] => fail
              | _ => destruct p
              end
          | |- context [if ?c then _ else _] =>
              lazymatch c with
              | context [if _ then _ else _] => fail
              | _ => destruct c
              end
          end; sock_simpl).

Ltac split_ifs :=
  repeat match goal with
         | |- context [if ?c then _ else _] => destruct c
         | |- context [let (_, _) := ?p in _] => destruct p
         end.

Lemma send_text_frame (self : ProtocolWebSocket) (sock : Socket) (singleFrame : bool) :
  let r := send_text self sock singleFrame in
  io_pending (snd r) = io_pending sock /\ io_failing (snd r) = io_failing sock
  /\ websocket_phase (snd r) = websocket_phase sock
  /\ websocket_need (snd r) = websocket_need sock
  /\ (closed sock = true -> closed (snd r) = true)
  /\ (fst r = false -> closed (snd r) = true).
Proof.
  unfold send_text. cbn zeta. split_ifs; cbn; repeat split; auto; discriminate.
Qed.

Lemma send_binary_frame (sock : Socket) (singleFrame : bool) :
  let r := send_binary sock singleFrame in
  io_pending r = io_pending sock /\ io_failing r = io_failing sock
  /\ websocket_phase r = websocket_phase sock
  /\ websocket_need r = websocket_need sock
  /\ (closed sock = true -> closed r = true).
Proof.
  unfold send_binary. cbn zeta. split_ifs; cbn; repeat split; auto.
Qed.

Lemma send_closed_frame (self : ProtocolWebSocket) (sock : Socket) :
  let r := send_closed self sock in
  io_pending r = io_pending sock /\ io_failing r = io_failing sock
  /\ websocket_phase r = websocket_phase sock
  /\ websocket_need r = websocket_need sock
  /\ closed r = true.
Proof.
  unfold send_closed. cbn zeta. split_ifs; cbn; repeat split; auto.
Qed.

Lemma frame_complete_frame (self : ProtocolWebSocket) (sock : Socket) :
  let r := frame_complete self sock in
  io_pending (snd r) = io_pending sock /\ io_failing (snd r) = io_failing sock
  /\ websocket_phase (snd r) = WebSocketPhaseHeaders
  /\ websocket_need (snd r) = 2
  /\ (closed sock = true -> closed (snd r) = true)
  /\ (fst r = false -> closed (snd r) = true).
Proof.
  unfold frame_complete. cbn zeta.
  set (s := set_phase WebSocketPhaseHeaders (set_need 2 sock)).
  pose proof (send_text_frame self s false) as T0.
  pose proof (send_text_frame self s (finn s)) as T1.
  pose proof (send_binary_frame s false) as B0.
  pose proof (send_binary_frame s (finn s)) as B1.
  pose proof (send_closed_frame self s) as C.
  cbv zeta in T0, T1, B0, B1, C.
  split_ifs; cbn [fst snd]; try (intuition (auto; discriminate)).
  all: cbn; repeat split; auto; discriminate.
Qed.

(** Two sockets with the same members are the same. *)
Lemma socket_eq (a b : Socket) :
  websocket_message a = websocket_message b ->
  websocket_payload a = websocket_payload b ->
  websocket_payload_size a = websocket_payload_size b ->
  websocket_need a = websocket_need b ->
  websocket_mask a = websocket_mask b ->
  websocket_start_of_frame a = websocket_start_of_frame b ->
  websocket_phase a = websocket_phase b ->
  websocket_continue_opcode a = websocket_continue_opcode b ->
  websocket_finn_opcode a = websocket_finn_opcode b ->
  io_pending a = io_pending b -> io_failing a = io_failing b ->
  closed a = closed b -> trace a = trace b ->
  a = b.
Proof. destruct a, b. cbn. intros. now subst. Qed.

Lemma websocket_parse_header_frame (self : ProtocolWebSocket) (sock : Socket) (buf : list Z) :
  let r := websocket_parse_header self sock buf in
  io_pending (snd r) = io_pending sock /\ io_failing (snd r) = io_failing sock
  /\ (closed sock = true -> closed (snd r) = true)
  /\ (fst r = false ->
      closed (snd r) = true /\ websocket_phase (snd r) = websocket_phase sock
      /\ websocket_need (snd r) = websocket_need sock
      /\ websocket_payload (snd r) = websocket_payload sock)
  /\ (fst r = true ->
      (websocket_phase (snd r) = WebSocketPhaseSize
       /\ (websocket_need (snd r) = 2 \/ websocket_need (snd r) = 8))
      \/ (websocket_phase (snd r) = WebSocketPhaseMask /\ websocket_need (snd r) = 4
          /\ 0 <= websocket_payload_size (snd r) < 128)).
Proof.
  unfold websocket_parse_header. cbn zeta.
  set (b2 := quint8 (at_ buf 1)).
  assert (Hl : 0 <= Z.land b2 0x7f < 128).
  { rewrite land_0x7f. apply Z.mod_pos_bound. lia. }
  destruct (_ || _ : bool);
    [cbn; repeat split; auto; discriminate|].
  cbn [fst snd].
  repeat match goal with
         | |- context [if ?c then _ else _] => destruct c
         end; cbn; repeat split; auto; try discriminate; intros _; auto.
  all: right; repeat split; lia.
Qed.

Lemma websocket_parse_size_frame (sock : Socket) (buf : list Z) (max : Z) :
  let r := websocket_parse_size sock buf max in
  0 <= max < 2 ^ 31 ->
  io_pending (snd r) = io_pending sock /\ io_failing (snd r) = io_failing sock
  /\ (closed sock = true -> closed (snd r) = true)
  /\ (fst r = false ->
      closed (snd r) = true /\ websocket_phase (snd r) = websocket_phase sock
      /\ websocket_need (snd r) = websocket_need sock
      /\ websocket_payload (snd r) = websocket_payload sock
      /\ websocket_payload_size (snd r) = websocket_payload_size sock)
  /\ (fst r = true ->
      websocket_phase (snd r) = WebSocketPhaseMask /\ websocket_need (snd r) = 4
      /\ 0 <= websocket_payload_size (snd r) < 2 ^ 32).
Proof.
  intros r Hmax. unfold r, websocket_parse_size.
  assert (Hq : quint64 max = max) by (unfold quint64; apply Z.mod_small; lia).
  rewrite Hq.
  pose proof (ws_be16_range buf). pose proof (ws_be64_range buf).
  destruct (websocket_payload_size sock =? 126);
    [|destruct (websocket_payload_size sock =? 127)].
  - destruct (Z.ltb_spec max (ws_be16 buf)); sock_simpl; repeat split; auto;
      try discriminate; lia.
  - destruct (Z.ltb_spec max (ws_be64 buf)); sock_simpl; repeat split; auto;
      try discriminate; lia.
  - sock_simpl; repeat split; auto; discriminate.
Qed.

(** [websocket_parse_payload], with the end of the frame named. *)
Lemma websocket_parse_payload_eq (self : ProtocolWebSocket) (sock : Socket)
    (buf : list Z) (len : Z) :
  websocket_parse_payload self sock buf len
  = let unmasked :=
      unmask (websocket_mask sock) (size (websocket_payload sock)) (Z.to_nat len) buf in
    let sock1 := set_payload (websocket_payload sock ++ left unmasked len) sock in
    if size (websocket_payload sock1) <? websocket_payload_size sock1 then
      (true, set_need (quint32 (websocket_need sock1 - len)) sock1)
    else frame_complete self sock1.
Proof. reflexivity. Qed.

(** *** Sizes *)

Lemma size_nonneg (a : QByteArray) : 0 <= size a.
Proof. unfold size. lia. Qed.

Lemma size_app (a b : QByteArray) : size (a ++ b) = size a + size b.
Proof. unfold size. rewrite length_app. lia. Qed.

Lemma size_left (a : QByteArray) (n : Z) : 0 <= n -> size (left a n) = Z.min n (size a).
Proof. intros Hn. unfold size, left. rewrite length_firstn. lia. Qed.

Lemma size_mid (a : QByteArray) (n : Z) :
  0 <= n -> size (mid a n) = size a - Z.min n (size a).
Proof. intros Hn. unfold size, mid. rewrite length_skipn. lia. Qed.

Lemma left_all (a : QByteArray) (n : Z) : size a <= n -> left a n = a.
Proof. intros Hn. unfold left, size in *. apply firstn_all2. lia. Qed.

Lemma mid_all (a : QByteArray) (n : Z) : size a <= n -> mid a n = [].
Proof. intros Hn. unfold mid, size in *. apply skipn_all2. lia. Qed.

Lemma left_min (a : QByteArray) (n : Z) : left a n = left a (Z.min n (size a)).
Proof.
  destruct (Z.le_ge_cases n (size a)).
  - now rewrite Z.min_l.
  - rewrite Z.min_r by assumption. rewrite !left_all; (reflexivity || lia).
Qed.

Lemma mid_min (a : QByteArray) (n : Z) : mid a n = mid a (Z.min n (size a)).
Proof.
  destruct (Z.le_ge_cases n (size a)).
  - now rewrite Z.min_l.
  - rewrite Z.min_r by assumption. rewrite !mid_all; (reflexivity || lia).
Qed.

Lemma left_app_l (a b : QByteArray) (n : Z) : n <= size a -> left (a ++ b) n = left a n.
Proof.
  intros Hn. unfold left, size in *. rewrite firstn_app.
  replace (Z.to_nat n - length a)%nat with 0%nat by lia. cbn. apply app_nil_r.
Qed.

Lemma mid_app_l (a b : QByteArray) (n : Z) : n <= size a -> mid (a ++ b) n = mid a n ++ b.
Proof.
  intros Hn. unfold mid, size in *. rewrite skipn_app.
  replace (Z.to_nat n - length a)%nat with 0%nat by lia. reflexivity.
Qed.

Lemma left_mid (a : QByteArray) (n : Z) : left a n ++ mid a n = a.
Proof. apply firstn_skipn. Qed.

Lemma left_left (a : QByteArray) (j k : Z) : 0 <= j <= k -> left (left a k) j = left a j.
Proof.
  intros H. unfold left. rewrite firstn_firstn. f_equal. lia.
Qed.

Lemma left_add (a : QByteArray) (j k : Z) :
  0 <= j -> 0 <= k -> left a (j + k) = left a j ++ left (mid a j) k.
Proof.
  intros Hj Hk. unfold left, mid. rewrite Z2Nat.inj_add by assumption.
  revert a. induction (Z.to_nat j) as [|n IH]; intros a.
  - reflexivity.
  - destruct a as [|x a]; cbn [Nat.add firstn skipn app].
    + now rewrite firstn_nil.
    + now rewrite IH.
Qed.

Lemma mid_mid (a : QByteArray) (j k : Z) :
  0 <= j -> 0 <= k -> mid (mid a j) k = mid a (j + k).
Proof.
  intros Hj Hk. unfold mid. rewrite skipn_skipn. f_equal. lia.
Qed.

(** *** Unmasking in pieces *)

Lemma length_unmask (mask : Z) (len : nat) :
  forall (maskIx : Z) (buf : list Z), length (unmask mask maskIx len buf) = length buf.
Proof.
  induction len as [|len IH]; intros maskIx buf; [reflexivity|].
  destruct buf as [|b buf]; [reflexivity|]. cbn [unmask length]. now rewrite IH.
Qed.

Lemma size_unmask_all (mask maskIx : Z) (buf : list Z) :
  size (unmask_all mask maskIx buf) = size buf.
Proof. unfold size, unmask_all. now rewrite length_unmask. Qed.

Lemma unmask_all_app (mask : Z) (a : list Z) :
  forall (maskIx : Z) (b : list Z),
    unmask_all mask maskIx (a ++ b)
    = unmask_all mask maskIx a ++ unmask_all mask (maskIx + size a) b.
Proof.
  unfold unmask_all, size. induction a as [|x a IH]; intros maskIx b.
  - cbn [app length unmask Z.of_nat]. now rewrite Z.add_0_r.
  - cbn [app length unmask]. rewrite IH. do 3 f_equal. lia.
Qed.

(** *** The decoder does not look at the device *)

Lemma send_text_pending (self : ProtocolWebSocket) (sock : Socket) (singleFrame : bool)
    (pending : QByteArray) :
  send_text self (set_io_pending pending sock) singleFrame
  = (fst (send_text self sock singleFrame),
     set_io_pending pending (snd (send_text self sock singleFrame))).
Proof.
  unfold send_text, finn. crunch; reflexivity.
Qed.

Lemma send_binary_pending (sock : Socket) (singleFrame : bool) (pending : QByteArray) :
  send_binary (set_io_pending pending sock) singleFrame
  = set_io_pending pending (send_binary sock singleFrame).
Proof.
  unfold send_binary, finn. crunch; reflexivity.
Qed.

Lemma send_closed_pending (self : ProtocolWebSocket) (sock : Socket) (pending : QByteArray) :
  send_closed self (set_io_pending pending sock)
  = set_io_pending pending (send_closed self sock).
Proof.
  unfold send_closed. crunch; reflexivity.
Qed.

Lemma frame_complete_pending (self : ProtocolWebSocket) (sock : Socket)
    (pending : QByteArray) :
  frame_complete self (set_io_pending pending sock)
  = (fst (frame_complete self sock), set_io_pending pending (snd (frame_complete self sock))).
Proof.
  unfold frame_complete. sock_simpl.
  change (set_phase WebSocketPhaseHeaders (set_need 2 (set_io_pending pending sock)))
    with (set_io_pending pending (set_phase WebSocketPhaseHeaders (set_need 2 sock))).
  set (s := set_phase WebSocketPhaseHeaders (set_need 2 sock)).
  rewrite !send_text_pending, !send_binary_pending, !send_closed_pending.
  change (finn (set_io_pending pending s)) with (finn s).
  split_ifs; reflexivity.
Qed.

Lemma websocket_parse_payload_pending (self : ProtocolWebSocket) (sock : Socket)
    (buf : list Z) (len : Z) (pending : QByteArray) :
  websocket_parse_payload self (set_io_pending pending sock) buf len
  = (fst (websocket_parse_payload self sock buf len),
     set_io_pending pending (snd (websocket_parse_payload self sock buf len))).
Proof.
  rewrite !websocket_parse_payload_eq. cbv zeta. sock_simpl.
  match goal with
  | |- context [frame_complete self (set_payload ?p (set_io_pending pending sock))] =>
      change (frame_complete self (set_payload p (set_io_pending pending sock)))
        with (frame_complete self (set_io_pending pending (set_payload p sock)))
  end.
  rewrite frame_complete_pending.
  split_ifs; reflexivity.
Qed.

Lemma websocket_parse_header_pending (self : ProtocolWebSocket) (sock : Socket)
    (buf : list Z) (pending : QByteArray) :
  websocket_parse_header self (set_io_pending pending sock) buf
  = (fst (websocket_parse_header self sock buf),
     set_io_pending pending (snd (websocket_parse_header self sock buf))).
Proof.
  unfold websocket_parse_header. sock_simpl.
  destruct (_ || _ : bool); [reflexivity|].
  crunch; reflexivity.
Qed.

Lemma websocket_parse_size_pending (sock : Socket) (buf : list Z) (max : Z)
    (pending : QByteArray) :
  websocket_parse_size (set_io_pending pending sock) buf max
  = (fst (websocket_parse_size sock buf max),
     set_io_pending pending (snd (websocket_parse_size sock buf max))).
Proof.
  unfold websocket_parse_size. crunch; reflexivity.
Qed.

Lemma websocket_parse_mask_pending (self : ProtocolWebSocket) (sock : Socket)
    (buf : list Z) (pending : QByteArray) :
  websocket_parse_mask self (set_io_pending pending sock) buf
  = set_io_pending pending (websocket_parse_mask self sock buf).
Proof.
  unfold websocket_parse_mask. sock_simpl.
  destruct (websocket_payload_size sock =? 0); [|reflexivity].
  match goal with
  | |- context [websocket_parse_payload self ?s buf 0] =>
      change s with
        (set_io_pending pending
           (set_payload [] (set_need (quint32 (websocket_payload_size sock))
              (set_phase WebSocketPhasePayload (set_mask (load_le 4 buf) sock)))))
  end.
  now rewrite websocket_parse_payload_pending.
Qed.

(** *** One turn of the loop *)

Lemma turn_guard (self : ProtocolWebSocket) (avail : Z) (s : Socket) :
  need_more_data avail s = true -> readyRead_turn self avail s = Return s.
Proof. unfold readyRead_turn, need_more_data. now intros ->. Qed.

Lemma need_more_data_false (avail : Z) (s : Socket) :
  need_more_data avail s = false ->
  avail <> 0 /\ websocket_need s <> 0
  /\ (websocket_phase s <> WebSocketPhasePayload -> websocket_need s <= avail).
Proof.
  unfold need_more_data. rewrite !orb_false_iff, andb_false_iff, negb_false_iff.
  intros [[Ha Hn] Hp]. apply Z.eqb_neq in Ha, Hn. repeat split; try assumption.
  intros Hph. destruct Hp as [Hp|Hp].
  - apply Z.ltb_ge in Hp. exact Hp.
  - destruct (websocket_phase s); (discriminate || now elim Hph).
Qed.

Lemma quint32_small (x : Z) : 0 <= x < 2 ^ 32 -> quint32 x = x.
Proof. intros H. unfold quint32. now apply Z.mod_small. Qed.

(** The turn on a header, an extended length or a mask: the bytes of the field
    are read and handed to the decoder of the phase. *)
Lemma turn_field (self : ProtocolWebSocket) (avail : Z) (s : Socket) :
  protocol_ok self -> sock_inv s -> avail = size (io_pending s) ->
  need_more_data avail s = false ->
  websocket_phase s <> WebSocketPhasePayload ->
  let n := websocket_need s in
  let buf := left (io_pending s) n in
  let s1 := set_io_pending (mid (io_pending s) n) s in
  size buf = n /\ size (io_pending s1) = avail - n /\ 2 <= n <= 8 /\
  readyRead_turn self avail s
  = match websocket_phase s with
    | WebSocketPhaseHeaders =>
        let (ok, s') := websocket_parse_header self s1 buf in
        if ok then Again (avail - n) s' else Return s'
    | WebSocketPhaseSize =>
        let (ok, s') := websocket_parse_size s1 buf (m_websockets_max_size self) in
        if ok then Again (avail - n) s' else Return s'
    | WebSocketPhaseMask => Again (avail - n) (websocket_parse_mask self s1 buf)
    | WebSocketPhasePayload => Return s
    end.
Proof.
  intros [Hpbs Hmax] [Hio Hinv] Havail Hguard Hphase n buf s1.
  destruct (need_more_data_false _ _ Hguard) as (Ha & Hn & Hle).
  specialize (Hle Hphase). fold n in Hle, Hn.
  assert (Hn28 : 2 <= n <= 8).
  { unfold n. destruct (websocket_phase s); try lia. now elim Hphase. }
  assert (Hsz : size buf = n).
  { unfold buf. rewrite size_left by lia. lia. }
  assert (Hmin : Z.min n (quint32 (m_postBufferSize self)) = n) by lia.
  repeat split; try lia.
  - unfold s1. sock_simpl. rewrite size_mid by lia. lia.
  - unfold readyRead_turn. unfold need_more_data in Hguard. rewrite Hguard.
    fold n. rewrite Hmin. unfold io_read. rewrite Hio.
    fold buf. fold s1. rewrite Hsz.
    change (websocket_phase s1) with (websocket_phase s).
    destruct (websocket_phase s); try reflexivity. now elim Hphase.
Qed.

Lemma left_size (a : QByteArray) : left a (size a) = a.
Proof. apply left_all. lia. Qed.

(** The turn on a payload: the bytes taken are as many as are needed, as the
    scratch buffer holds and as are there. *)
Lemma turn_payload (self : ProtocolWebSocket) (avail : Z) (s : Socket) :
  protocol_ok self -> sock_inv s -> avail = size (io_pending s) ->
  websocket_phase s = WebSocketPhasePayload -> 1 <= avail ->
  let c := Z.min (Z.min (websocket_need s) (quint32 (m_postBufferSize self))) avail in
  readyRead_turn self avail s
  = if c <? websocket_need s then Again (avail - c) (absorb c s)
    else let (ok, s') := frame_complete self (absorb c s) in
         if ok then Again (avail - c) s' else Return s'.
Proof.
  intros [Hpbs Hmax] [Hio Hinv] Havail Hphase Ha c.
  rewrite Hphase in Hinv. destruct Hinv as (Hn1 & Hsum & Hps).
  set (n := websocket_need s) in *. set (pbs := quint32 (m_postBufferSize self)) in *.
  assert (Hc : 1 <= c <= avail) by lia.
  unfold readyRead_turn.
  destruct (Z.eqb_spec avail 0) as [|_]; [exfalso; lia|].
  destruct (Z.eqb_spec (websocket_need s) 0) as [E|_]; [exfalso; fold n in E; lia|].
  rewrite Hphase. cbn [is_payload_phase negb andb orb]. rewrite andb_false_r. cbn [orb].
  fold n. fold pbs. unfold io_read. rewrite Hio.
  set (buf := left (io_pending s) (Z.min n pbs)).
  assert (Hbuf : buf = left (io_pending s) c).
  { unfold buf, c. rewrite (left_min _ (Z.min n pbs)). now rewrite <- Havail. }
  assert (Hmid : mid (io_pending s) (Z.min n pbs) = mid (io_pending s) c).
  { unfold c. rewrite (mid_min _ (Z.min n pbs)). now rewrite <- Havail. }
  assert (Hsz : size buf = c).
  { rewrite Hbuf, size_left by lia. lia. }
  rewrite Hmid, Hsz. sock_simpl. rewrite Hphase.
  rewrite websocket_parse_payload_eq. cbv zeta. sock_simpl.
  assert (Hun : left (unmask (websocket_mask s) (size (websocket_payload s)) (Z.to_nat c) buf) c
                = unmask_all (websocket_mask s) (size (websocket_payload s)) buf).
  { replace (Z.to_nat c) with (length buf) by (unfold size in Hsz; lia).
    fold (unmask_all (websocket_mask s) (size (websocket_payload s)) buf).
    apply left_all. rewrite size_unmask_all. lia. }
  rewrite Hun, size_app, size_unmask_all, Hsz, Hbuf.
  destruct (Z.ltb_spec (size (websocket_payload s) + c) (websocket_payload_size s));
    destruct (Z.ltb_spec c n); try (exfalso; lia).
  - reflexivity.
  - reflexivity.
Qed.

(** *** The payload in pieces *)

Lemma absorb_fields (c : Z) (s : Socket) :
  websocket_phase (absorb c s) = websocket_phase s
  /\ websocket_payload_size (absorb c s) = websocket_payload_size s
  /\ websocket_mask (absorb c s) = websocket_mask s
  /\ io_failing (absorb c s) = io_failing s
  /\ closed (absorb c s) = closed s
  /\ trace (absorb c s) = trace s
  /\ io_pending (absorb c s) = mid (io_pending s) c.
Proof. repeat split. Qed.

Lemma absorb_inv (c : Z) (s : Socket) :
  sock_inv s -> websocket_phase s = WebSocketPhasePayload ->
  0 <= c < websocket_need s -> c <= size (io_pending s) ->
  sock_inv (absorb c s)
  /\ websocket_need (absorb c s) = websocket_need s - c
  /\ size (io_pending (absorb c s)) = size (io_pending s) - c.
Proof.
  intros [Hio Hinv] Hphase Hc Hp. rewrite Hphase in Hinv.
  destruct Hinv as (Hn1 & Hsum & Hps).
  pose proof (size_nonneg (websocket_payload s)).
  assert (Hq : quint32 (websocket_need s - c) = websocket_need s - c)
    by (apply quint32_small; lia).
  repeat split.
  - exact Hio.
  - unfold absorb. sock_simpl. rewrite Hphase, Hq.
    rewrite size_app, size_unmask_all, size_left by lia. lia.
  - unfold absorb. sock_simpl. exact Hq.
  - unfold absorb. sock_simpl. rewrite size_mid by lia. lia.
Qed.

Lemma quint32_sub (x j k : Z) : quint32 (quint32 (x - j) - k) = quint32 (x - (j + k)).
Proof.
  unfold quint32. rewrite Zminus_mod_idemp_l. f_equal. lia.
Qed.

Lemma absorb_add (j k : Z) (s : Socket) :
  0 <= j -> 0 <= k -> absorb k (absorb j s) = absorb (j + k) s.
Proof.
  intros Hj Hk. unfold absorb. sock_simpl.
  rewrite quint32_sub, mid_mid, left_add by assumption.
  rewrite unmask_all_app, size_app, size_unmask_all, <- app_assoc.
  reflexivity.
Qed.

Lemma absorb_0 (s : Socket) : 0 <= websocket_need s < 2 ^ 32 -> absorb 0 s = s.
Proof.
  intros Hn. unfold absorb. rewrite Z.sub_0_r, quint32_small by assumption.
  change (left (io_pending s) 0) with (@nil Z). change (mid (io_pending s) 0) with (io_pending s).
  change (unmask_all (websocket_mask s) (size (websocket_payload s)) []) with (@nil Z).
  rewrite app_nil_r. now destruct s.
Qed.

Lemma absorb_receive (c : Z) (data : QByteArray) (s : Socket) :
  c <= size (io_pending s) -> absorb c (receive data s) = receive data (absorb c s).
Proof.
  intros Hc. unfold absorb, receive. sock_simpl.
  now rewrite left_app_l, mid_app_l by assumption.
Qed.

Lemma frame_complete_need (self : ProtocolWebSocket) (n : Z) (s : Socket) :
  frame_complete self (set_need n s) = frame_complete self s.
Proof. reflexivity. Qed.

(** *** The invariant *)

(** [websocket_parse_mask], with the end of an empty frame named. *)
Lemma websocket_parse_mask_eq (self : ProtocolWebSocket) (s : Socket) (buf : list Z) :
  websocket_parse_mask self s buf
  = let s1 := set_payload []
                (set_need (quint32 (websocket_payload_size s))
                   (set_phase WebSocketPhasePayload (set_mask (load_le 4 buf) s))) in
    if websocket_payload_size s =? 0 then snd (frame_complete self s1) else s1.
Proof.
  unfold websocket_parse_mask. cbv zeta. sock_simpl.
  destruct (Z.eqb_spec (websocket_payload_size s) 0) as [E|E]; [|reflexivity].
  rewrite websocket_parse_payload_eq. cbv zeta. sock_simpl. rewrite E.
  change (left (unmask (load_le 4 buf) (size []) (Z.to_nat 0) buf) 0) with (@nil Z).
  reflexivity.
Qed.

Lemma websocket_parse_mask_frame (self : ProtocolWebSocket) (s : Socket) (buf : list Z) :
  sock_inv s -> websocket_phase s = WebSocketPhaseMask ->
  let s' := websocket_parse_mask self s buf in
  sock_inv s' /\ io_pending s' = io_pending s /\ (closed s = true -> closed s' = true).
Proof.
  intros [Hio Hinv] Hphase s'. rewrite Hphase in Hinv. destruct Hinv as [Hn Hps].
  unfold s'. rewrite websocket_parse_mask_eq. cbv zeta.
  destruct (Z.eqb_spec (websocket_payload_size s) 0) as [E|E].
  - match goal with |- context [frame_complete self ?x] =>
      pose proof (frame_complete_frame self x) as F;
      destruct (frame_complete self x) as [ok r] end.
    cbv zeta in F. sock_simpl_in F. sock_simpl.
    destruct F as (F1 & F2 & F3 & F4 & F5 & F6).
    split; [split|split]; [congruence | now rewrite F3 | assumption | assumption].
  - split; [split|split]; sock_simpl; try assumption; try reflexivity; try (intros H; exact H).
    rewrite quint32_small by lia. change (size []) with 0. lia.
Qed.

(** A turn keeps the invariant; when the loop goes on, the local
    [bytesAvailable] is still what the device holds, and has decreased; when
    the function returns for another reason than a lack of data, the
    connection is closed. *)
Lemma turn_inv (self : ProtocolWebSocket) (avail : Z) (s : Socket) :
  protocol_ok self -> sock_inv s -> avail = size (io_pending s) ->
  match readyRead_turn self avail s with
  | Return s' =>
      sock_inv s' /\ (closed s = true -> closed s' = true)
      /\ (need_more_data avail s = true /\ s' = s
          \/ need_more_data avail s = false /\ closed s' = true)
  | Again avail' s' =>
      sock_inv s' /\ (closed s = true -> closed s' = true)
      /\ avail' = size (io_pending s') /\ 0 <= avail' < avail
      /\ need_more_data avail s = false
  end.
Proof.
  intros Hok Hinv Havail.
  destruct (need_more_data avail s) eqn:Hguard.
  { rewrite turn_guard by assumption. auto. }
  destruct (need_more_data_false _ _ Hguard) as (Ha & Hn & Hle).
  pose proof (size_nonneg (io_pending s)) as Hnonneg.
  destruct (websocket_phase s) eqn:Hphase.
  - (* header *)
    destruct (turn_field self avail s Hok Hinv Havail Hguard) as (Hsz & Hrest & Hn28 & ->);
      [congruence|].
    sock_simpl_in Hrest. rewrite Hphase.
    assert (Hle' : websocket_need s <= avail) by (apply Hle; congruence).
    match goal with |- context [websocket_parse_header self ?x ?b] =>
      pose proof (websocket_parse_header_frame self x b) as F;
      destruct (websocket_parse_header self x b) as [ok s'] end.
    cbv zeta in F. sock_simpl_in F. destruct F as (F1 & F2 & F3 & F4 & F5).
    destruct Hinv as [Hio Hinv]. rewrite Hphase in Hinv.
    destruct ok.
    + specialize (F5 eq_refl). repeat split; try assumption.
      * congruence.
      * destruct F5 as [[-> Hneed] | (-> & Hneed & Hps)]; [assumption|split; [assumption|lia]].
      * rewrite F1. lia.
      * lia.
      * lia.
    + destruct (F4 eq_refl) as (Hc & Hp & Hneed & _). repeat split; try assumption.
      * congruence.
      * rewrite Hp, Hphase, Hneed. assumption.
      * now right.
  - (* extended length *)
    destruct (turn_field self avail s Hok Hinv Havail Hguard) as (Hsz & Hrest & Hn28 & ->);
      [congruence|].
    sock_simpl_in Hrest. rewrite Hphase.
    assert (Hle' : websocket_need s <= avail) by (apply Hle; congruence). destruct Hok as [Hpbs Hmax].
    match goal with |- context [websocket_parse_size ?x ?b ?m] =>
      pose proof (websocket_parse_size_frame x b m) as F;
      destruct (websocket_parse_size x b m) as [ok s'] end.
    cbv zeta in F. sock_simpl_in F. destruct (F Hmax) as (F1 & F2 & F3 & F4 & F5).
    destruct Hinv as [Hio Hinv]. rewrite Hphase in Hinv.
    destruct ok.
    + destruct (F5 eq_refl) as (Hp & Hneed & Hps). repeat split; try assumption.
      * congruence.
      * rewrite Hp. split; assumption.
      * rewrite F1. lia.
      * lia.
      * lia.
    + destruct (F4 eq_refl) as (Hc & Hp & Hneed & _). repeat split; try assumption.
      * congruence.
      * rewrite Hp, Hphase, Hneed. assumption.
      * now right.
  - (* mask *)
    destruct (turn_field self avail s Hok Hinv Havail Hguard) as (Hsz & Hrest & Hn28 & ->);
      [congruence|].
    sock_simpl_in Hrest. rewrite Hphase.
    assert (Hle' : websocket_need s <= avail) by (apply Hle; congruence).
    match goal with |- context [websocket_parse_mask self ?x ?b] =>
      pose proof (websocket_parse_mask_frame self x b) as F end.
    cbv zeta in F. sock_simpl_in F.
    destruct F as (F1 & F2 & F3); [exact Hinv | exact Hphase |].
    split; [exact F1|]. split; [exact F3|]. split; [rewrite F2; lia|].
    split; [lia|reflexivity].
  - (* payload *)
    assert (Ha1 : 1 <= avail) by lia.
    rewrite (turn_payload self avail s Hok Hinv Havail Hphase Ha1).
    pose proof Hinv as [Hio Hinv']. rewrite Hphase in Hinv'.
    destruct Hinv' as (Hn1 & Hsum & Hps). destruct Hok as [Hpbs Hmax].
    set (c := Z.min (Z.min (websocket_need s) (quint32 (m_postBufferSize self))) avail).
    assert (Hc : 1 <= c <= avail) by lia.
    destruct (Z.ltb_spec c (websocket_need s)) as [Hlt|Hge].
    + destruct (absorb_inv c s Hinv Hphase) as (I1 & I2 & I3); [lia|lia|].
      repeat split; try apply I1; auto; lia.
    + pose proof (frame_complete_frame self (absorb c s)) as F.
      destruct (frame_complete self (absorb c s)) as [ok s'].
      cbv zeta in F. unfold absorb in F at 1 2 3. sock_simpl_in F.
      destruct F as (F1 & F2 & F3 & F4 & F5 & F6).
      assert (Hinv'' : sock_inv s').
      { split; [congruence|]. now rewrite F3. }
      destruct ok.
      * repeat split; try apply Hinv''; auto; try lia.
        rewrite F1, size_mid by lia. lia.
      * repeat split; try apply Hinv''; auto.
Qed.

(** *** The loop *)

Lemma readyRead_loop_more (self : ProtocolWebSocket) (fuel : nat) :
  forall (fuel' : nat) (avail : Z) (s r : Socket),
    readyRead_loop self fuel avail s = Some r -> (fuel <= fuel')%nat ->
    readyRead_loop self fuel' avail s = Some r.
Proof.
  induction fuel as [|fuel IH]; intros fuel' avail s r H Hle; [discriminate|].
  destruct fuel' as [|fuel']; [lia|]. cbn [readyRead_loop] in *.
  destruct (readyRead_turn self avail s); [assumption|].
  apply IH; [assumption | lia].
Qed.

Lemma runs_unique (self : ProtocolWebSocket) (avail : Z) (s r1 r2 : Socket) :
  runs self avail s r1 -> runs self avail s r2 -> r1 = r2.
Proof.
  intros [f1 H1] [f2 H2].
  apply (readyRead_loop_more self f1 (Nat.max f1 f2)) in H1; [|lia].
  apply (readyRead_loop_more self f2 (Nat.max f1 f2)) in H2; [|lia].
  congruence.
Qed.

Lemma runs_return (self : ProtocolWebSocket) (avail : Z) (s s' r : Socket) :
  readyRead_turn self avail s = Return s' -> (runs self avail s r <-> r = s').
Proof.
  intros Ht. split.
  - intros [[|fuel] H]; [discriminate|]. cbn [readyRead_loop] in H. rewrite Ht in H.
    congruence.
  - intros ->. exists 1%nat. cbn [readyRead_loop]. now rewrite Ht.
Qed.

Lemma runs_again (self : ProtocolWebSocket) (avail avail' : Z) (s s' r : Socket) :
  readyRead_turn self avail s = Again avail' s' ->
  (runs self avail s r <-> runs self avail' s' r).
Proof.
  intros Ht. split.
  - intros [[|fuel] H]; [discriminate|]. cbn [readyRead_loop] in H. rewrite Ht in H.
    now exists fuel.
  - intros [fuel H]. exists (S fuel). cbn [readyRead_loop]. now rewrite Ht.
Qed.

(** The loop ends within one turn more than the bytes available, in a state
    of the invariant. *)
Lemma readyRead_loop_ends (self : ProtocolWebSocket) (fuel : nat) :
  forall (avail : Z) (s : Socket),
    protocol_ok self -> sock_inv s -> avail = size (io_pending s) ->
    (Z.to_nat avail < fuel)%nat ->
    exists r, readyRead_loop self fuel avail s = Some r
              /\ sock_inv r /\ (closed s = true -> closed r = true).
Proof.
  induction fuel as [|fuel IH]; intros avail s Hok Hinv Havail Hfuel; [lia|].
  cbn [readyRead_loop]. pose proof (turn_inv self avail s Hok Hinv Havail) as T.
  destruct (readyRead_turn self avail s) as [s'|avail' s'].
  - exists s'. destruct T as (T1 & T2 & _). auto.
  - destruct T as (T1 & T2 & T3 & T4 & _).
    destruct (IH avail' s' Hok T1 T3) as (r & Hr & Hi & Hc); [lia|].
    exists r. auto.
Qed.

Lemma readyRead_runs (self : ProtocolWebSocket) (s r : Socket) :
  protocol_ok self -> sock_inv s ->
  (readyRead self s = Some r <-> runs self (size (io_pending s)) s r).
Proof.
  intros Hok Hinv. unfold readyRead, bytesAvailable. split.
  - intros H. now exists (S (length (io_pending s))).
  - intros Hr.
    destruct (readyRead_loop_ends self (S (length (io_pending s))) (size (io_pending s)) s
                Hok Hinv eq_refl) as (r' & Hr' & _).
    { unfold size. lia. }
    rewrite Hr'. f_equal. apply (runs_unique self (size (io_pending s)) s); [|assumption].
    now exists (S (length (io_pending s))).
Qed.

Lemma readyRead_ends (self : ProtocolWebSocket) (s : Socket) :
  protocol_ok self -> sock_inv s ->
  exists r, readyRead self s = Some r /\ sock_inv r /\ (closed s = true -> closed r = true).
Proof.
  intros Hok Hinv. unfold readyRead, bytesAvailable.
  apply readyRead_loop_ends; try assumption; try reflexivity. unfold size. lia.
Qed.

(** The payload phase, whatever the size of the scratch buffer: with fewer
    bytes than the payload lacks, all are taken and the loop returns; with
    enough of them, the frame is completed and the loop goes on behind it. *)
Lemma runs_payload (self : ProtocolWebSocket) (k : nat) :
  forall (avail : Z) (s r : Socket),
    protocol_ok self -> sock_inv s -> avail = size (io_pending s) ->
    websocket_phase s = WebSocketPhasePayload ->
    (Z.to_nat (websocket_need s) <= k)%nat ->
    (avail < websocket_need s -> (runs self avail s r <-> r = absorb avail s))
    /\ (websocket_need s <= avail ->
        (runs self avail s r <->
         let (ok, s') := frame_complete self (absorb (websocket_need s) s) in
         if ok then runs self (avail - websocket_need s) s' r else r = s')).
Proof.
  induction k as [|k IH]; intros avail s r Hok Hinv Havail Hphase Hk.
  { destruct Hinv as [_ Hinv]. rewrite Hphase in Hinv. lia. }
  pose proof Hinv as [Hio Hinv']. rewrite Hphase in Hinv'.
  destruct Hinv' as (Hn1 & Hsum & Hps).
  pose proof (size_nonneg (io_pending s)) as Hnonneg.
  pose proof (size_nonneg (websocket_payload s)) as Hnonneg'.
  pose proof Hok as [Hpbs Hmax].
  set (n := websocket_need s) in *. set (pbs := quint32 (m_postBufferSize self)) in *.
  destruct (Z.eq_dec avail 0) as [Ha0|Ha0].
  { (* nothing to read *)
    split; [|intros; exfalso; lia]. intros _.
    rewrite (runs_return self avail s s).
    - rewrite Ha0, absorb_0 by (fold n; lia). reflexivity.
    - apply turn_guard. unfold need_more_data. rewrite Ha0. reflexivity. }
  assert (Ha1 : 1 <= avail) by lia.
  pose proof (turn_payload self avail s Hok Hinv Havail Hphase Ha1) as Ht.
  cbv zeta in Ht. fold n pbs in Ht.
  set (c := Z.min (Z.min n pbs) avail) in *.
  assert (Hc : 1 <= c <= avail) by lia.
  destruct (Z.ltb_spec c n) as [Hlt|Hge].
  - (* a piece of the payload *)
    destruct (absorb_inv c s Hinv Hphase) as (I1 & I2 & I3); [fold n; lia | lia |].
    assert (I4 : websocket_phase (absorb c s) = WebSocketPhasePayload) by exact Hphase.
    assert (I5 : avail - c = size (io_pending (absorb c s))) by lia.
    destruct (IH (avail - c) (absorb c s) r Hok I1 I5 I4) as [IHa IHb];
      [rewrite I2; fold n; lia|].
    rewrite I2 in IHa, IHb. fold n in IHa, IHb.
    rewrite (runs_again self avail (avail - c) s (absorb c s) r Ht).
    split.
    + intros Hav. rewrite IHa by lia. rewrite absorb_add by lia.
      replace (c + (avail - c)) with avail by lia. reflexivity.
    + intros Hav. rewrite IHb by lia. rewrite absorb_add by lia.
      replace (c + (n - c)) with n by lia.
      replace (avail - c - (n - c)) with (avail - n) by lia. reflexivity.
  - (* the end of the payload *)
    assert (Hcn : c = n) by lia.
    split; [intros; exfalso; lia|]. intros _. rewrite Hcn in Ht.
    destruct (frame_complete self (absorb n s)) as [[|] s'].
    + apply (runs_again self avail (avail - n) s s' r Ht).
    + apply (runs_return self avail s s' r Ht).
Qed.

(** *** A frame, field by field *)

Lemma runs_header (self : ProtocolWebSocket) (s r : Socket) (byte1 byte2 : Z)
    (rest : list Z) :
  protocol_ok self -> sock_inv s -> websocket_phase s = WebSocketPhaseHeaders ->
  io_pending s = byte1 :: byte2 :: rest -> is_byte byte1 -> is_byte byte2 ->
  ~ header_violation byte1 byte2 (websocket_continue_opcode s) ->
  (runs self (size (io_pending s)) s r
   <-> runs self (size rest)
         (snd (websocket_parse_header self (set_io_pending rest s) [byte1; byte2])) r).
Proof.
  intros Hok Hinv Hphase Hpending H1 H2 Hv.
  pose proof Hinv as [Hio Hneed]. rewrite Hphase in Hneed.
  assert (Hguard : need_more_data (size (io_pending s)) s = false).
  { unfold need_more_data. rewrite Hphase, Hneed, Hpending. unfold size. cbn [length].
    destruct (Z.eqb_spec (Z.of_nat (S (S (length rest)))) 0); [exfalso; lia|].
    destruct (Z.ltb_spec (Z.of_nat (S (S (length rest)))) 2); [exfalso; lia|]. reflexivity. }
  destruct (turn_field self _ s Hok Hinv eq_refl Hguard) as (_ & _ & _ & Ht); [congruence|].
  rewrite Hphase, Hneed, Hpending in Ht.
  change (left (byte1 :: byte2 :: rest) 2) with [byte1; byte2] in Ht.
  change (mid (byte1 :: byte2 :: rest) 2) with rest in Ht.
  assert (Hacc : fst (websocket_parse_header self (set_io_pending rest s) [byte1; byte2]) = true).
  { rewrite websocket_parse_header_eq by assumption. cbv zeta.
    destruct (header_refused byte1 byte2 (websocket_continue_opcode (set_io_pending rest s)))
      eqn:E; [|reflexivity].
    exfalso. apply Hv. now apply header_refused_iff. }
  destruct (websocket_parse_header self (set_io_pending rest s) [byte1; byte2]) as [ok s'].
  cbn [fst snd] in *. subst ok.
  replace (size (byte1 :: byte2 :: rest) - 2) with (size rest) in Ht
    by (unfold size; cbn [length]; lia).
  rewrite <- Hpending in Ht. exact (runs_again self _ _ s s' r Ht).
Qed.

Lemma runs_size (self : ProtocolWebSocket) (s r : Socket) (field rest : list Z) :
  protocol_ok self -> sock_inv s -> websocket_phase s = WebSocketPhaseSize ->
  io_pending s = field ++ rest -> size field = websocket_need s ->
  fst (websocket_parse_size (set_io_pending rest s) field (m_websockets_max_size self)) = true ->
  (runs self (size (io_pending s)) s r
   <-> runs self (size rest)
         (snd (websocket_parse_size (set_io_pending rest s) field
                 (m_websockets_max_size self))) r).
Proof.
  intros Hok Hinv Hphase Hpending Hsz Hacc.
  pose proof Hinv as [Hio Hneed]. rewrite Hphase in Hneed.
  pose proof (size_nonneg rest) as Hrest.
  assert (Hguard : need_more_data (size (io_pending s)) s = false).
  { unfold need_more_data. rewrite Hphase, Hpending, size_app, Hsz.
    destruct (Z.eqb_spec (websocket_need s + size rest) 0); [exfalso; lia|].
    destruct (Z.eqb_spec (websocket_need s) 0); [exfalso; lia|].
    destruct (Z.ltb_spec (websocket_need s + size rest) (websocket_need s)); [exfalso; lia|].
    reflexivity. }
  destruct (turn_field self _ s Hok Hinv eq_refl Hguard) as (_ & _ & _ & Ht); [congruence|].
  rewrite Hphase, Hpending in Ht. rewrite <- Hsz in Ht.
  rewrite left_app_l, left_size, mid_app_l, mid_all, size_app in Ht by lia.
  cbn [app] in Ht.
  destruct (websocket_parse_size (set_io_pending rest s) field (m_websockets_max_size self))
    as [ok s'].
  cbn [fst snd] in *. subst ok.
  replace (size field + size rest - size field) with (size rest) in Ht by lia.
  rewrite <- size_app, <- Hpending in Ht. exact (runs_again self _ _ s s' r Ht).
Qed.

Lemma runs_mask (self : ProtocolWebSocket) (s r : Socket) (key rest : list Z) :
  protocol_ok self -> sock_inv s -> websocket_phase s = WebSocketPhaseMask ->
  io_pending s = key ++ rest -> length key = 4%nat ->
  (runs self (size (io_pending s)) s r
   <-> runs self (size rest) (websocket_parse_mask self (set_io_pending rest s) key) r).
Proof.
  intros Hok Hinv Hphase Hpending Hkey.
  pose proof Hinv as [Hio Hneed]. rewrite Hphase in Hneed. destruct Hneed as [Hneed Hps].
  pose proof (size_nonneg rest) as Hrest.
  assert (Hsz : size key = 4) by (unfold size; lia).
  assert (Hguard : need_more_data (size (io_pending s)) s = false).
  { unfold need_more_data. rewrite Hphase, Hpending, size_app, Hsz, Hneed.
    destruct (Z.eqb_spec (4 + size rest) 0); [exfalso; lia|].
    destruct (Z.ltb_spec (4 + size rest) 4); [exfalso; lia|].
    reflexivity. }
  destruct (turn_field self _ s Hok Hinv eq_refl Hguard) as (_ & _ & _ & Ht); [congruence|].
  rewrite Hphase, Hpending, Hneed in Ht. rewrite <- Hsz in Ht.
  rewrite left_app_l, left_size, mid_app_l, mid_all, size_app in Ht by lia.
  cbn [app] in Ht.
  replace (size key + size rest - size key) with (size rest) in Ht by lia.
  rewrite <- size_app, <- Hpending in Ht. exact (runs_again self _ _ s _ r Ht).
Qed.

Lemma runs_nothing (self : ProtocolWebSocket) (s r : Socket) :
  runs self 0 s r <-> r = s.
Proof. apply runs_return, turn_guard. reflexivity. Qed.

Lemma runs_quiescent (self : ProtocolWebSocket) (avail : Z) (s : Socket) :
  need_more_data avail s = true -> runs self avail s s.
Proof. intros H. now apply (runs_return self avail s s s (turn_guard self avail s H)). Qed.

Lemma client_header_form (fin : bool) (opcode len : Z) :
  0 <= opcode < 16 -> 0 <= len ->
  client_header fin opcode len
  = (if fin then 0x80 + opcode else opcode) :: (0x80 + length_field len) :: extended_length len.
Proof.
  intros Hop Hlen. unfold client_header, length_field, extended_length.
  assert (Hq : quint8 (0x80 + opcode) = 0x80 + opcode)
    by (apply quint8_byte; unfold is_byte; lia).
  destruct (Z.ltb_spec len 126); [|destruct (Z.leb_spec len 65535)].
  - rewrite createWebsocketHeader_7bit, Hq by lia.
    destruct fin; f_equal; f_equal; lia.
  - rewrite createWebsocketHeader_16bit, Hq by lia.
    destruct fin; f_equal; f_equal; lia.
  - rewrite createWebsocketHeader_64bit, Hq by lia.
    destruct fin; f_equal; f_equal; lia.
Qed.

Lemma length_field_range (len : Z) : 0 <= len -> 0 <= length_field len < 128.
Proof.
  intros H. unfold length_field.
  destruct (Z.ltb_spec len 126); [|destruct (Z.leb_spec len 65535)]; lia.
Qed.

Lemma land_0x7f_masked (x : Z) : 0 <= x < 128 -> Z.land (0x80 + x) 0x7f = x.
Proof.
  intros H. rewrite land_0x7f. replace (0x80 + x) with (x + 1 * 128) by lia.
  rewrite Z.mod_add by lia. apply Z.mod_small. lia.
Qed.

(** The header of a client frame and its extended length, decoded: the loop
    reaches the mask phase with the length the frame was encoded for. *)
Lemma runs_client_header (self : ProtocolWebSocket) (s r : Socket) (fin : bool)
    (opcode len : Z) (rest : list Z) :
  let byte1 := if fin then 0x80 + opcode else opcode in
  let byte2 := 0x80 + length_field len in
  protocol_ok self -> sock_inv s -> websocket_phase s = WebSocketPhaseHeaders ->
  io_pending s = client_header fin opcode len ++ rest ->
  0 <= opcode < 16 -> 0 <= len < 2 ^ 64 ->
  len < 126 \/ len <= m_websockets_max_size self ->
  ~ header_violation byte1 byte2 (websocket_continue_opcode s) ->
  (runs self (size (io_pending s)) s r
   <-> runs self (size rest)
         (set_phase WebSocketPhaseMask
            (set_need 4 (set_payload_size len (begin_frame byte1 (set_io_pending rest s))))) r).
Proof.
  intros byte1 byte2 Hok Hinv Hphase Hpending Hop Hlen Hfit Hv.
  pose proof Hok as [Hpbs Hmax]. pose proof Hinv as [Hio Hneed].
  rewrite client_header_form in Hpending by lia. fold byte1 byte2 in Hpending.
  cbn [app] in Hpending.
  assert (H1 : is_byte byte1) by (unfold byte1, is_byte; destruct fin; lia).
  pose proof (length_field_range len ltac:(lia)) as Hlf.
  assert (H2 : is_byte byte2) by (unfold byte2, is_byte; lia).
  rewrite (runs_header self s r byte1 byte2 (extended_length len ++ rest))
    by assumption.
  rewrite websocket_parse_header_eq by assumption. cbv zeta.
  replace (header_refused byte1 byte2
             (websocket_continue_opcode (set_io_pending (extended_length len ++ rest) s)))
    with false
    by (symmetry; apply not_true_is_false; intros E; apply Hv; now apply header_refused_iff).
  assert (Hl7 : Z.land byte2 0x7f = length_field len)
    by (unfold byte2; now apply land_0x7f_masked).
  cbn [snd]. rewrite !Hl7. clear Hl7.
  assert (Hq64 : quint64 (m_websockets_max_size self) = m_websockets_max_size self)
    by (unfold quint64; apply Z.mod_small; lia).
  unfold begin_frame. cbv zeta.
  unfold length_field, extended_length in *.
  destruct (Z.ltb_spec len 126) as [Hs|Hs]; [|destruct (Z.leb_spec len 65535) as [Hm|Hm]].
  - (* the 7-bit form *)
    destruct (Z.eqb_spec len 126); [exfalso; lia|].
    destruct (Z.eqb_spec len 127); [exfalso; lia|].
    cbn [app].
    destruct ((quint8 (Z.land byte1 15) =? OpCodeText)
              || (quint8 (Z.land byte1 15) =? OpCodeBinary));
      [destruct (negb (nonzero (Z.land byte1 128)))|]; reflexivity.
  - (* 16 bits *)
    cbn [Z.eqb Pos.eqb].
    match goal with |- runs _ _ ?x _ <-> _ => set (sH := x) end.
    assert (HinvH : sock_inv sH).
    { split; [|left]; unfold sH;
        destruct ((quint8 (Z.land byte1 15) =? OpCodeText)
                  || (quint8 (Z.land byte1 15) =? OpCodeBinary));
        [destruct (negb (nonzero (Z.land byte1 128)))| |
         destruct (negb (nonzero (Z.land byte1 128)))|]; (exact Hio || reflexivity). }
    assert (HsH : websocket_phase sH = WebSocketPhaseSize /\ websocket_need sH = 2
                  /\ websocket_payload_size sH = 126
                  /\ io_pending sH = [(len / 2 ^ 8) mod 256; len mod 256] ++ rest).
    { unfold sH;
        destruct ((quint8 (Z.land byte1 15) =? OpCodeText)
                  || (quint8 (Z.land byte1 15) =? OpCodeBinary));
        [destruct (negb (nonzero (Z.land byte1 128)))|]; repeat split. }
    destruct HsH as (Hp & Hn & Hps & Hpend).
    assert (Hdec : websocket_parse_size (set_io_pending rest sH)
                     [(len / 2 ^ 8) mod 256; len mod 256] (m_websockets_max_size self)
                   = (true, set_phase WebSocketPhaseMask
                              (set_need 4 (set_payload_size len (set_io_pending rest sH))))).
    { unfold websocket_parse_size. sock_simpl. rewrite Hps, Hq64. cbn [Z.eqb Pos.eqb].
      rewrite ws_be16_value by apply mod256_is_byte.
      rewrite be_value_2 by (change (2 ^ 16) with 65536; lia).
      destruct (Z.ltb_spec (m_websockets_max_size self) len); [exfalso; lia|]. reflexivity. }
    replace (size ([(len / 2 ^ 8) mod 256; len mod 256] ++ rest))
      with (size (io_pending sH)) by now rewrite Hpend.
    rewrite (runs_size self sH r [(len / 2 ^ 8) mod 256; len mod 256] rest Hok HinvH Hp Hpend)
      by (rewrite ?Hdec, ?Hn; reflexivity).
    rewrite Hdec. cbn [snd]. unfold sH.
    destruct ((quint8 (Z.land byte1 15) =? OpCodeText)
              || (quint8 (Z.land byte1 15) =? OpCodeBinary));
      [destruct (negb (nonzero (Z.land byte1 128)))|]; reflexivity.
  - (* 64 bits *)
    cbn [Z.eqb Pos.eqb].
    match goal with |- runs _ _ ?x _ <-> _ => set (sH := x) end.
    set (field := [(len / 2 ^ 56) mod 256; (len / 2 ^ 48) mod 256; (len / 2 ^ 40) mod 256;
                   (len / 2 ^ 32) mod 256; (len / 2 ^ 24) mod 256; (len / 2 ^ 16) mod 256;
                   (len / 2 ^ 8) mod 256; len mod 256]).
    assert (HinvH : sock_inv sH).
    { split; [|right]; unfold sH;
        destruct ((quint8 (Z.land byte1 15) =? OpCodeText)
                  || (quint8 (Z.land byte1 15) =? OpCodeBinary));
        [destruct (negb (nonzero (Z.land byte1 128)))| |
         destruct (negb (nonzero (Z.land byte1 128)))|]; (exact Hio || reflexivity). }
    assert (HsH : websocket_phase sH = WebSocketPhaseSize /\ websocket_need sH = 8
                  /\ websocket_payload_size sH = 127
                  /\ io_pending sH = field ++ rest).
    { unfold sH;
        destruct ((quint8 (Z.land byte1 15) =? OpCodeText)
                  || (quint8 (Z.land byte1 15) =? OpCodeBinary));
        [destruct (negb (nonzero (Z.land byte1 128)))|]; repeat split. }
    destruct HsH as (Hp & Hn & Hps & Hpend).
    assert (Hdec : websocket_parse_size (set_io_pending rest sH) field
                     (m_websockets_max_size self)
                   = (true, set_phase WebSocketPhaseMask
                              (set_need 4 (set_payload_size len (set_io_pending rest sH))))).
    { unfold websocket_parse_size. sock_simpl. rewrite Hps, Hq64. cbn [Z.eqb Pos.eqb].
      unfold field. rewrite ws_be64_value by apply mod256_is_byte.
      rewrite be_value_8 by lia.
      destruct (Z.ltb_spec (m_websockets_max_size self) len); [exfalso; lia|]. reflexivity. }
    replace (size (field ++ rest)) with (size (io_pending sH)) by now rewrite Hpend.
    rewrite (runs_size self sH r field rest Hok HinvH Hp Hpend)
      by (rewrite ?Hdec, ?Hn; reflexivity).
    rewrite Hdec. cbn [snd]. unfold sH.
    destruct ((quint8 (Z.land byte1 15) =? OpCodeText)
              || (quint8 (Z.land byte1 15) =? OpCodeBinary));
      [destruct (negb (nonzero (Z.land byte1 128)))|]; reflexivity.
Qed.

(** ** C9: a Pong of any length *)

Lemma frame_complete_pong (self : ProtocolWebSocket) (s : Socket) :
  websocket_finn_opcode s = 0x8A ->
  frame_complete self s
  = (true, emit (WebSocketPong (websocket_payload s))
             (set_phase WebSocketPhaseHeaders (set_need 2 s))).
Proof.
  intros H. unfold frame_complete. cbv zeta. sock_simpl. rewrite H. reflexivity.
Qed.

Lemma pong_header_accepted (byte2 continue_opcode : Z) :
  is_byte byte2 -> Z.testbit byte2 7 = true -> ~ header_violation 0x8A byte2 continue_opcode.
Proof.
  intros Hb Hm. unfold header_violation. change (0x8A mod 16) with 10.
  change (Z.testbit 0x8A 4) with false. change (Z.testbit 0x8A 5) with false.
  change (Z.testbit 0x8A 6) with false. change (Z.testbit 0x8A 7) with true.
  unfold OpCodePing, OpCodeClose, OpCodeText, OpCodeBinary, OpCodeContinue.
  rewrite Hm. intuition (try discriminate; try lia).
Qed.

Lemma testbit7_masked (x : Z) : 0 <= x < 128 -> Z.testbit (0x80 + x) 7 = true.
Proof.
  intros H.
  assert (Hb : is_byte (0x80 + x)) by (unfold is_byte; lia).
  rewrite <- (mask_bit_test _ Hb). rewrite shiftr_div by lia.
  replace ((0x80 + x) / 2 ^ 7) with 1; [reflexivity|].
  change (2 ^ 7) with 128. apply Z.div_unique with (r := x); lia.
Qed.

Lemma client_mask_unmask (key payload : list Z) :
  unmask_all (load_le 4 key) 0 (client_mask key payload) = payload.
Proof.
  unfold unmask_all, client_mask. rewrite length_unmask. apply unmask_twice.
Qed.

Lemma size_client_mask (key payload : list Z) : size (client_mask key payload) = size payload.
Proof. unfold size, client_mask. now rewrite length_unmask. Qed.

(** C9. A masked Pong frame with FIN set is accepted by the header decoder
    whatever its 7-bit length field, while a Ping or a Close with a length
    field above 125 is refused; and a Pong whose payload is shorter than 126
    bytes or no longer than the maximum message size, in the 7-bit, 16-bit or
    64-bit form of the length, is decoded to the end: the session gets the
    pong notification with the whole unmasked payload, nothing else happens,
    and the decoder awaits the next header. *)
Theorem pong_any_length (self : ProtocolWebSocket) (s : Socket) (key payload : list Z) :
  protocol_ok self -> sock_inv s -> websocket_phase s = WebSocketPhaseHeaders ->
  io_pending s = [] -> length key = 4%nat ->
  size payload < 126 \/ size payload <= m_websockets_max_size self ->
  (forall byte2 sock stale, is_byte byte2 -> Z.testbit byte2 7 = true ->
     fst (websocket_parse_header self sock (0x8A :: byte2 :: stale)) = true
     /\ (125 < byte2 mod 128 ->
         fst (websocket_parse_header self sock (0x89 :: byte2 :: stale)) = false
         /\ fst (websocket_parse_header self sock (0x88 :: byte2 :: stale)) = false))
  /\ readyRead self (receive (client_frame true OpCodePong key payload) s)
     = Some (emit (WebSocketPong payload)
               (set_phase WebSocketPhaseHeaders
                  (set_need 2
                     (set_payload payload
                        (set_mask (load_le 4 key)
                           (set_payload_size (size payload) (set_finn_opcode 0x8A s))))))).
Proof.
  intros Hok Hinv Hphase Hpending Hkey Hfit. split.
  { intros byte2 sock stale Hb Hm.
    assert (H8A : is_byte 0x8A) by (unfold is_byte; lia).
    assert (H89 : is_byte 0x89) by (unfold is_byte; lia).
    assert (H88 : is_byte 0x88) by (unfold is_byte; lia).
    split; [|intros Hlen; split].
    - destruct (websocket_parse_header_refuses_iff self sock 0x8A byte2 stale H8A Hb)
        as [Hiff _].
      destruct (fst (websocket_parse_header self sock (0x8A :: byte2 :: stale)));
        [reflexivity|].
      exfalso. apply (pong_header_accepted byte2 (websocket_continue_opcode sock) Hb Hm).
      now apply Hiff.
    - apply (websocket_parse_header_refuses_iff self sock 0x89 byte2 stale H89 Hb).
      unfold header_violation. right. left. split; [now left | exact Hlen].
    - apply (websocket_parse_header_refuses_iff self sock 0x88 byte2 stale H88 Hb).
      unfold header_violation. right. left. split; [now right | exact Hlen]. }
  pose proof Hok as [Hpbs Hmax]. pose proof Hinv as [Hio Hneed].
  pose proof (size_nonneg payload) as Hp0.
  set (len := size payload) in *.
  set (masked := client_mask key payload).
  set (s0 := receive (client_frame true OpCodePong key payload) s).
  assert (Hinv0 : sock_inv s0) by exact Hinv.
  assert (Hpend0 : io_pending s0 = client_header true OpCodePong len ++ (key ++ masked)).
  { unfold s0, receive. sock_simpl. rewrite Hpending. reflexivity. }
  assert (Hlen64 : 0 <= len < 2 ^ 64) by lia.
  pose proof (length_field_range len Hp0) as Hlf.
  apply (readyRead_runs self s0 _ Hok Hinv0).
  rewrite (runs_client_header self s0 _ true OpCodePong len (key ++ masked) Hok Hinv0 Hphase
             Hpend0 ltac:(unfold OpCodePong; lia) Hlen64 Hfit).
  2: { apply pong_header_accepted; [unfold is_byte; lia | now apply testbit7_masked]. }
  change (begin_frame (0x80 + OpCodePong) (set_io_pending (key ++ masked) s0))
    with (set_finn_opcode 0x8A (set_io_pending (key ++ masked) s0)).
  match goal with |- runs _ _ ?x _ => set (sM := x) end.
  assert (HinvM : sock_inv sM).
  { split; [exact Hio|]. unfold sM. sock_simpl. split; [reflexivity | lia]. }
  replace (size (key ++ masked)) with (size (io_pending sM)) by reflexivity.
  rewrite (runs_mask self sM _ key masked Hok HinvM eq_refl eq_refl Hkey).
  rewrite websocket_parse_mask_eq. cbv zeta. unfold sM. sock_simpl.
  assert (Hq : quint32 len = len) by (apply quint32_small; lia).
  rewrite Hq.
  destruct (Z.eqb_spec len 0) as [E|E].
  - (* an empty payload *)
    rewrite frame_complete_pong by reflexivity. cbn [snd]. sock_simpl.
    assert (Hnil : payload = []) by (destruct payload; [reflexivity | discriminate E]).
    unfold masked. rewrite Hnil. apply runs_nothing.
    apply socket_eq; sock_simpl; try reflexivity. exact Hpending.
  - (* the payload phase *)
    match goal with |- runs _ _ ?x _ => set (sP := x) end.
    assert (HinvP : sock_inv sP).
    { split; [exact Hio|]. unfold sP. sock_simpl. change (size []) with 0. lia. }
    assert (Hsz : size masked = len) by apply size_client_mask.
    destruct (runs_payload self (Z.to_nat (websocket_need sP)) (size masked) sP
                (emit (WebSocketPong payload)
                   (set_phase WebSocketPhaseHeaders
                      (set_need 2
                         (set_payload payload
                            (set_mask (load_le 4 key)
                               (set_payload_size len (set_finn_opcode 0x8A s)))))))
                Hok HinvP eq_refl eq_refl (Nat.le_refl _)) as [_ Hb].
    apply Hb; [unfold sP; sock_simpl; lia|].
    change (websocket_need sP) with len.
    rewrite frame_complete_pong by reflexivity.
    rewrite Hsz, Z.sub_diag. apply runs_nothing.
    apply socket_eq; unfold absorb, sP; sock_simpl; try reflexivity.
    + change (size []) with 0. rewrite <- Hsz, left_size. unfold masked.
      now rewrite client_mask_unmask.
    + rewrite Hpending. symmetry. apply mid_all. lia.
    + change (size []) with 0. rewrite <- Hsz, left_size. unfold masked.
      now rewrite client_mask_unmask.
Qed.

Lemma pong_any_length_witness :
  readyRead default_protocol
    (receive (client_frame true OpCodePong [1; 2; 3; 4] (repeat 0x41 200)) upgraded_socket)
  = Some (emit (WebSocketPong (repeat 0x41 200))
            (set_phase WebSocketPhaseHeaders
               (set_need 2
                  (set_payload (repeat 0x41 200)
                     (set_mask (load_le 4 [1; 2; 3; 4])
                        (set_payload_size 200 (set_finn_opcode 0x8A upgraded_socket))))))).
Proof.
  refine (proj2 (pong_any_length default_protocol upgraded_socket [1; 2; 3; 4]
                   (repeat 0x41 200) _ _ eq_refl eq_refl eq_refl _)).
  - split; [vm_compute; discriminate | split; vm_compute; [discriminate | reflexivity]].
  - split; reflexivity.
  - right. vm_compute. discriminate.
Defined.


(** ** C5: the length, encoded and decoded *)

Lemma begin_frame_frame (byte1 : Z) (s : Socket) :
  closed (begin_frame byte1 s) = closed s /\ trace (begin_frame byte1 s) = trace s
  /\ io_pending (begin_frame byte1 s) = io_pending s
  /\ websocket_finn_opcode (begin_frame byte1 s) = byte1.
Proof.
  unfold begin_frame. cbv zeta.
  destruct (_ || _); [destruct (negb _)|]; repeat split.
Qed.

Lemma extended_length_bytes (len : Z) : Forall is_byte (extended_length len).
Proof.
  unfold extended_length.
  destruct (len <? 126); [constructor|].
  destruct (len <=? 65535); repeat constructor; apply mod256_is_byte.
Qed.

(** The claim as it stands fails: the encoder writes server frames, without
    the mask bit, and the header decoder refuses them, so that the length
    recorded for 127 is the 7-bit field 126; and 2^32 is above any maximum
    message size, so that even with the mask bit set the length recorded is
    the 7-bit field 127. *)
Lemma header_roundtrip_as_claimed_fails :
  ~ (forall L, In L boundary_lengths ->
       decoded_length default_protocol (createWebsocketHeader OpCodeText L) = Some L)
  /\ ~ (forall L, In L boundary_lengths ->
       decoded_length default_protocol (client_header true OpCodeText L) = Some L).
Proof.
  split; intros H.
  - specialize (H 127 ltac:(cbn; tauto)). vm_compute in H. discriminate.
  - specialize (H (2 ^ 32) ltac:(cbn; tauto)). vm_compute in H. discriminate.
Qed.

(** C5, amended. For every payload length [L] of 64 bits, the listed boundary
    values among them, the encoder writes the opcode byte, then [L] itself
    when [L < 126], the marker 126 and the 2 big-endian bytes of [L] when
    [L <= 65535], the marker 127 and the 8 big-endian bytes of [L] otherwise,
    and [ws_be16], [ws_be64] read [L] back from those bytes.  The decoder run
    over the header yields [L] as the declared payload length, and awaits the
    4 bytes of the mask, when the mask bit is set in the second byte, the
    header is not refused for another reason, and [L] is below 126 or not
    above the maximum message size. *)
Theorem header_roundtrip (self : ProtocolWebSocket) (s : Socket) (opcode L : Z) :
  0 <= opcode < 16 -> 0 <= L < 2 ^ 64 ->
  (createWebsocketHeader opcode L = (0x80 + opcode) :: length_field L :: extended_length L
   /\ (L < 126 -> length_field L = L /\ extended_length L = [])
   /\ (126 <= L <= 65535 ->
       length_field L = 126 /\ length (extended_length L) = 2%nat
       /\ be_value (extended_length L) = L /\ ws_be16 (extended_length L) = L)
   /\ (65535 < L ->
       length_field L = 127 /\ length (extended_length L) = 8%nat
       /\ be_value (extended_length L) = L /\ ws_be64 (extended_length L) = L))
  /\ (protocol_ok self -> sock_inv s -> websocket_phase s = WebSocketPhaseHeaders ->
      io_pending s = [] ->
      ~ header_violation (0x80 + opcode) (0x80 + length_field L)
          (websocket_continue_opcode s) ->
      L < 126 \/ L <= m_websockets_max_size self ->
      exists r,
        readyRead self (receive (client_header true opcode L) s) = Some r
        /\ websocket_payload_size r = L
        /\ websocket_phase r = WebSocketPhaseMask /\ websocket_need r = 4
        /\ closed r = closed s /\ trace r = trace s).
Proof.
  intros Hop HL. split.
  - assert (Hq : quint8 (0x80 + opcode) = 0x80 + opcode)
      by (apply quint8_byte; unfold is_byte; lia).
    unfold length_field, extended_length.
    destruct (Z.ltb_spec L 126); [|destruct (Z.leb_spec L 65535)].
    + rewrite createWebsocketHeader_7bit, Hq by lia.
      repeat split; intros; try reflexivity; exfalso; lia.
    + rewrite createWebsocketHeader_16bit, Hq by lia.
      split; [reflexivity|]. split; [intros; exfalso; lia|]. split; [|intros; exfalso; lia].
      intros _. rewrite ws_be16_value by apply mod256_is_byte.
      rewrite be_value_2 by (change (2 ^ 16) with 65536; lia). repeat split.
    + rewrite createWebsocketHeader_64bit, Hq by lia.
      split; [reflexivity|]. split; [intros; exfalso; lia|]. split; [intros; exfalso; lia|].
      intros _. rewrite ws_be64_value by apply mod256_is_byte.
      rewrite be_value_8 by lia. repeat split.
  - intros Hok Hinv Hphase Hpending Hv Hfit.
    set (s0 := receive (client_header true opcode L) s).
    assert (Hinv0 : sock_inv s0) by exact Hinv.
    assert (Hpend0 : io_pending s0 = client_header true opcode L ++ []).
    { unfold s0, receive. sock_simpl. rewrite Hpending, app_nil_r. reflexivity. }
    set (r := set_phase WebSocketPhaseMask
                (set_need 4
                   (set_payload_size L (begin_frame (0x80 + opcode) (set_io_pending [] s0))))).
    exists r. split.
    + apply (readyRead_runs self s0 _ Hok Hinv0).
      rewrite (runs_client_header self s0 r true opcode L [] Hok Hinv0 Hphase Hpend0 Hop HL
                 Hfit Hv).
      now apply runs_nothing.
    + destruct (begin_frame_frame (0x80 + opcode) (set_io_pending [] s0)) as (Hc & Ht & _).
      unfold r. sock_simpl. rewrite Hc, Ht. repeat split.
Qed.

Lemma header_roundtrip_witness :
  exists r,
    readyRead default_protocol (receive (client_header true OpCodeBinary 65536) upgraded_socket)
    = Some r
    /\ websocket_payload_size r = 65536
    /\ websocket_phase r = WebSocketPhaseMask /\ websocket_need r = 4
    /\ closed r = false /\ trace r = [].
Proof.
  refine (proj2 (header_roundtrip default_protocol upgraded_socket OpCodeBinary 65536 _ _)
            _ _ eq_refl eq_refl _ _).
  - unfold OpCodeBinary. lia.
  - lia.
  - split; [vm_compute; discriminate | split; vm_compute; [discriminate | reflexivity]].
  - split; reflexivity.
  - intros V.
    apply (proj2 (header_refused_iff (0x80 + OpCodeBinary) (0x80 + length_field 65536) 0
                    ltac:(vm_compute; split; [discriminate | reflexivity])
                    ltac:(vm_compute; split; [discriminate | reflexivity]))) in V.
    vm_compute in V. discriminate.
  - right. vm_compute. discriminate.
Defined.

(** ** C2: the reads may be split anywhere *)

Lemma receive_receive (a b : QByteArray) (s : Socket) :
  receive b (receive a s) = receive (a ++ b) s.
Proof. unfold receive. sock_simpl. now rewrite app_assoc. Qed.

Lemma receive_nil (s : Socket) : receive [] s = s.
Proof. apply socket_eq; unfold receive; sock_simpl; try reflexivity. apply app_nil_r. Qed.

Lemma receive_set_io_pending (b pending : QByteArray) (s : Socket) :
  receive b (set_io_pending pending s) = set_io_pending (pending ++ b) s.
Proof. reflexivity. Qed.

Lemma need_more_data_receive (avail : Z) (b : QByteArray) (s : Socket) :
  0 <= avail -> need_more_data avail s = false ->
  need_more_data (avail + size b) (receive b s) = false.
Proof.
  intros Ha H. destruct (need_more_data_false _ _ H) as (H0 & Hn & Hle).
  pose proof (size_nonneg b). unfold need_more_data.
  change (websocket_need (receive b s)) with (websocket_need s).
  change (websocket_phase (receive b s)) with (websocket_phase s).
  destruct (Z.eqb_spec (avail + size b) 0); [exfalso; lia|].
  destruct (Z.eqb_spec (websocket_need s) 0); [exfalso; lia|].
  cbn [orb]. destruct (websocket_phase s) eqn:Hp; cbn [is_payload_phase negb].
  1-3: rewrite andb_true_r; apply Z.ltb_ge;
    assert (websocket_need s <= avail) by (apply Hle; congruence); lia.
  apply andb_false_r.
Qed.

(** A turn that finds the bytes of its read reads the same ones when more
    bytes are pending behind them. *)
Lemma turn_receive (self : ProtocolWebSocket) (avail : Z) (b : QByteArray) (s : Socket) :
  protocol_ok self -> sock_inv s -> avail = size (io_pending s) ->
  need_more_data avail s = false ->
  websocket_phase s <> WebSocketPhasePayload
  \/ Z.min (websocket_need s) (quint32 (m_postBufferSize self)) <= avail ->
  readyRead_turn self (avail + size b) (receive b s)
  = receive_turn b (readyRead_turn self avail s).
Proof.
  intros Hok Hinv Havail Hguard Hsame.
  pose proof (size_nonneg (io_pending s)) as Hnonneg. pose proof (size_nonneg b) as Hb.
  assert (Hinv' : sock_inv (receive b s)) by exact Hinv.
  assert (Havail' : avail + size b = size (io_pending (receive b s))).
  { unfold receive. sock_simpl. rewrite size_app. lia. }
  assert (Hguard' := need_more_data_receive avail b s ltac:(lia) Hguard).
  destruct (need_more_data_false _ _ Hguard) as (Ha0 & Hn0 & Hle).
  destruct (websocket_phase s) eqn:Hphase.
  1-3: destruct (turn_field self avail s Hok Hinv Havail Hguard) as (Hsz & _ & Hn28 & ->);
    [congruence|];
    destruct (turn_field self _ (receive b s) Hok Hinv' Havail' Hguard') as (_ & _ & _ & ->);
    [change (websocket_phase (receive b s)) with (websocket_phase s); congruence|];
    change (websocket_phase (receive b s)) with (websocket_phase s);
    change (websocket_need (receive b s)) with (websocket_need s);
    change (io_pending (receive b s)) with (io_pending s ++ b);
    assert (Hle' : websocket_need s <= size (io_pending s))
      by (rewrite <- Havail; apply Hle; congruence);
    rewrite left_app_l, mid_app_l by assumption;
    rewrite Hphase; unfold receive at 1; sock_simpl.
  - (* header *)
    rewrite !websocket_parse_header_pending.
    destruct (websocket_parse_header self s (left (io_pending s) (websocket_need s)))
      as [[|] s']; cbn [fst snd receive_turn]; rewrite receive_set_io_pending;
      try reflexivity; f_equal; (lia || reflexivity).
  - (* extended length *)
    rewrite !websocket_parse_size_pending.
    destruct (websocket_parse_size s (left (io_pending s) (websocket_need s))
                (m_websockets_max_size self))
      as [[|] s']; cbn [fst snd receive_turn]; rewrite receive_set_io_pending;
      try reflexivity; f_equal; (lia || reflexivity).
  - (* mask *)
    rewrite !websocket_parse_mask_pending. cbn [receive_turn].
    rewrite receive_set_io_pending. f_equal; (lia || reflexivity).
  - (* payload *)
    destruct Hsame as [Hsame|Hsame]; [now elim Hsame|].
    assert (Ha1 : 1 <= avail) by lia.
    rewrite (turn_payload self avail s Hok Hinv Havail Hphase Ha1).
    rewrite (turn_payload self _ (receive b s) Hok Hinv' Havail' Hphase ltac:(lia)).
    change (websocket_need (receive b s)) with (websocket_need s).
    set (c := Z.min (websocket_need s) (quint32 (m_postBufferSize self))) in *.
    rewrite !Z.min_l by lia.
    rewrite absorb_receive by lia.
    destruct (c <? websocket_need s).
    + cbn [receive_turn]. f_equal; lia.
    + unfold receive at 1. rewrite frame_complete_pending.
      pose proof (frame_complete_frame self (absorb c s)) as F. cbv zeta in F.
      destruct F as (F1 & _).
      destruct (frame_complete self (absorb c s)) as [[|] s']; cbn [fst snd receive_turn] in *;
        unfold receive; rewrite F1; try reflexivity; f_equal; lia.
Qed.

(** The bytes of a later read do not change what the loop did with the ones
    before them, as long as the connection was not closed with bytes left
    unread. *)
Lemma runs_receive (self : ProtocolWebSocket) (n : nat) :
  forall (s res : Socket) (b : QByteArray),
    protocol_ok self -> sock_inv s -> (length (io_pending s) <= n)%nat ->
    runs self (size (io_pending s) + size b) (receive b s) res ->
    closed res = false \/ io_pending res = [] ->
    exists m, runs self (size (io_pending s)) s m /\ sock_inv m
              /\ runs self (size (io_pending m) + size b) (receive b m) res.
Proof.
  induction n as [|n IH]; intros s res b Hok Hinv Hn Hrun Hres.
  { (* nothing pending *)
    exists s. split; [|split; [assumption|assumption]].
    apply runs_quiescent. unfold need_more_data.
    replace (size (io_pending s)) with 0 by (unfold size; lia). reflexivity. }
  set (avail := size (io_pending s)) in *.
  pose proof (size_nonneg (io_pending s)) as Hnonneg. pose proof (size_nonneg b) as Hb.
  destruct (need_more_data avail s) eqn:Hguard.
  { exists s. split; [|split; [assumption|assumption]].
    now apply runs_quiescent. }
  destruct (need_more_data_false _ _ Hguard) as (Ha0 & Hn0 & Hle).
  pose proof (turn_inv self avail s Hok Hinv eq_refl) as T.
  assert (Hsame_case :
            forall (Hsame : websocket_phase s <> WebSocketPhasePayload
                            \/ Z.min (websocket_need s) (quint32 (m_postBufferSize self))
                               <= avail),
            exists m, runs self avail s m /\ sock_inv m
                      /\ runs self (size (io_pending m) + size b) (receive b m) res).
  { intros Hsame.
    pose proof (turn_receive self avail b s Hok Hinv eq_refl Hguard Hsame) as Ht.
    destruct (readyRead_turn self avail s) as [s'|avail' s'] eqn:Et; cbn [receive_turn] in Ht.
    - (* the function returned: the connection is closed *)
      destruct T as (Hinv' & _ & [[Hg _]|[_ Hc]]); [congruence|].
      apply (runs_return self _ _ _ res Ht) in Hrun. subst res.
      destruct Hres as [Hres|Hres]; [cbn in Hres; congruence|].
      unfold receive in Hres. sock_simpl_in Hres.
      apply app_eq_nil in Hres. destruct Hres as [Hp ->].
      exists s'. split; [now apply (runs_return self avail s s' s' Et)|]. split; [assumption|].
      rewrite receive_nil, Hp. now apply runs_nothing.
    - destruct T as (Hinv' & _ & Ha' & Hdec & _).
      apply (runs_again self _ _ _ _ res Ht) in Hrun. rewrite Ha' in Hrun.
      destruct (IH s' res b Hok Hinv') as (m & Hm & Hi & Hr); try assumption.
      { unfold avail, size in *. lia. }
      exists m. split; [|split; assumption].
      apply (runs_again self _ _ _ _ m Et). now rewrite Ha'. }
  destruct (websocket_phase s) eqn:Hphase; try (apply Hsame_case; left; congruence).
  pose proof Hok as [Hpbs Hmax]. pose proof Hinv as [Hio Hinv']. rewrite Hphase in Hinv'.
  destruct Hinv' as (Hn1 & Hsum & Hps).
  destruct (Z_le_gt_dec (Z.min (websocket_need s) (quint32 (m_postBufferSize self))) avail)
    as [Hsame|Hshort]; [apply Hsame_case; now right|].
  (* the payload phase, with fewer bytes than one read takes *)
  assert (Hlt : avail < websocket_need s) by lia.
  destruct (absorb_inv avail s Hinv Hphase) as (I1 & I2 & I3); [lia | unfold avail; lia |].
  assert (Hpm : io_pending (absorb avail s) = []).
  { change (io_pending (absorb avail s)) with (mid (io_pending s) avail).
    apply mid_all. unfold avail. lia. }
  exists (absorb avail s). split; [|split; [assumption|]].
  { destruct (runs_payload self (Z.to_nat (websocket_need s)) avail s (absorb avail s)
                Hok Hinv eq_refl Hphase (Nat.le_refl _)) as [Ha _].
    now apply Ha. }
  rewrite Hpm. change (size []) with 0. rewrite Z.add_0_l.
  set (X := receive b s) in *.
  assert (HinvX : sock_inv X) by exact Hinv.
  assert (HpX : size (io_pending X) = avail + size b).
  { unfold X, receive. sock_simpl. now rewrite size_app. }
  assert (HY : receive b (absorb avail s) = absorb avail X).
  { unfold X. symmetry. apply absorb_receive. unfold avail. lia. }
  rewrite HY.
  destruct (absorb_inv avail X HinvX Hphase) as (J1 & J2 & J3);
    [change (websocket_need X) with (websocket_need s); lia | lia |].
  change (websocket_need X) with (websocket_need s) in J2.
  destruct (runs_payload self (Z.to_nat (websocket_need s)) (avail + size b) X res
              Hok HinvX (eq_sym HpX) Hphase (Nat.le_refl _)) as [Xa Xb].
  change (websocket_need X) with (websocket_need s) in Xa, Xb.
  destruct (runs_payload self (Z.to_nat (websocket_need (absorb avail X))) (size b)
              (absorb avail X) res Hok J1 ltac:(lia) Hphase (Nat.le_refl _)) as [Ya Yb].
  rewrite J2 in Ya, Yb. rewrite !absorb_add in Ya, Yb by lia.
  destruct (Z_lt_le_dec (avail + size b) (websocket_need s)) as [Hless|Hmore].
  - apply Ya; [lia|]. apply Xa in Hrun; [|lia]. now rewrite Hrun.
  - apply Yb; [lia|]. apply Xb in Hrun; [|lia].
    replace (avail + (websocket_need s - avail)) with (websocket_need s) by lia.
    replace (size b - (websocket_need s - avail)) with (avail + size b - websocket_need s)
      by lia.
    exact Hrun.
Qed.

(** The unmasked byte at an index. *)
Lemma unmask_nth (mask : Z) (len : nat) :
  forall (maskIx : Z) (buf : list Z) (i : nat),
    (i < len)%nat -> (i < length buf)%nat ->
    nth i (unmask mask maskIx len buf) 0
    = Z.lxor (nth i buf 0) (mask_byte mask ((maskIx + Z.of_nat i) mod 4)).
Proof.
  induction len as [|len IH]; intros maskIx buf i Hi Hl; [lia|].
  destruct buf as [|x buf]; [cbn in Hl; lia|]. cbn [unmask].
  destruct i as [|i].
  - cbn [nth]. now rewrite Z.add_0_r.
  - cbn [nth]. rewrite IH by (cbn in Hl; lia). do 3 f_equal. lia.
Qed.

(** The bytes of the stored mask are the bytes of the key. *)
Lemma mask_byte_key (key : list Z) (j : Z) :
  Forall is_byte key -> 0 <= j < 4 ->
  mask_byte (load_le 4 key) j = nth (Z.to_nat j) key 0.
Proof.
  intros Hk Hj. unfold mask_byte. rewrite land_0xff, shiftr_div by lia.
  replace (8 * j) with (8 * Z.of_nat (Z.to_nat j)) by lia.
  rewrite (load_le_byte (Z.to_nat j) 4) by lia. unfold at_.
  destruct (nth_in_or_default (Z.to_nat j) key 0) as [Hin|Hd].
  - apply quint8_byte. rewrite Forall_forall in Hk. now apply Hk.
  - rewrite Hd. reflexivity.
Qed.

(** C2. Take a frame state of the decoder and a sequence of bytes which, read
    at once, leaves the connection open or is read to its last byte (a valid
    sequence: the decoder does not give up in front of bytes it will not
    read).  Then the bytes delivered in successive reads, cut anywhere, bring
    the socket to the very same state: the same payload and message buffers,
    the same phase, and the same notifications and writes in the same order.
    The payload byte at index [i] of a read is XORed with the byte of the mask
    key at the index, modulo 4, of [i] plus the payload bytes of the frame
    unmasked before. *)
Theorem readyRead_split_reads (self : ProtocolWebSocket) (s res : Socket)
    (reads : list QByteArray) :
  protocol_ok self -> sock_inv s -> reads <> [] ->
  readyRead self (receive (concat reads) s) = Some res ->
  closed res = false \/ io_pending res = [] ->
  on_reads self s reads = Some res
  /\ (forall (sock : Socket) (key buf : list Z) (i : nat),
        Forall is_byte key -> length key = 4%nat ->
        websocket_mask sock = load_le 4 key -> (i < length buf)%nat ->
        let running_index := size (websocket_payload sock) + Z.of_nat i in
        nth i (unmask (websocket_mask sock) (size (websocket_payload sock)) (length buf) buf) 0
        = Z.lxor (nth i buf 0) (nth (Z.to_nat (running_index mod 4)) key 0)).
Proof.
  intros Hok Hinv Hne Hrun Hres. split.
  - revert s Hinv Hrun. induction reads as [|a reads IH]; intros s Hinv Hrun; [now elim Hne|].
    destruct reads as [|b reads].
    + cbn [concat] in Hrun. rewrite app_nil_r in Hrun.
      cbn [on_reads]. unfold on_data. now rewrite Hrun.
    + set (rest := concat (b :: reads)) in *.
      change (concat (a :: b :: reads)) with (a ++ rest) in Hrun.
      rewrite <- receive_receive in Hrun.
      assert (Hinva : sock_inv (receive a s)) by exact Hinv.
      assert (Hinvab : sock_inv (receive rest (receive a s))) by exact Hinv.
      apply (readyRead_runs self _ _ Hok Hinvab) in Hrun.
      replace (size (io_pending (receive rest (receive a s))))
        with (size (io_pending (receive a s)) + size rest) in Hrun
        by (unfold receive; sock_simpl; now rewrite !size_app).
      destruct (runs_receive self (length (io_pending (receive a s))) (receive a s) res rest
                  Hok Hinva (Nat.le_refl _) Hrun Hres) as (m & Hm & Hi & Hr).
      apply (readyRead_runs self _ _ Hok Hinva) in Hm.
      change (on_reads self s (a :: b :: reads))
        with (match on_data self s a with
              | Some sock' => on_reads self sock' (b :: reads)
              | None => None
              end).
      unfold on_data. rewrite Hm. apply IH; [discriminate | assumption |].
      assert (Hinvm : sock_inv (receive rest m)) by exact Hi.
      apply (readyRead_runs self _ _ Hok Hinvm).
      replace (size (io_pending (receive rest m))) with (size (io_pending m) + size rest)
        by (unfold receive; sock_simpl; now rewrite !size_app).
      exact Hr.
  - intros sock key buf i Hkey Hlen Hmask Hi running_index.
    rewrite unmask_nth by assumption. fold running_index.
    rewrite Hmask, mask_byte_key; [reflexivity | assumption |].
    apply Z.mod_pos_bound. lia.
Qed.

Lemma readyRead_split_reads_witness :
  on_reads default_protocol upgraded_socket hello_reads
  = readyRead default_protocol (receive hello_bytes upgraded_socket).
Proof.
  refine (eq_trans
            (proj1 (readyRead_split_reads default_protocol upgraded_socket
                      (mkSocket [] [] 2 2 (load_le 4 [9; 8; 7; 6]) 5 WebSocketPhaseHeaders 0 0x80
                         [] false false
                         [WebSocketTextFrame [H_; E_; L_] false; WebSocketTextFrame [L_; O_] true;
                          WebSocketTextMessage [H_; E_; L_; L_; O_]])
                      hello_reads _ _ _ _ _)) _).
  - split; [vm_compute; discriminate | split; vm_compute; [discriminate | reflexivity]].
  - split; reflexivity.
  - discriminate.
  - vm_compute. reflexivity.
  - left. reflexivity.
  - vm_compute. reflexivity.
Defined.

(** ** C3: text that does not decode *)

(** The bytes [send_text] decodes: the message from the start of the part not
    yet delivered as a frame. *)
Lemma send_text_single_frame_fatal (self : ProtocolWebSocket) (sock : Socket) :
  websocket_message sock = [] -> websocket_start_of_frame sock = 0 ->
  failed_state (snd (toUnicode (m_codec self) (websocket_payload sock))) = true ->
  send_text self sock true
  = (false, connectionClose (set_message (websocket_payload sock) sock)).
Proof.
  intros Hm Hs Hf. unfold send_text. cbv zeta. sock_simpl. rewrite Hm, Hs.
  change (size []) with 0. cbn [Z.eqb negb app].
  destruct (toUnicode (m_codec self) (websocket_payload sock)) as [frame state].
  cbn [snd] in Hf. rewrite Hf. reflexivity.
Qed.

(** A fragment that is not the last one never closes the connection; when its
    bytes do not decode, they stay in the message buffer, the start of the
    undelivered part stays where it was, and nothing is notified. *)
Lemma send_text_fragment_not_fatal (self : ProtocolWebSocket) (sock : Socket) :
  finn sock = false ->
  let r := send_text self sock false in
  let pending :=
    if negb (websocket_start_of_frame sock =? size (websocket_message sock))
    then mid (websocket_message sock ++ websocket_payload sock) (websocket_start_of_frame sock)
    else websocket_payload sock in
  fst r = true /\ closed (snd r) = closed sock
  /\ websocket_message (snd r) = websocket_message sock ++ websocket_payload sock
  /\ (failed_state (snd (toUnicode (m_codec self) pending)) = true ->
      websocket_start_of_frame (snd r) = websocket_start_of_frame sock
      /\ trace (snd r) = trace sock).
Proof.
  intros Hfin. unfold send_text, finn in *. cbv zeta. sock_simpl.
  destruct (negb (websocket_start_of_frame sock =? size (websocket_message sock)));
    match goal with |- context [toUnicode ?c ?p] => destruct (toUnicode c p) as [frame state] end;
    cbn [andb snd]; destruct (failed_state state); cbn [negb]; sock_simpl; rewrite Hfin;
    sock_simpl; repeat split; intros; discriminate.
Qed.

(** C3, at the input where the code departs from it. A Text message in two
    fragments, the first one empty and without FIN, the second one a Continue
    frame with FIN whose payload is the byte 0xFF, which is not UTF-8: the
    decoding of the accumulated message fails when the frame with FIN
    completes, and yet the connection is not closed; the session receives the
    text message with the replacement character. *)
Theorem text_decode_failure_not_fatal :
  on_reads default_protocol upgraded_socket
    [client_frame false OpCodeText [1; 2; 3; 4] [];
     client_frame true OpCodeContinue [1; 2; 3; 4] [0xFF]]
  = Some (mkSocket [] [] 1 2 (load_le 4 [1; 2; 3; 4]) 0 WebSocketPhaseHeaders 0 0x80
            [] false false
            [WebSocketTextFrame [] false; WebSocketTextMessage [Utf8.replacement]])
  /\ failed_state (snd (toUnicode (m_codec default_protocol) [0xFF])) = true.
Proof. split; vm_compute; reflexivity. Qed.

(** The same byte in a message of a single frame, or behind a first fragment
    that is not empty, closes the connection. *)
Example text_decode_failure_fatal :
  (exists r, on_reads default_protocol upgraded_socket
               [client_frame true OpCodeText [1; 2; 3; 4] [0xFF]] = Some r
             /\ closed r = true /\ trace r = [ConnectionClose])
  /\ (exists r, on_reads default_protocol upgraded_socket
                  [client_frame false OpCodeText [1; 2; 3; 4] [0x41];
                   client_frame true OpCodeContinue [1; 2; 3; 4] [0xFF]] = Some r
                /\ closed r = true
                /\ trace r = [WebSocketTextFrame [0x41] false; ConnectionClose]).
Proof. split; eexists; vm_compute; repeat split. Qed.

(** * More of the decoder *)

(** ** A whole frame *)

Lemma begin_frame_pending (byte1 : Z) (pending : QByteArray) (s : Socket) :
  begin_frame byte1 (set_io_pending pending s) = set_io_pending pending (begin_frame byte1 s).
Proof.
  unfold begin_frame. cbv zeta. destruct (_ || _); [destruct (negb _)|]; reflexivity.
Qed.

Lemma begin_frame_device (byte1 : Z) (s : Socket) :
  io_failing (begin_frame byte1 s) = io_failing s
  /\ websocket_continue_opcode (begin_frame byte1 s)
     = (if ((quint8 (Z.land byte1 0xf) =? OpCodeText) || (quint8 (Z.land byte1 0xf) =? OpCodeBinary))
           && negb (nonzero (Z.land byte1 0x80))
        then quint8 (Z.land byte1 0xf) else websocket_continue_opcode s).
Proof.
  unfold begin_frame. cbv zeta. destruct (_ || _); [destruct (negb _)|]; split; reflexivity.
Qed.

(** A client frame at the head of the pending bytes is decoded to its end: the
    loop goes on behind it from what [websocket_parse_payload] makes of the
    completed frame, or returns when that says so; after a frame without
    payload it goes on in any case, [websocket_parse_mask] having no result. *)
Lemma runs_client_frame (self : ProtocolWebSocket) (s r : Socket) (fin : bool)
    (opcode : Z) (key payload rest : list Z) :
  let byte1 := if fin then 0x80 + opcode else opcode in
  let byte2 := 0x80 + length_field (size payload) in
  let done := frame_complete self (frame_received byte1 key payload rest s) in
  protocol_ok self -> sock_inv s -> websocket_phase s = WebSocketPhaseHeaders ->
  io_pending s = client_frame fin opcode key payload ++ rest ->
  0 <= opcode < 16 -> length key = 4%nat ->
  size payload < 126 \/ size payload <= m_websockets_max_size self ->
  ~ header_violation byte1 byte2 (websocket_continue_opcode s) ->
  (runs self (size (io_pending s)) s r
   <-> if (size payload =? 0) || fst done then runs self (size rest) (snd done) r
       else r = snd done).
Proof.
  intros byte1 byte2 done Hok Hinv Hphase Hpending Hop Hkey Hfit Hv.
  pose proof Hok as [Hpbs Hmax]. pose proof Hinv as [Hio Hneed].
  pose proof (size_nonneg payload) as Hp0. pose proof (size_nonneg rest) as Hr0.
  set (len := size payload) in *.
  set (masked := client_mask key payload).
  assert (Hsz : size masked = len) by apply size_client_mask.
  unfold client_frame in Hpending. fold len masked in Hpending.
  rewrite <- !app_assoc in Hpending.
  rewrite (runs_client_header self s r fin opcode len (key ++ masked ++ rest) Hok Hinv Hphase
             Hpending Hop ltac:(lia) Hfit Hv).
  fold byte1. rewrite begin_frame_pending.
  destruct (begin_frame_device byte1 s) as [HioB _].
  unfold done, frame_received. fold len. clear done.
  set (B := begin_frame byte1 s) in *.
  match goal with |- runs _ _ ?x _ <-> _ => set (sM := x) end.
  assert (HinvM : sock_inv sM).
  { split; [unfold sM; sock_simpl; congruence|]. unfold sM. sock_simpl.
    split; [reflexivity | lia]. }
  replace (size (key ++ masked ++ rest)) with (size (io_pending sM)) by reflexivity.
  rewrite (runs_mask self sM r key (masked ++ rest) Hok HinvM eq_refl eq_refl Hkey).
  rewrite websocket_parse_mask_eq. cbv zeta. unfold sM. sock_simpl.
  assert (Hq : quint32 len = len) by (apply quint32_small; lia).
  rewrite Hq.
  destruct (Z.eqb_spec len 0) as [E|E].
  - (* no payload *)
    assert (Hnil : payload = []) by (destruct payload; [reflexivity | discriminate E]).
    cbn [orb]. unfold masked. rewrite Hnil. cbn [client_mask unmask length app].
    reflexivity.
  - (* the payload phase *)
    cbn [orb].
    match goal with |- runs _ _ ?x _ <-> _ => set (sP := x) end.
    assert (HinvP : sock_inv sP).
    { split; [unfold sP; sock_simpl; congruence|]. unfold sP. sock_simpl.
      change (size []) with 0. lia. }
    destruct (runs_payload self (Z.to_nat (websocket_need sP)) (size (masked ++ rest)) sP r
                Hok HinvP eq_refl eq_refl (Nat.le_refl _)) as [_ Hb].
    change (websocket_need sP) with len in Hb.
    rewrite Hb by (rewrite size_app; lia). clear Hb.
    assert (Habs : absorb len sP
                   = set_need (quint32 (len - len))
                       (set_payload payload (set_io_pending rest sP))).
    { unfold absorb. f_equal.
      change (websocket_payload sP) with (@nil Z). change (websocket_mask sP) with (load_le 4 key).
      change (io_pending sP) with (masked ++ rest). change (size []) with 0.
      rewrite <- Hsz, left_app_l, left_size, mid_app_l, mid_all by lia.
      unfold masked. rewrite client_mask_unmask. reflexivity. }
    rewrite Habs.
    match goal with
    | |- context [frame_complete self ?x] =>
        change (frame_complete self x)
          with (frame_complete self
                  (set_payload payload
                     (set_mask (load_le 4 key)
                        (set_payload_size len (set_io_pending rest B)))))
    end.
    replace (size (masked ++ rest) - len) with (size rest) by (rewrite size_app; lia).
    destruct (frame_complete self _) as [[|] s']; reflexivity.
Qed.

(** The same when the frame is all that is read. *)
Lemma readyRead_client_frame (self : ProtocolWebSocket) (s : Socket) (fin : bool)
    (opcode : Z) (key payload : list Z) :
  let byte1 := if fin then 0x80 + opcode else opcode in
  let byte2 := 0x80 + length_field (size payload) in
  protocol_ok self -> sock_inv s -> websocket_phase s = WebSocketPhaseHeaders ->
  io_pending s = [] -> 0 <= opcode < 16 -> length key = 4%nat ->
  size payload < 126 \/ size payload <= m_websockets_max_size self ->
  ~ header_violation byte1 byte2 (websocket_continue_opcode s) ->
  readyRead self (receive (client_frame fin opcode key payload) s)
  = Some (snd (frame_complete self (frame_received byte1 key payload [] s))).
Proof.
  intros byte1 byte2 Hok Hinv Hphase Hpending Hop Hkey Hfit Hv.
  set (s0 := receive (client_frame fin opcode key payload) s).
  assert (Hinv0 : sock_inv s0) by exact Hinv.
  assert (Hpend0 : io_pending s0 = client_frame fin opcode key payload ++ []).
  { unfold s0, receive. sock_simpl. now rewrite Hpending, app_nil_r. }
  apply (readyRead_runs self s0 _ Hok Hinv0).
  rewrite (runs_client_frame self s0 _ fin opcode key payload [] Hok Hinv0 Hphase Hpend0 Hop
             Hkey Hfit Hv).
  change (frame_received (if fin then 0x80 + opcode else opcode) key payload [] s0)
    with (frame_received byte1 key payload [] s0).
  assert (Hs0 : frame_received byte1 key payload [] s0 = frame_received byte1 key payload [] s).
  { unfold frame_received, s0, receive. rewrite begin_frame_pending. reflexivity. }
  rewrite Hs0. change (size []) with 0.
  destruct ((size payload =? 0) || fst _); [now apply runs_nothing | reflexivity].
Qed.

(** ** The loop returns, and a second call does nothing *)

(** X1. From a frame state of the decoder, [readyRead] returns: the loop
    [Q_FOREVER] ends, whatever bytes are pending.  The socket it leaves is
    again a frame state of the decoder: in the payload phase the payload
    buffered is shorter than the declared length and the bytes needed are the
    ones it lacks.  A connection that was closed stays closed. *)
Theorem readyRead_returns (self : ProtocolWebSocket) (s : Socket) :
  protocol_ok self -> sock_inv s ->
  exists r,
    readyRead self s = Some r
    /\ sock_inv r
    /\ (websocket_phase r = WebSocketPhasePayload ->
        size (websocket_payload r) < websocket_payload_size r
        /\ websocket_need r = websocket_payload_size r - size (websocket_payload r))
    /\ (closed s = true -> closed r = true).
Proof.
  intros Hok Hinv. destruct (readyRead_ends self s Hok Hinv) as (r & Hr & Hi & Hc).
  exists r. split; [assumption|]. split; [assumption|]. split; [|assumption].
  intros Hp. destruct Hi as [_ Hi]. rewrite Hp in Hi. lia.
Qed.

Lemma readyRead_returns_witness :
  exists r, readyRead default_protocol (receive (left hello_bytes 8) upgraded_socket) = Some r
            /\ sock_inv r
            /\ (websocket_phase r = WebSocketPhasePayload ->
                size (websocket_payload r) < websocket_payload_size r
                /\ websocket_need r = websocket_payload_size r - size (websocket_payload r))
            /\ (closed (receive (left hello_bytes 8) upgraded_socket) = true -> closed r = true).
Proof.
  refine (readyRead_returns default_protocol (receive (left hello_bytes 8) upgraded_socket) _ _).
  - split; [vm_compute; discriminate | split; vm_compute; [discriminate | reflexivity]].
  - split; reflexivity.
Defined.

(** Where the loop ends with the connection open, it lacks data. *)
Lemma readyRead_loop_final (self : ProtocolWebSocket) (fuel : nat) :
  forall (avail : Z) (s r : Socket),
    protocol_ok self -> sock_inv s -> avail = size (io_pending s) ->
    readyRead_loop self fuel avail s = Some r -> closed r = false ->
    need_more_data (size (io_pending r)) r = true.
Proof.
  induction fuel as [|fuel IH]; intros avail s r Hok Hinv Havail Hrun Hopen; [discriminate|].
  cbn [readyRead_loop] in Hrun.
  pose proof (turn_inv self avail s Hok Hinv Havail) as T.
  destruct (readyRead_turn self avail s) as [s'|avail' s'].
  - injection Hrun as <-. destruct T as (_ & _ & [[Hg ->]|[_ Hc]]); [|congruence].
    now rewrite <- Havail.
  - destruct T as (Hinv' & _ & Ha' & _). now apply (IH avail' s' r).
Qed.

(** X2. When [readyRead] has returned and the connection is open, calling it
    again before any new byte has arrived changes nothing: no byte is read, no
    notification is repeated. *)
Theorem readyRead_idempotent (self : ProtocolWebSocket) (s r : Socket) :
  protocol_ok self -> sock_inv s ->
  readyRead self s = Some r -> closed r = false ->
  readyRead self r = Some r.
Proof.
  intros Hok Hinv Hrun Hopen.
  pose proof (readyRead_loop_final self _ _ s r Hok Hinv eq_refl Hrun Hopen) as Hg.
  unfold readyRead, bytesAvailable. cbn [readyRead_loop].
  now rewrite (turn_guard self _ r Hg).
Qed.

Lemma readyRead_idempotent_witness :
  let r := mkSocket [] [H_] 3 2 (load_le 4 [1; 2; 3; 4]) 0 WebSocketPhasePayload 1 1
             [] false false [] in
  readyRead default_protocol r = Some r.
Proof.
  intros r.
  refine (readyRead_idempotent default_protocol (receive (left hello_bytes 7) upgraded_socket)
            r _ _ _ eq_refl).
  - split; [vm_compute; discriminate | split; vm_compute; [discriminate | reflexivity]].
  - split; reflexivity.
  - vm_compute. reflexivity.
Defined.

(** ** Headers of client frames *)

Lemma header_refused_masked (byte1 lf c : Z) :
  0 <= lf < 128 ->
  header_refused byte1 (0x80 + lf) c
  = let opcode := quint8 (Z.land byte1 0xf) in
    (((opcode =? OpCodePing) || (opcode =? OpCodeClose)) && (125 <? lf))
    || nonzero (Z.land byte1 0x70)
    || (((OpCodeReserved3 <=? opcode) && (opcode <=? OpCodeReserved7))
        || ((OpCodeReservedB <=? opcode) && (opcode <=? OpCodeReservedF)))
    || (negb (nonzero (Z.land byte1 0x80)) && negb (opcode =? OpCodeText)
        && negb (opcode =? OpCodeBinary) && negb (opcode =? OpCodeContinue))
    || (nonzero c && ((opcode =? OpCodeText) || (opcode =? OpCodeBinary))).
Proof.
  intros Hlf. unfold header_refused.
  assert (Hb : is_byte (0x80 + lf)) by (unfold is_byte; lia).
  rewrite (mask_bit_test _ Hb), testbit7_masked, land_0x7f_masked by assumption.
  reflexivity.
Qed.

Lemma header_accepted_intro (byte1 lf c : Z) :
  is_byte byte1 -> 0 <= lf < 128 ->
  header_refused byte1 (0x80 + lf) c = false -> ~ header_violation byte1 (0x80 + lf) c.
Proof.
  intros H1 Hlf Hr V.
  apply (header_refused_iff byte1 (0x80 + lf) c H1 ltac:(unfold is_byte; lia)) in V.
  congruence.
Qed.

(** Control frames with FIN and a payload of at most 125 bytes, and Continue
    frames, are accepted whatever the continuation; Text and Binary frames
    when no continuation is open. *)
Lemma control_header_accepted (byte1 lf c : Z) :
  byte1 = 0x88 \/ byte1 = 0x89 \/ byte1 = 0x8A \/ byte1 = 0x80 \/ byte1 = 0x00 ->
  0 <= lf <= 125 -> ~ header_violation byte1 (0x80 + lf) c.
Proof.
  intros Hb Hlf.
  apply header_accepted_intro; [unfold is_byte; lia | lia |].
  rewrite header_refused_masked by lia. cbv zeta.
  destruct (Z.ltb_spec 125 lf); [exfalso; lia|].
  destruct Hb as [-> | [-> | [-> | [-> | ->]]]]; cbn; now rewrite ?andb_false_r.
Qed.

Lemma continue_header_accepted (byte1 lf c : Z) :
  byte1 = 0x80 \/ byte1 = 0x00 -> 0 <= lf < 128 -> ~ header_violation byte1 (0x80 + lf) c.
Proof.
  intros Hb Hlf.
  apply header_accepted_intro; [unfold is_byte; lia | lia |].
  rewrite header_refused_masked by lia. cbv zeta.
  destruct Hb as [-> | ->]; cbn; now rewrite ?andb_false_r.
Qed.

Lemma data_header_accepted (byte1 lf : Z) :
  byte1 = 0x81 \/ byte1 = 0x82 \/ byte1 = 0x01 \/ byte1 = 0x02 ->
  0 <= lf < 128 -> ~ header_violation byte1 (0x80 + lf) 0.
Proof.
  intros Hb Hlf.
  apply header_accepted_intro; [unfold is_byte; lia | lia |].
  rewrite header_refused_masked by lia. cbv zeta.
  destruct Hb as [-> | [-> | [-> | ->]]]; reflexivity.
Qed.

Lemma length_field_small (len : Z) : 0 <= len <= 125 -> length_field len = len.
Proof.
  intros H. unfold length_field. destruct (Z.ltb_spec len 126); [reflexivity | exfalso; lia].
Qed.

(** ** Ping *)

Lemma frame_complete_ping (self : ProtocolWebSocket) (s : Socket) :
  websocket_finn_opcode s = 0x89 ->
  frame_complete self s
  = (true, send_pong (set_phase WebSocketPhaseHeaders (set_need 2 s))
             (left (websocket_payload s) 125)).
Proof.
  intros H. unfold frame_complete. cbv zeta. sock_simpl. rewrite H. reflexivity.
Qed.

(** X3. A masked Ping frame with FIN and a payload of at most 125 bytes is
    answered with a Pong frame that echoes the payload: the header
    [0x8A, length] is written, then the unmasked payload; the session is not
    notified, the message being reassembled and its continuation are left as
    they were, and the decoder awaits the next header. *)
Theorem ping_is_answered (self : ProtocolWebSocket) (s : Socket) (key payload : list Z) :
  protocol_ok self -> sock_inv s -> websocket_phase s = WebSocketPhaseHeaders ->
  io_pending s = [] -> length key = 4%nat -> size payload <= 125 ->
  exists r,
    readyRead self (receive (client_frame true OpCodePing key payload) s) = Some r
    /\ trace r = trace s ++ [IoWrite [0x8A; size payload]; IoWrite payload]
    /\ [0x8A; size payload] = createWebsocketHeader OpCodePong (size payload)
    /\ websocket_phase r = WebSocketPhaseHeaders /\ websocket_need r = 2
    /\ websocket_message r = websocket_message s
    /\ websocket_continue_opcode r = websocket_continue_opcode s
    /\ websocket_start_of_frame r = websocket_start_of_frame s
    /\ closed r = closed s /\ io_pending r = [].
Proof.
  intros Hok Hinv Hphase Hpending Hkey Hlen.
  pose proof (size_nonneg payload) as Hp0.
  eexists. split.
  - apply (readyRead_client_frame self s true OpCodePing key payload Hok Hinv Hphase Hpending);
      [unfold OpCodePing; lia | assumption | left; lia |].
    rewrite length_field_small by lia. apply control_header_accepted; [|lia].
    right. left. reflexivity.
  - unfold frame_received.
    change (begin_frame (0x80 + OpCodePing) s) with (set_finn_opcode 0x89 s).
    rewrite frame_complete_ping by reflexivity. cbn [snd]. unfold send_pong. sock_simpl.
    rewrite left_all by lia.
    rewrite createWebsocketHeader_7bit by lia.
    change (quint8 (0x80 + OpCodePong)) with 0x8A.
    rewrite <- app_assoc. repeat split.
Qed.

Lemma ping_is_answered_witness :
  exists r,
    readyRead default_protocol
      (receive (client_frame true OpCodePing [1; 2; 3; 4] [H_; E_; L_; L_; O_]) upgraded_socket)
    = Some r
    /\ trace r = [IoWrite [0x8A; 5]; IoWrite [H_; E_; L_; L_; O_]].
Proof.
  destruct (ping_is_answered default_protocol upgraded_socket [1; 2; 3; 4] [H_; E_; L_; L_; O_])
    as (r & Hr & Ht & _).
  - split; [vm_compute; discriminate | split; vm_compute; [discriminate | reflexivity]].
  - split; reflexivity.
  - reflexivity.
  - reflexivity.
  - reflexivity.
  - vm_compute. discriminate.
  - exists r. split; assumption.
Defined.

(** ** A Continue frame that continues nothing *)

Lemma frame_complete_stray_continue (self : ProtocolWebSocket) (s : Socket) :
  Z.land (websocket_finn_opcode s) 0xf = OpCodeContinue ->
  websocket_continue_opcode s = 0 ->
  frame_complete self s
  = (false, connectionClose (set_phase WebSocketPhaseHeaders (set_need 2 s))).
Proof.
  intros Hop Hc. unfold frame_complete. cbv zeta. sock_simpl. rewrite Hop, Hc. reflexivity.
Qed.

(** X4. A Continue frame while no message is being reassembled is not refused
    by the header decoder: its mask and its whole payload are read first, and
    only then is the connection closed, without a close reply and without any
    notification. *)
Theorem stray_continue_closes (self : ProtocolWebSocket) (s : Socket) (fin : bool)
    (key payload : list Z) :
  protocol_ok self -> sock_inv s -> websocket_phase s = WebSocketPhaseHeaders ->
  io_pending s = [] -> websocket_continue_opcode s = 0 -> length key = 4%nat ->
  size payload < 126 \/ size payload <= m_websockets_max_size self ->
  exists r,
    readyRead self (receive (client_frame fin OpCodeContinue key payload) s) = Some r
    /\ trace r = trace s ++ [ConnectionClose]
    /\ closed r = true
    /\ websocket_payload r = payload
    /\ io_pending r = [].
Proof.
  intros Hok Hinv Hphase Hpending Hcont Hkey Hfit.
  pose proof (size_nonneg payload) as Hp0.
  eexists. split.
  - apply (readyRead_client_frame self s fin OpCodeContinue key payload Hok Hinv Hphase
             Hpending); [unfold OpCodeContinue; lia | assumption | assumption |].
    apply continue_header_accepted; [destruct fin; auto | apply length_field_range; lia].
  - unfold frame_received.
    assert (Hb : begin_frame (if fin then 0x80 + OpCodeContinue else OpCodeContinue) s
                 = set_finn_opcode (if fin then 0x80 else 0) s) by (destruct fin; reflexivity).
    rewrite Hb. rewrite frame_complete_stray_continue;
      [|sock_simpl; destruct fin; reflexivity | sock_simpl; assumption].
    cbn [snd]. sock_simpl. repeat split.
Qed.

Lemma stray_continue_closes_witness :
  exists r,
    readyRead default_protocol
      (receive (client_frame true OpCodeContinue [1; 2; 3; 4] [H_; E_]) upgraded_socket) = Some r
    /\ trace r = [ConnectionClose] /\ closed r = true.
Proof.
  destruct (stray_continue_closes default_protocol upgraded_socket true [1; 2; 3; 4] [H_; E_])
    as (r & Hr & Ht & Hc & _).
  - split; [vm_compute; discriminate | split; vm_compute; [discriminate | reflexivity]].
  - split; reflexivity.
  - reflexivity.
  - reflexivity.
  - reflexivity.
  - reflexivity.
  - left. vm_compute. reflexivity.
  - exists r. repeat split; assumption.
Defined.

(** ** A Close frame without payload *)

Lemma frame_complete_close (self : ProtocolWebSocket) (s : Socket) :
  Z.land (websocket_finn_opcode s) 0xf = OpCodeClose ->
  frame_complete self s
  = (false, send_closed self (set_phase WebSocketPhaseHeaders (set_need 2 s))).
Proof.
  intros Hop. unfold frame_complete. cbv zeta. sock_simpl. rewrite Hop. reflexivity.
Qed.

(** X5. The turn of the loop that reads the mask of a Close frame without
    payload completes the frame on the spot: the session is notified, the
    close reply for normal closure is written and the connection is closed;
    but [websocket_parse_mask] has no result to stop the loop with, and the
    turn goes on to the next header with the bytes left.  The turn that
    completes a Close frame with a payload makes the function return. *)
Theorem empty_close_goes_on (self : ProtocolWebSocket) (s : Socket) (key rest : list Z) :
  protocol_ok self -> sock_inv s ->
  Z.land (websocket_finn_opcode s) 0xf = OpCodeClose ->
  io_pending s = key ++ rest ->
  (websocket_phase s = WebSocketPhaseMask -> websocket_payload_size s = 0 ->
   length key = 4%nat ->
   exists s',
     readyRead_turn self (size (io_pending s)) s = Again (size rest) s'
     /\ trace s' = trace s ++
          [WebSocketClosed CloseCodeMissingStatusCode [];
           IoWrite (createWebsocketCloseReply (m_codec self) [] CloseCodeNormal);
           ConnectionClose]
     /\ closed s' = true
     /\ websocket_phase s' = WebSocketPhaseHeaders /\ websocket_need s' = 2
     /\ io_pending s' = rest)
  /\ (websocket_phase s = WebSocketPhasePayload -> size key = websocket_need s ->
      websocket_need s <= quint32 (m_postBufferSize self) ->
      exists s',
        readyRead_turn self (size (io_pending s)) s = Return s'
        /\ closed s' = true /\ io_pending s' = rest).
Proof.
  intros Hok Hinv Hop Hpending. split.
  - intros Hphase Hsize Hkey.
    pose proof Hinv as [Hio Hneed]. rewrite Hphase in Hneed. destruct Hneed as [Hneed Hps].
    pose proof (size_nonneg rest) as Hr0.
    assert (Hsz : size key = 4) by (unfold size; lia).
    assert (Hguard : need_more_data (size (io_pending s)) s = false).
    { unfold need_more_data. rewrite Hphase, Hpending, size_app, Hsz, Hneed.
      destruct (Z.eqb_spec (4 + size rest) 0); [exfalso; lia|].
      destruct (Z.ltb_spec (4 + size rest) 4); [exfalso; lia|]. reflexivity. }
    destruct (turn_field self _ s Hok Hinv eq_refl Hguard) as (_ & _ & _ & Ht); [congruence|].
    rewrite Hphase, Hpending, Hneed in Ht. rewrite <- Hsz in Ht.
    rewrite left_app_l, left_size, mid_app_l, mid_all, size_app in Ht by lia.
    cbn [app] in Ht.
    replace (size key + size rest - size key) with (size rest) in Ht by lia.
    rewrite <- size_app, <- Hpending in Ht.
    rewrite websocket_parse_mask_eq in Ht. cbv zeta in Ht. sock_simpl_in Ht.
    rewrite Hsize in Ht. cbn [Z.eqb] in Ht.
    rewrite frame_complete_close in Ht by (sock_simpl; exact Hop). cbn [snd] in Ht.
    match type of Ht with _ = Again _ (send_closed self ?x) =>
      pose proof (send_closed_empty self x eq_refl) as Hc;
      pose proof (send_closed_frame self x) as F end.
    apply close_handshake_trace in Hc. destruct Hc as [Htr Hcl].
    cbv zeta in F. destruct F as (F1 & _ & F3 & F4 & _).
    eexists. split; [exact Ht|]. sock_simpl_in Htr. sock_simpl_in F1.
    sock_simpl_in F3. sock_simpl_in F4.
    repeat split; assumption.
  - intros Hphase Hsz Hfit.
    pose proof Hinv as [Hio Hneed]. rewrite Hphase in Hneed.
    destruct Hneed as (Hn1 & Hsum & Hps). pose proof (size_nonneg rest) as Hr0.
    assert (Ha1 : 1 <= size (io_pending s)) by (rewrite Hpending, size_app; lia).
    pose proof (turn_payload self _ s Hok Hinv eq_refl Hphase Ha1) as Ht. cbv zeta in Ht.
    assert (Havail : size (io_pending s) = websocket_need s + size rest)
      by (rewrite Hpending, size_app; lia).
    rewrite (Z.min_l (websocket_need s) (quint32 (m_postBufferSize self))) in Ht by lia.
    rewrite (Z.min_l (websocket_need s) (size (io_pending s))) in Ht by lia.
    rewrite Z.ltb_irrefl in Ht.
    rewrite frame_complete_close in Ht by exact Hop.
    eexists. split; [exact Ht|].
    match goal with |- closed (send_closed self ?x) = true /\ _ =>
      pose proof (send_closed_frame self x) as F end.
    cbv zeta in F. destruct F as (F1 & _ & _ & _ & F5).
    split; [exact F5|]. rewrite F1. unfold absorb. sock_simpl.
    rewrite Hpending, <- Hsz, mid_app_l, mid_all by lia. reflexivity.
Qed.

Lemma empty_close_goes_on_witness :
  let s := receive [1; 2; 3; 4; 0x81; 0x80]
             (set_finn_opcode 0x88
                (set_need 4 (set_phase WebSocketPhaseMask upgraded_socket))) in
  exists s',
    readyRead_turn default_protocol 6 s = Again 2 s'
    /\ trace s' = [WebSocketClosed 1005 []; IoWrite [0x88; 2; 0x03; 0xE8]; ConnectionClose]
    /\ closed s' = true /\ io_pending s' = [0x81; 0x80].
Proof.
  intros s.
  destruct (proj1 (empty_close_goes_on default_protocol s [1; 2; 3; 4] [0x81; 0x80]
                     ltac:(split; [vm_compute; discriminate
                                  | split; vm_compute; [discriminate | reflexivity]])
                     ltac:(split; [reflexivity | split; [reflexivity | vm_compute; split;
                                   [discriminate | reflexivity]]])
                     eq_refl eq_refl) eq_refl eq_refl eq_refl)
    as (s' & Ht & Htr & Hc & _ & _ & Hp).
  exists s'. repeat split; assumption.
Defined.

(** ** The encoder's frames *)

(** X6. The header the encoder writes for an opcode and a payload length of 64
    bits is made of bytes; it is 2, 4 or 10 bytes long by the length; its
    first byte carries FIN and the opcode with no reserved bit, its second
    byte has the mask bit clear.  It is a server frame: the header decoder of
    the same engine refuses it, whatever the state of the socket. *)
Theorem createWebsocketHeader_server_frame (self : ProtocolWebSocket) (sock : Socket)
    (opcode len : Z) :
  0 <= opcode < 16 -> 0 <= len < 2 ^ 64 ->
  let header := createWebsocketHeader opcode len in
  Forall is_byte header
  /\ length header = (if len <? 126 then 2%nat else if len <=? 65535 then 4%nat else 10%nat)
  /\ nth 0 header 0 = 0x80 + opcode
  /\ Z.testbit (nth 1 header 0) 7 = false
  /\ fst (websocket_parse_header self sock header) = false.
Proof.
  intros Hop Hlen header.
  assert (Hform : header = (0x80 + opcode) :: length_field len :: extended_length len).
  { unfold header, length_field, extended_length.
    assert (Hq : quint8 (0x80 + opcode) = 0x80 + opcode)
      by (apply quint8_byte; unfold is_byte; lia).
    destruct (Z.ltb_spec len 126); [|destruct (Z.leb_spec len 65535)].
    - now rewrite createWebsocketHeader_7bit, Hq by lia.
    - now rewrite createWebsocketHeader_16bit, Hq by lia.
    - now rewrite createWebsocketHeader_64bit, Hq by lia. }
  pose proof (length_field_range len ltac:(lia)) as Hlf.
  assert (H1 : is_byte (0x80 + opcode)) by (unfold is_byte; lia).
  assert (H2 : is_byte (length_field len)) by (unfold is_byte; lia).
  assert (Hbit : Z.testbit (length_field len) 7 = false).
  { rewrite <- (mask_bit_test _ H2). rewrite shiftr_div by lia.
    rewrite Z.div_small by (change (2 ^ 7) with 128; lia). reflexivity. }
  rewrite Hform. split; [|split; [|split; [|split]]].
  - constructor; [assumption|]. constructor; [assumption|]. apply extended_length_bytes.
  - unfold extended_length.
    destruct (len <? 126); [reflexivity|]. destruct (len <=? 65535); reflexivity.
  - reflexivity.
  - exact Hbit.
  - apply (websocket_parse_header_refuses_iff self sock _ _ _ H1 H2).
    left. exact Hbit.
Qed.

Lemma createWebsocketHeader_server_frame_witness :
  createWebsocketHeader OpCodeBinary 70000 = [0x82; 127; 0; 0; 0; 0; 0; 1; 0x11; 0x70]
  /\ fst (websocket_parse_header default_protocol upgraded_socket
            (createWebsocketHeader OpCodeBinary 70000)) = false.
Proof.
  destruct (createWebsocketHeader_server_frame default_protocol upgraded_socket OpCodeBinary
              70000 ltac:(unfold OpCodeBinary; lia) ltac:(lia))
    as (_ & _ & _ & _ & H).
  split; [reflexivity | exact H].
Defined.

(** X7. A close reply read back: the payload of the frame that
    [createWebsocketCloseReply] builds for a close code of 16 bits, read the
    way [send_closed] reads the payload of a Close frame, gives the same close
    code, and as reason the decoding of the first 123 bytes of the reason's
    UTF-8 form. *)
Theorem close_reply_reads_back (codec : QTextCodec) (msg : QString) (closeCode : Z) :
  0 <= closeCode < 65536 ->
  let frame := createWebsocketCloseReply codec msg closeCode in
  let sent := left (toUtf8 codec msg) 123 in
  firstn 2 frame = [0x88; size sent + 2]
  /\ size (skipn 2 frame) = size sent + 2
  /\ close_payload codec (skipn 2 frame)
     = (closeCode, fst (toUnicode codec sent), snd (toUnicode codec sent)).
Proof.
  intros Hc frame sent. unfold frame. rewrite createWebsocketCloseReply_frame. fold sent.
  cbn [app firstn skipn]. split; [reflexivity|]. split.
  - unfold size. cbn [length]. lia.
  - assert (Hhi : is_byte ((closeCode / 2 ^ 8) mod 256)) by apply mod256_is_byte.
    assert (Hlo : is_byte (closeCode mod 256)) by apply mod256_is_byte.
    destruct (toUnicode codec sent) as [reason state] eqn:E.
    rewrite (close_payload_bytes codec _ _ sent reason state Hhi Hlo E).
    rewrite be_value_2 by (change (2 ^ 16) with 65536; lia). reflexivity.
Qed.

Lemma close_reply_reads_back_witness :
  close_payload Utf8.codec (skipn 2 (createWebsocketCloseReply Utf8.codec [H_; E_] 4000))
  = (4000, [H_; E_], mkConverterState 0 0).
Proof.
  destruct (close_reply_reads_back Utf8.codec [H_; E_] 4000 ltac:(lia)) as (_ & _ & H).
  exact H.
Defined.

(** ** Binary messages *)

Lemma QByteArray_eqb_eq (a b : QByteArray) : QByteArray_eqb a b = true <-> a = b.
Proof.
  revert b. induction a as [|x a IH]; intros [|y b]; cbn [QByteArray_eqb];
    try (split; (reflexivity || discriminate)).
  rewrite andb_true_iff, Z.eqb_eq, IH. split.
  - intros [-> ->]. reflexivity.
  - intros H. injection H as -> ->. auto.
Qed.

(** At the end of a message, [send_binary] hands over what was accumulated,
    and clears the buffers and the continuation. *)
Lemma send_binary_final (sock : Socket) (singleFrame : bool) :
  finn sock = true -> (singleFrame = true -> websocket_message sock = []) ->
  send_binary sock singleFrame
  = clear_buffers
      (emit (WebSocketBinaryMessage (websocket_message sock ++ websocket_payload sock))
         (set_continue_opcode 0
            (emit (WebSocketBinaryFrame (websocket_payload sock) true)
               (set_message (websocket_message sock ++ websocket_payload sock) sock)))).
Proof.
  intros Hfin Hsingle. unfold send_binary, finn in *. cbv zeta. sock_simpl. rewrite Hfin.
  sock_simpl. destruct singleFrame; cbn [orb].
  - rewrite (Hsingle eq_refl). reflexivity.
  - destruct (QByteArray_eqb _ _) eqn:E; [|reflexivity].
    apply QByteArray_eqb_eq in E. now rewrite <- E.
Qed.

Lemma send_binary_fragment (sock : Socket) (singleFrame : bool) :
  finn sock = false ->
  send_binary sock singleFrame
  = emit (WebSocketBinaryFrame (websocket_payload sock) false)
      (set_message (websocket_message sock ++ websocket_payload sock) sock).
Proof.
  intros Hfin. unfold send_binary, finn in *. cbv zeta. sock_simpl. now rewrite Hfin.
Qed.

Lemma frame_complete_binary (self : ProtocolWebSocket) (s : Socket) :
  Z.land (websocket_finn_opcode s) 0xf = OpCodeBinary ->
  frame_complete self s
  = (true, send_binary (set_phase WebSocketPhaseHeaders (set_need 2 s))
             (finn (set_phase WebSocketPhaseHeaders (set_need 2 s)))).
Proof.
  intros Hop. unfold frame_complete. cbv zeta. sock_simpl. rewrite Hop. reflexivity.
Qed.

Lemma frame_complete_continue_binary (self : ProtocolWebSocket) (s : Socket) :
  Z.land (websocket_finn_opcode s) 0xf = OpCodeContinue ->
  websocket_continue_opcode s = OpCodeBinary ->
  frame_complete self s
  = (true, send_binary (set_phase WebSocketPhaseHeaders (set_need 2 s)) false).
Proof.
  intros Hop Hc. unfold frame_complete. cbv zeta. sock_simpl. rewrite Hop, Hc. reflexivity.
Qed.

(** X8. A binary message in two fragments, a Binary frame without FIN and a
    Continue frame with FIN, each masked with its own key: the session is
    notified of each fragment's payload, then of the message, which is the
    two payloads one after the other; the buffers are emptied and no
    continuation stays open. *)
Theorem binary_message_reassembled (self : ProtocolWebSocket) (s : Socket)
    (key1 key2 payload1 payload2 : list Z) :
  protocol_ok self -> sock_inv s -> websocket_phase s = WebSocketPhaseHeaders ->
  io_pending s = [] -> websocket_continue_opcode s = 0 ->
  length key1 = 4%nat -> length key2 = 4%nat ->
  size payload1 < 126 \/ size payload1 <= m_websockets_max_size self ->
  size payload2 < 126 \/ size payload2 <= m_websockets_max_size self ->
  exists r,
    readyRead self
      (receive (client_frame false OpCodeBinary key1 payload1
                ++ client_frame true OpCodeContinue key2 payload2) s) = Some r
    /\ trace r = trace s ++
         [WebSocketBinaryFrame payload1 false; WebSocketBinaryFrame payload2 true;
          WebSocketBinaryMessage (payload1 ++ payload2)]
    /\ websocket_message r = [] /\ websocket_payload r = []
    /\ websocket_continue_opcode r = 0
    /\ websocket_phase r = WebSocketPhaseHeaders /\ websocket_need r = 2
    /\ closed r = closed s /\ io_pending r = [].
Proof.
  intros Hok Hinv Hphase Hpending Hcont Hk1 Hk2 Hfit1 Hfit2.
  pose proof (size_nonneg payload1) as Hp1. pose proof (size_nonneg payload2) as Hp2.
  set (f2 := client_frame true OpCodeContinue key2 payload2).
  set (s0 := receive (client_frame false OpCodeBinary key1 payload1 ++ f2) s).
  assert (Hinv0 : sock_inv s0) by exact Hinv.
  assert (Hpend0 : io_pending s0 = client_frame false OpCodeBinary key1 payload1 ++ f2).
  { unfold s0, receive. sock_simpl. now rewrite Hpending. }
  (* the first fragment *)
  set (s1 := emit (WebSocketBinaryFrame payload1 false)
               (set_message payload1
                  (set_phase WebSocketPhaseHeaders
                     (set_need 2
                        (set_payload payload1
                           (set_mask (load_le 4 key1)
                              (set_payload_size (size payload1)
                                 (set_io_pending f2
                                    (set_continue_opcode OpCodeBinary
                                       (set_start_of_frame 0
                                          (set_message [] (set_finn_opcode 0x02 s0)))))))))))).
  assert (Hd1 : frame_complete self (frame_received OpCodeBinary key1 payload1 f2 s0)
                = (true, s1)).
  { unfold frame_received.
    change (begin_frame OpCodeBinary s0)
      with (set_continue_opcode OpCodeBinary
              (set_start_of_frame 0 (set_message [] (set_finn_opcode 0x02 s0)))).
    rewrite frame_complete_binary by reflexivity.
    rewrite send_binary_fragment by reflexivity. reflexivity. }
  assert (Hinv1 : sock_inv s1) by (split; [exact (proj1 Hinv) | reflexivity]).
  (* the second fragment *)
  set (s2 := set_phase WebSocketPhaseHeaders
               (set_need 2
                  (set_payload payload2
                     (set_mask (load_le 4 key2)
                        (set_payload_size (size payload2)
                           (set_io_pending [] (set_finn_opcode 0x80 s1))))))).
  assert (Hd2 : frame_complete self (frame_received (0x80 + OpCodeContinue) key2 payload2 [] s1)
                = (true, send_binary s2 false)).
  { unfold frame_received.
    change (begin_frame (0x80 + OpCodeContinue) s1) with (set_finn_opcode 0x80 s1).
    rewrite frame_complete_continue_binary by reflexivity. reflexivity. }
  exists (send_binary s2 false). split.
  - apply (readyRead_runs self s0 _ Hok Hinv0).
    rewrite (runs_client_frame self s0 _ false OpCodeBinary key1 payload1 f2 Hok Hinv0 Hphase
               Hpend0 ltac:(unfold OpCodeBinary; lia) Hk1 Hfit1).
    2: { change (websocket_continue_opcode s0) with (websocket_continue_opcode s).
         rewrite Hcont. apply data_header_accepted; [auto | apply length_field_range; lia]. }
    rewrite Hd1. cbn [fst snd]. rewrite orb_true_r.
    replace (size f2) with (size (io_pending s1)) by reflexivity.
    rewrite (runs_client_frame self s1 _ true OpCodeContinue key2 payload2 [] Hok Hinv1
               eq_refl ltac:(cbn [io_pending s1]; symmetry; apply app_nil_r)
               ltac:(unfold OpCodeContinue; lia) Hk2 Hfit2).
    2: { apply continue_header_accepted; [auto | apply length_field_range; lia]. }
    rewrite Hd2. cbn [fst snd]. rewrite orb_true_r. now apply runs_nothing.
  - rewrite send_binary_final by (reflexivity || discriminate).
    unfold s2, s1, s0. sock_simpl. rewrite <- !app_assoc. repeat split.
Qed.

Lemma binary_message_reassembled_witness :
  exists r,
    readyRead default_protocol
      (receive (client_frame false OpCodeBinary [1; 2; 3; 4] [0xCA; 0xFE]
                ++ client_frame true OpCodeContinue [5; 6; 7; 8] [0xBA; 0xBE]) upgraded_socket)
    = Some r
    /\ trace r = [WebSocketBinaryFrame [0xCA; 0xFE] false; WebSocketBinaryFrame [0xBA; 0xBE] true;
                  WebSocketBinaryMessage [0xCA; 0xFE; 0xBA; 0xBE]].
Proof.
  destruct (binary_message_reassembled default_protocol upgraded_socket
              [1; 2; 3; 4] [5; 6; 7; 8] [0xCA; 0xFE] [0xBA; 0xBE])
    as (r & Hr & Ht & _).
  - split; [vm_compute; discriminate | split; vm_compute; [discriminate | reflexivity]].
  - split; reflexivity.
  - reflexivity.
  - reflexivity.
  - reflexivity.
  - reflexivity.
  - reflexivity.
  - left. vm_compute. reflexivity.
  - left. vm_compute. reflexivity.
  - exists r. split; assumption.
Defined.

(** ** Text messages *)

Lemma frame_complete_text (self : ProtocolWebSocket) (s : Socket) :
  Z.land (websocket_finn_opcode s) 0xf = OpCodeText ->
  frame_complete self s
  = send_text self (set_phase WebSocketPhaseHeaders (set_need 2 s))
      (finn (set_phase WebSocketPhaseHeaders (set_need 2 s))).
Proof.
  intros Hop. unfold frame_complete. cbv zeta. sock_simpl. rewrite Hop. reflexivity.
Qed.

Lemma frame_complete_continue_text (self : ProtocolWebSocket) (s : Socket) :
  Z.land (websocket_finn_opcode s) 0xf = OpCodeContinue ->
  websocket_continue_opcode s = OpCodeText ->
  frame_complete self s
  = send_text self (set_phase WebSocketPhaseHeaders (set_need 2 s)) false.
Proof.
  intros Hop Hc. unfold frame_complete. cbv zeta. sock_simpl. rewrite Hop, Hc. reflexivity.
Qed.

Lemma isEmpty_nil {A : Type} (a : list A) : isEmpty a = true <-> a = [].
Proof. destruct a; cbn; split; (reflexivity || discriminate). Qed.

Lemma nonzero_size (a : list Z) : nonzero (size a) = false <-> a = [].
Proof.
  unfold nonzero, size. destruct a as [|x a]; [split; reflexivity|].
  split; [|discriminate]. intros H. apply negb_false_iff, Z.eqb_eq in H.
  cbn [length] in H. lia.
Qed.

(** A message in one frame that decodes. *)
Lemma send_text_single_frame (self : ProtocolWebSocket) (sock : Socket)
    (text : QString) (state : ConverterState) :
  websocket_message sock = [] -> websocket_start_of_frame sock = 0 -> finn sock = true ->
  toUnicode (m_codec self) (websocket_payload sock) = (text, state) ->
  failed_state state = false -> (text = [] -> websocket_payload sock = []) ->
  send_text self sock true
  = (true,
     clear_buffers
       (emit (WebSocketTextMessage text)
          (set_continue_opcode 0
             (emit (WebSocketTextFrame text true)
                (set_start_of_frame (size (websocket_payload sock))
                   (set_message (websocket_payload sock) sock)))))).
Proof.
  intros Hm Hs Hfin Hdec Hok Hne. unfold send_text, finn in *. cbv zeta. sock_simpl.
  rewrite Hm, Hs. change (size []) with 0. cbn [Z.eqb negb app].
  rewrite Hdec, Hok. cbn [orb andb negb].
  assert (He : isEmpty text && nonzero (size (websocket_payload sock)) = false).
  { destruct (isEmpty text) eqn:E; [|reflexivity].
    apply isEmpty_nil in E. cbn [andb]. apply nonzero_size. auto. }
  rewrite He. sock_simpl. rewrite Hfin. sock_simpl. reflexivity.
Qed.

(** A message in one frame that does not decode, or decodes to nothing. *)
Lemma send_text_single_frame_refused (self : ProtocolWebSocket) (sock : Socket)
    (text : QString) (state : ConverterState) :
  websocket_message sock = [] -> websocket_start_of_frame sock = 0 ->
  toUnicode (m_codec self) (websocket_payload sock) = (text, state) ->
  failed_state state = true \/ (text = [] /\ websocket_payload sock <> []) ->
  send_text self sock true
  = (false, connectionClose (set_message (websocket_payload sock) sock)).
Proof.
  intros Hm Hs Hdec Hbad. unfold send_text. cbv zeta. sock_simpl.
  rewrite Hm, Hs. change (size []) with 0. cbn [Z.eqb negb app].
  rewrite Hdec. cbn [andb].
  assert (He : failed_state state
               || isEmpty text && nonzero (size (websocket_payload sock)) = true).
  { destruct Hbad as [-> | [-> Hp]]; [reflexivity|].
    cbn [isEmpty andb]. destruct (nonzero _) eqn:E; [apply orb_true_r|].
    apply nonzero_size in E. contradiction. }
  rewrite He. reflexivity.
Qed.

(** X9. A text message in one masked frame whose payload the codec decodes
    without invalid or pending bytes, to a text that is empty only for an
    empty payload: the session is notified of the frame, marked last, and of
    the message, both with the decoded text; the buffers are emptied and the
    connection stays as it was. *)
Theorem text_message_delivered (self : ProtocolWebSocket) (s : Socket)
    (key payload : list Z) (text : QString) (state : ConverterState) :
  protocol_ok self -> sock_inv s -> websocket_phase s = WebSocketPhaseHeaders ->
  io_pending s = [] -> websocket_continue_opcode s = 0 -> length key = 4%nat ->
  size payload < 126 \/ size payload <= m_websockets_max_size self ->
  toUnicode (m_codec self) payload = (text, state) ->
  failed_state state = false -> (text = [] -> payload = []) ->
  exists r,
    readyRead self (receive (client_frame true OpCodeText key payload) s) = Some r
    /\ trace r = trace s ++ [WebSocketTextFrame text true; WebSocketTextMessage text]
    /\ websocket_message r = [] /\ websocket_payload r = []
    /\ websocket_continue_opcode r = 0
    /\ websocket_phase r = WebSocketPhaseHeaders /\ websocket_need r = 2
    /\ closed r = closed s /\ io_pending r = [].
Proof.
  intros Hok Hinv Hphase Hpending Hcont Hkey Hfit Hdec Hclean Hne.
  pose proof (size_nonneg payload) as Hp0.
  eexists. split.
  - apply (readyRead_client_frame self s true OpCodeText key payload Hok Hinv Hphase Hpending);
      [unfold OpCodeText; lia | assumption | assumption |].
    rewrite Hcont. apply data_header_accepted; [auto | apply length_field_range; lia].
  - unfold frame_received.
    change (begin_frame (0x80 + OpCodeText) s)
      with (set_start_of_frame 0 (set_message [] (set_finn_opcode 0x81 s))).
    rewrite frame_complete_text by reflexivity.
    change (finn _) with true.
    rewrite (send_text_single_frame self _ text state) by (reflexivity || assumption).
    sock_simpl. rewrite <- !app_assoc. repeat split.
Qed.

Lemma text_message_delivered_witness :
  exists r,
    readyRead default_protocol
      (receive (client_frame true OpCodeText [1; 2; 3; 4] [H_; E_; L_; L_; O_]) upgraded_socket)
    = Some r
    /\ trace r = [WebSocketTextFrame [H_; E_; L_; L_; O_] true;
                  WebSocketTextMessage [H_; E_; L_; L_; O_]].
Proof.
  destruct (text_message_delivered default_protocol upgraded_socket [1; 2; 3; 4]
              [H_; E_; L_; L_; O_] [H_; E_; L_; L_; O_] (mkConverterState 0 0))
    as (r & Hr & Ht & _).
  - split; [vm_compute; discriminate | split; vm_compute; [discriminate | reflexivity]].
  - split; reflexivity.
  - reflexivity.
  - reflexivity.
  - reflexivity.
  - reflexivity.
  - left. vm_compute. reflexivity.
  - vm_compute. reflexivity.
  - reflexivity.
  - discriminate.
  - exists r. split; assumption.
Defined.

(** X10. A text message in one masked frame whose payload the codec reports
    invalid or incomplete, or decodes to an empty text although the payload is
    not empty: the connection is closed at once; the session is not notified
    and no close frame is written to the client. *)
Theorem text_message_refused (self : ProtocolWebSocket) (s : Socket)
    (key payload : list Z) (text : QString) (state : ConverterState) :
  protocol_ok self -> sock_inv s -> websocket_phase s = WebSocketPhaseHeaders ->
  io_pending s = [] -> websocket_continue_opcode s = 0 -> length key = 4%nat ->
  size payload < 126 \/ size payload <= m_websockets_max_size self ->
  toUnicode (m_codec self) payload = (text, state) ->
  failed_state state = true \/ (text = [] /\ payload <> []) ->
  exists r,
    readyRead self (receive (client_frame true OpCodeText key payload) s) = Some r
    /\ trace r = trace s ++ [ConnectionClose]
    /\ closed r = true /\ io_pending r = [].
Proof.
  intros Hok Hinv Hphase Hpending Hcont Hkey Hfit Hdec Hbad.
  pose proof (size_nonneg payload) as Hp0.
  eexists. split.
  - apply (readyRead_client_frame self s true OpCodeText key payload Hok Hinv Hphase Hpending);
      [unfold OpCodeText; lia | assumption | assumption |].
    rewrite Hcont. apply data_header_accepted; [auto | apply length_field_range; lia].
  - unfold frame_received.
    change (begin_frame (0x80 + OpCodeText) s)
      with (set_start_of_frame 0 (set_message [] (set_finn_opcode 0x81 s))).
    rewrite frame_complete_text by reflexivity.
    change (finn _) with true.
    rewrite (send_text_single_frame_refused self _ text state) by (reflexivity || assumption).
    sock_simpl. repeat split.
Qed.

Lemma text_message_refused_witness :
  exists r,
    readyRead default_protocol
      (receive (client_frame true OpCodeText [1; 2; 3; 4] [0xFF]) upgraded_socket) = Some r
    /\ trace r = [ConnectionClose] /\ closed r = true.
Proof.
  destruct (text_message_refused default_protocol upgraded_socket [1; 2; 3; 4] [0xFF]
              [Utf8.replacement] (mkConverterState 1 0))
    as (r & Hr & Ht & Hc & _).
  - split; [vm_compute; discriminate | split; vm_compute; [discriminate | reflexivity]].
  - split; reflexivity.
  - reflexivity.
  - reflexivity.
  - reflexivity.
  - reflexivity.
  - left. vm_compute. reflexivity.
  - vm_compute. reflexivity.
  - left. reflexivity.
  - exists r. repeat split; assumption.
Defined.

(** ** Fragments *)

Lemma size_zero (a : QByteArray) : size a = 0 <-> a = [].
Proof.
  unfold size. destruct a; [split; reflexivity|]. cbn [length]. split; [lia | discriminate].
Qed.

Lemma QByteArray_eqb_suffix (a b : QByteArray) : a <> [] -> QByteArray_eqb b (a ++ b) = false.
Proof.
  intros Ha. destruct (QByteArray_eqb b (a ++ b)) eqn:E; [|reflexivity].
  apply QByteArray_eqb_eq in E. exfalso. apply Ha, size_zero.
  apply (f_equal size) in E. rewrite size_app in E. lia.
Qed.

(** A first fragment whose bytes do not decode on their own is kept for
    later. *)
Lemma send_text_fragment_kept (self : ProtocolWebSocket) (sock : Socket) :
  websocket_message sock = [] -> websocket_start_of_frame sock = 0 -> finn sock = false ->
  failed_state (snd (toUnicode (m_codec self) (websocket_payload sock))) = true ->
  send_text self sock false = (true, set_message (websocket_payload sock) sock).
Proof.
  intros Hm Hs Hfin Hf. unfold send_text, finn in *. cbv zeta. sock_simpl.
  rewrite Hm, Hs. change (size []) with 0. cbn [Z.eqb negb app andb].
  destruct (toUnicode (m_codec self) (websocket_payload sock)) as [frame state].
  cbn [snd] in Hf. rewrite Hf. cbn [negb]. sock_simpl. now rewrite Hfin.
Qed.

(** The last fragment of a message of which nothing was decoded yet. *)
Lemma send_text_last_fragment (self : ProtocolWebSocket) (sock : Socket)
    (text : QString) (state : ConverterState) :
  websocket_message sock <> [] -> websocket_start_of_frame sock = 0 -> finn sock = true ->
  toUnicode (m_codec self) (websocket_message sock ++ websocket_payload sock) = (text, state) ->
  failed_state state = false ->
  send_text self sock false
  = (true,
     clear_buffers
       (emit (WebSocketTextMessage text)
          (set_continue_opcode 0
             (emit (WebSocketTextFrame text true)
                (set_start_of_frame (size (websocket_message sock ++ websocket_payload sock))
                   (set_message (websocket_message sock ++ websocket_payload sock) sock)))))).
Proof.
  intros Hm Hs Hfin Hdec Hclean. unfold send_text, finn in *. cbv zeta. sock_simpl.
  rewrite Hs.
  assert (Hsz : (0 =? size (websocket_message sock)) = false).
  { apply Z.eqb_neq. intros E. apply Hm, size_zero. lia. }
  rewrite Hsz. cbn [negb andb].
  change (mid (websocket_message sock ++ websocket_payload sock) 0)
    with (websocket_message sock ++ websocket_payload sock).
  rewrite Hdec, Hclean. cbn [negb]. sock_simpl. rewrite Hfin. sock_simpl.
  rewrite (QByteArray_eqb_suffix _ _ Hm). cbn [orb]. rewrite Hdec. reflexivity.
Qed.

(** X11. A text message in two fragments, a Text frame without FIN whose
    payload is not empty and does not decode on its own (a code point cut by
    the fragmentation, say) and a Continue frame with FIN, such that the two
    payloads together decode: the first fragment notifies nothing and closes
    nothing; when the second is complete the session is notified once of a
    last frame and once of the message, both with the text of the two
    payloads together. *)
Theorem text_split_across_fragments (self : ProtocolWebSocket) (s : Socket)
    (key1 key2 payload1 payload2 : list Z) (text : QString) (state : ConverterState) :
  protocol_ok self -> sock_inv s -> websocket_phase s = WebSocketPhaseHeaders ->
  io_pending s = [] -> websocket_continue_opcode s = 0 ->
  length key1 = 4%nat -> length key2 = 4%nat ->
  size payload1 < 126 \/ size payload1 <= m_websockets_max_size self ->
  size payload2 < 126 \/ size payload2 <= m_websockets_max_size self ->
  payload1 <> [] ->
  failed_state (snd (toUnicode (m_codec self) payload1)) = true ->
  toUnicode (m_codec self) (payload1 ++ payload2) = (text, state) ->
  failed_state state = false ->
  exists r1 r,
    readyRead self (receive (client_frame false OpCodeText key1 payload1) s) = Some r1
    /\ trace r1 = trace s /\ closed r1 = closed s /\ websocket_message r1 = payload1
    /\ readyRead self (receive (client_frame true OpCodeContinue key2 payload2) r1) = Some r
    /\ trace r = trace s ++ [WebSocketTextFrame text true; WebSocketTextMessage text]
    /\ websocket_message r = [] /\ websocket_payload r = []
    /\ websocket_continue_opcode r = 0 /\ closed r = closed s.
Proof.
  intros Hok Hinv Hphase Hpending Hcont Hk1 Hk2 Hfit1 Hfit2 Hne Hfail Hdec Hclean.
  pose proof (size_nonneg payload1) as Hp1. pose proof (size_nonneg payload2) as Hp2.
  set (s1 := set_message payload1
               (set_phase WebSocketPhaseHeaders
                  (set_need 2
                     (set_payload payload1
                        (set_mask (load_le 4 key1)
                           (set_payload_size (size payload1)
                              (set_io_pending []
                                 (set_continue_opcode OpCodeText
                                    (set_start_of_frame 0
                                       (set_message [] (set_finn_opcode 0x01 s))))))))))).
  assert (Hd1 : frame_complete self (frame_received OpCodeText key1 payload1 [] s)
                = (true, s1)).
  { unfold frame_received.
    change (begin_frame OpCodeText s)
      with (set_continue_opcode OpCodeText
              (set_start_of_frame 0 (set_message [] (set_finn_opcode 0x01 s)))).
    rewrite frame_complete_text by reflexivity.
    change (finn _) with false.
    rewrite send_text_fragment_kept by (reflexivity || exact Hfail). reflexivity. }
  assert (Hinv1 : sock_inv s1) by (split; [exact (proj1 Hinv) | reflexivity]).
  set (s2 := set_phase WebSocketPhaseHeaders
               (set_need 2
                  (set_payload payload2
                     (set_mask (load_le 4 key2)
                        (set_payload_size (size payload2)
                           (set_io_pending [] (set_finn_opcode 0x80 s1))))))).
  assert (Hd2 : frame_complete self (frame_received (0x80 + OpCodeContinue) key2 payload2 [] s1)
                = send_text self s2 false).
  { unfold frame_received.
    change (begin_frame (0x80 + OpCodeContinue) s1) with (set_finn_opcode 0x80 s1).
    rewrite frame_complete_continue_text by reflexivity. reflexivity. }
  exists s1. eexists. split; [|split; [|split; [|split; [|split]]]].
  - rewrite (readyRead_client_frame self s false OpCodeText key1 payload1 Hok Hinv Hphase
               Hpending ltac:(unfold OpCodeText; lia) Hk1 Hfit1).
    + now rewrite Hd1.
    + rewrite Hcont. apply data_header_accepted; [auto | apply length_field_range; lia].
  - reflexivity.
  - reflexivity.
  - reflexivity.
  - rewrite (readyRead_client_frame self s1 true OpCodeContinue key2 payload2 Hok Hinv1
               eq_refl eq_refl ltac:(unfold OpCodeContinue; lia) Hk2 Hfit2).
    + rewrite Hd2. reflexivity.
    + apply continue_header_accepted; [auto | apply length_field_range; lia].
  - rewrite (send_text_last_fragment self s2 text state) by (reflexivity || assumption).
    sock_simpl. rewrite <- !app_assoc. repeat split.
Qed.

Lemma text_split_across_fragments_witness :
  exists r1 r,
    readyRead default_protocol
      (receive (client_frame false OpCodeText [1; 2; 3; 4] [0xC3]) upgraded_socket) = Some r1
    /\ trace r1 = []
    /\ readyRead default_protocol
         (receive (client_frame true OpCodeContinue [5; 6; 7; 8] [0xA9]) r1) = Some r
    /\ trace r = [WebSocketTextFrame [0xE9] true; WebSocketTextMessage [0xE9]].
Proof.
  destruct (text_split_across_fragments default_protocol upgraded_socket
              [1; 2; 3; 4] [5; 6; 7; 8] [0xC3] [0xA9] [0xE9] (mkConverterState 0 0))
    as (r1 & r & Hr1 & Ht1 & _ & _ & Hr & Ht & _).
  - split; [vm_compute; discriminate | split; vm_compute; [discriminate | reflexivity]].
  - split; reflexivity.
  - reflexivity.
  - reflexivity.
  - reflexivity.
  - reflexivity.
  - reflexivity.
  - left. vm_compute. reflexivity.
  - left. vm_compute. reflexivity.
  - discriminate.
  - vm_compute. reflexivity.
  - vm_compute. reflexivity.
  - reflexivity.
  - exists r1, r. repeat split; assumption.
Defined.

(** X12. A Ping frame between the two fragments of a binary message is
    answered where it stands and leaves the message alone: the session is
    notified of the first fragment, the Pong header and the echoed payload are
    written, then the session is notified of the last fragment and of the
    message made of the two fragments' payloads. *)
Theorem ping_between_fragments (self : ProtocolWebSocket) (s : Socket)
    (key1 key2 key3 payload1 ping payload2 : list Z) :
  protocol_ok self -> sock_inv s -> websocket_phase s = WebSocketPhaseHeaders ->
  io_pending s = [] -> websocket_continue_opcode s = 0 ->
  length key1 = 4%nat -> length key2 = 4%nat -> length key3 = 4%nat ->
  size payload1 < 126 \/ size payload1 <= m_websockets_max_size self ->
  size ping <= 125 ->
  size payload2 < 126 \/ size payload2 <= m_websockets_max_size self ->
  exists r,
    readyRead self
      (receive (client_frame false OpCodeBinary key1 payload1
                ++ client_frame true OpCodePing key2 ping
                ++ client_frame true OpCodeContinue key3 payload2) s) = Some r
    /\ trace r = trace s ++
         [WebSocketBinaryFrame payload1 false;
          IoWrite (createWebsocketHeader OpCodePong (size ping)); IoWrite ping;
          WebSocketBinaryFrame payload2 true;
          WebSocketBinaryMessage (payload1 ++ payload2)]
    /\ websocket_message r = [] /\ websocket_payload r = []
    /\ websocket_continue_opcode r = 0
    /\ websocket_phase r = WebSocketPhaseHeaders /\ websocket_need r = 2
    /\ closed r = closed s /\ io_pending r = [].
Proof.
  intros Hok Hinv Hphase Hpending Hcont Hk1 Hk2 Hk3 Hfit1 Hping Hfit2.
  pose proof (size_nonneg payload1) as Hp1. pose proof (size_nonneg payload2) as Hp2.
  pose proof (size_nonneg ping) as Hp3.
  set (f3 := client_frame true OpCodeContinue key3 payload2).
  set (f2 := client_frame true OpCodePing key2 ping ++ f3).
  set (s0 := receive (client_frame false OpCodeBinary key1 payload1 ++ f2) s).
  assert (Hinv0 : sock_inv s0) by exact Hinv.
  assert (Hpend0 : io_pending s0 = client_frame false OpCodeBinary key1 payload1 ++ f2).
  { unfold s0, receive. sock_simpl. now rewrite Hpending. }
  (* the first fragment *)
  set (s1 := emit (WebSocketBinaryFrame payload1 false)
               (set_message payload1
                  (set_phase WebSocketPhaseHeaders
                     (set_need 2
                        (set_payload payload1
                           (set_mask (load_le 4 key1)
                              (set_payload_size (size payload1)
                                 (set_io_pending f2
                                    (set_continue_opcode OpCodeBinary
                                       (set_start_of_frame 0
                                          (set_message [] (set_finn_opcode 0x02 s0)))))))))))).
  assert (Hd1 : frame_complete self (frame_received OpCodeBinary key1 payload1 f2 s0)
                = (true, s1)).
  { unfold frame_received.
    change (begin_frame OpCodeBinary s0)
      with (set_continue_opcode OpCodeBinary
              (set_start_of_frame 0 (set_message [] (set_finn_opcode 0x02 s0)))).
    rewrite frame_complete_binary by reflexivity.
    rewrite send_binary_fragment by reflexivity. reflexivity. }
  assert (Hinv1 : sock_inv s1) by (split; [exact (proj1 Hinv) | reflexivity]).
  (* the ping *)
  set (s2 := send_pong
               (set_phase WebSocketPhaseHeaders
                  (set_need 2
                     (set_payload ping
                        (set_mask (load_le 4 key2)
                           (set_payload_size (size ping)
                              (set_io_pending f3 (set_finn_opcode 0x89 s1)))))))
               ping).
  assert (Hd2 : frame_complete self (frame_received (0x80 + OpCodePing) key2 ping f3 s1)
                = (true, s2)).
  { unfold frame_received.
    change (begin_frame (0x80 + OpCodePing) s1) with (set_finn_opcode 0x89 s1).
    rewrite frame_complete_ping by reflexivity. sock_simpl.
    rewrite left_all by lia. reflexivity. }
  assert (Hinv2 : sock_inv s2) by (split; [exact (proj1 Hinv) | reflexivity]).
  (* the last fragment *)
  set (s3 := set_phase WebSocketPhaseHeaders
               (set_need 2
                  (set_payload payload2
                     (set_mask (load_le 4 key3)
                        (set_payload_size (size payload2)
                           (set_io_pending [] (set_finn_opcode 0x80 s2))))))).
  assert (Hd3 : frame_complete self (frame_received (0x80 + OpCodeContinue) key3 payload2 [] s2)
                = (true, send_binary s3 false)).
  { unfold frame_received.
    change (begin_frame (0x80 + OpCodeContinue) s2) with (set_finn_opcode 0x80 s2).
    rewrite frame_complete_continue_binary by reflexivity. reflexivity. }
  exists (send_binary s3 false). split.
  - apply (readyRead_runs self s0 _ Hok Hinv0).
    rewrite (runs_client_frame self s0 _ false OpCodeBinary key1 payload1 f2 Hok Hinv0 Hphase
               Hpend0 ltac:(unfold OpCodeBinary; lia) Hk1 Hfit1).
    2: { change (websocket_continue_opcode s0) with (websocket_continue_opcode s).
         rewrite Hcont. apply data_header_accepted; [auto | apply length_field_range; lia]. }
    rewrite Hd1. cbn [fst snd]. rewrite orb_true_r.
    replace (size f2) with (size (io_pending s1)) by reflexivity.
    rewrite (runs_client_frame self s1 _ true OpCodePing key2 ping f3 Hok Hinv1
               eq_refl eq_refl ltac:(unfold OpCodePing; lia) Hk2 ltac:(left; lia)).
    2: { rewrite length_field_small by lia. apply control_header_accepted; [auto | lia]. }
    rewrite Hd2. cbn [fst snd]. rewrite orb_true_r.
    replace (size f3) with (size (io_pending s2)) by reflexivity.
    rewrite (runs_client_frame self s2 _ true OpCodeContinue key3 payload2 [] Hok Hinv2
               eq_refl ltac:(symmetry; apply app_nil_r)
               ltac:(unfold OpCodeContinue; lia) Hk3 Hfit2).
    2: { apply continue_header_accepted; [auto | apply length_field_range; lia]. }
    rewrite Hd3. cbn [fst snd]. rewrite orb_true_r. now apply runs_nothing.
  - rewrite send_binary_final by (reflexivity || discriminate).
    unfold s3, s2, send_pong, s1, s0. sock_simpl. rewrite <- !app_assoc. repeat split.
Qed.

Lemma ping_between_fragments_witness :
  exists r,
    readyRead default_protocol
      (receive (client_frame false OpCodeBinary [1; 2; 3; 4] [0xCA; 0xFE]
                ++ client_frame true OpCodePing [9; 9; 9; 9] [H_]
                ++ client_frame true OpCodeContinue [5; 6; 7; 8] [0xBA; 0xBE]) upgraded_socket)
    = Some r
    /\ trace r = [WebSocketBinaryFrame [0xCA; 0xFE] false;
                  IoWrite [0x8A; 1]; IoWrite [H_];
                  WebSocketBinaryFrame [0xBA; 0xBE] true;
                  WebSocketBinaryMessage [0xCA; 0xFE; 0xBA; 0xBE]].
Proof.
  destruct (ping_between_fragments default_protocol upgraded_socket
              [1; 2; 3; 4] [9; 9; 9; 9] [5; 6; 7; 8] [0xCA; 0xFE] [H_] [0xBA; 0xBE])
    as (r & Hr & Ht & _).
  - split; [vm_compute; discriminate | split; vm_compute; [discriminate | reflexivity]].
  - split; reflexivity.
  - reflexivity.
  - reflexivity.
  - reflexivity.
  - reflexivity.
  - reflexivity.
  - reflexivity.
  - left. vm_compute. reflexivity.
  - vm_compute. discriminate.
  - left. vm_compute. reflexivity.
  - exists r. split; assumption.
Defined.

(** ** A read that fails *)

(** X13. When the decoder has bytes to read (some are available, and enough
    of them for the field awaited, or the payload is being read) and the
    device's read fails, [readyRead] closes the connection and returns:
    nothing is written to the client, the session is not notified and the
    decoder's fields are left as they were. *)
Theorem read_failure_closes (self : ProtocolWebSocket) (s : Socket) :
  io_failing s = true -> io_pending s <> [] -> websocket_need s <> 0 ->
  websocket_need s <= size (io_pending s) \/ websocket_phase s = WebSocketPhasePayload ->
  exists r,
    readyRead self s = Some r
    /\ trace r = trace s ++ [ConnectionClose] /\ closed r = true
    /\ websocket_phase r = websocket_phase s /\ websocket_need r = websocket_need s
    /\ websocket_payload r = websocket_payload s
    /\ websocket_message r = websocket_message s.
Proof.
  intros Hfail Hpend Hneed Henough.
  exists (connectionClose s). split; [|repeat split].
  unfold readyRead, bytesAvailable. cbn [readyRead_loop]. unfold readyRead_turn.
  assert (Hsz : (size (io_pending s) =? 0) = false).
  { apply Z.eqb_neq. intros E. apply Hpend. unfold size in E.
    destruct (io_pending s); [reflexivity | cbn [length] in E; lia]. }
  assert (Hn : (websocket_need s =? 0) = false) by now apply Z.eqb_neq.
  assert (Hg : (size (io_pending s) <? websocket_need s)
               && negb (is_payload_phase (websocket_phase s)) = false).
  { destruct Henough as [H | ->]; [|apply andb_false_r].
    apply andb_false_iff. left. apply Z.ltb_ge. exact H. }
  rewrite Hsz, Hn, Hg. cbn [orb]. unfold io_read. rewrite Hfail. reflexivity.
Qed.

Lemma read_failure_closes_witness :
  exists r,
    readyRead default_protocol
      (mkSocket [] [] 0 2 0 0 WebSocketPhaseHeaders 0 0 [0x81; 0x80] true false []) = Some r
    /\ trace r = [ConnectionClose] /\ closed r = true.
Proof.
  destruct (read_failure_closes default_protocol
              (mkSocket [] [] 0 2 0 0 WebSocketPhaseHeaders 0 0 [0x81; 0x80] true false []))
    as (r & Hr & Ht & Hc & _).
  - reflexivity.
  - discriminate.
  - discriminate.
  - left. vm_compute. discriminate.
  - exists r. repeat split; assumption.
Defined.
